(** * Merry-Christmas8: procedural geometry and animation of the photo tree

    A shallow embedding of the generation and animation code of
    [src/components/Tree.tsx], of its later revision [src/unnamed/part_000]
    (which adds the [stool] shape) and of the gesture handler of
    [src/unnamed/part_002], with the properties of the specification stated
    and proved (or refuted) over it.

    Numbers.  A JavaScript [number] is an IEEE-754 double.  It is modelled by
    a real number of [R]: rounding, overflow, [NaN] and the infinities are not
    represented, and a [Float32Array] cell holds the value written to it.
    [Math.max], [Math.min], [Math.sqrt], [Math.sin], [Math.cos], [Math.PI] and
    [Math.floor] are [Rmax], [Rmin], [sqrt], [sin], [cos], [PI] and
    [Int_part].

    Randomness.  [Math.random()] reads an implicit global source.  It is
    modelled by a stream [rnd : nat -> R] (the successive results) and a
    cursor threaded through the code by a small state monad, so that the
    order and the number of the draws are those of the source. *)

From Stdlib Require Import Reals Lra Lia List String ZArith Bool.
Import ListNotations.

Set Warnings "-abstract-large-number".

Local Open Scope R_scope.

(** ** three.js vectors

    [THREE.Vector3] and [THREE.MathUtils] belong to the three.js library; the
    methods the repository calls are written out from their definitions
    there. *)

Module THREE.

Record Vector3 : Type := mkVector3 { x : R; y : R; z : R }.

(** [this.x += (v.x - this.x) * alpha], and likewise for [y] and [z]. *)
Definition lerp (this v : Vector3) (alpha : R) : Vector3 :=
  mkVector3 (x this + (x v - x this) * alpha)
            (y this + (y v - y this) * alpha)
            (z this + (z v - z this) * alpha).

Definition add (this v : Vector3) : Vector3 :=
  mkVector3 (x this + x v) (y this + y v) (z this + z v).

Definition multiplyScalar (this : Vector3) (s : R) : Vector3 :=
  mkVector3 (x this * s) (y this * s) (z this * s).

Definition lengthSq (this : Vector3) : R :=
  x this * x this + y this * y this + z this * z this.

Definition length (this : Vector3) : R := sqrt (lengthSq this).

(** [divideScalar(s)] is [multiplyScalar(1 / s)]. *)
Definition divideScalar (this : Vector3) (s : R) : Vector3 :=
  multiplyScalar this (1 / s).

(** [normalize()] is [this.divideScalar(this.length() || 1)]. *)
Definition normalize (this : Vector3) : Vector3 :=
  divideScalar this (if Req_dec_T (length this) 0 then 1 else length this).

Definition distanceToSquared (this v : Vector3) : R :=
  (x this - x v) * (x this - x v) + (y this - y v) * (y this - y v)
  + (z this - z v) * (z this - z v).

Definition distanceTo (this v : Vector3) : R := sqrt (distanceToSquared this v).

(** The three angles of an [Euler]; its order is not used. *)
Record Euler : Type := mkEuler { ex : R; ey : R; ez : R }.

(** [MathUtils.lerp(x, y, t)] is [(1 - t) * x + t * y]. *)
Definition MathUtils_lerp (a b t : R) : R := (1 - t) * a + t * b.

End THREE.

(** ** The random source *)

Definition Random : Type := nat -> R.

(** A computation that may call [Math.random()]: from the source and the
    cursor it gives its result and the cursor after its draws. *)
Definition Gen (A : Type) : Type := Random -> nat -> A * nat.

Definition ret {A : Type} (a : A) : Gen A := fun _ k => (a, k).

Definition bind {A B : Type} (m : Gen A) (f : A -> Gen B) : Gen B :=
  fun rnd k => let (a, k') := m rnd k in f a rnd k'.

(** One call of [Math.random()]. *)
Definition Math_random : Gen R := fun rnd k => (rnd k, S k).

Declare Scope gen_scope.
Delimit Scope gen_scope with gen.
Notation "x <- m ;; f" := (bind m (fun x => f))
  (at level 61, m at next level, right associativity) : gen_scope.
Notation "' pat <- m ;; f" := (bind m (fun x => match x with pat => f end))
  (at level 61, pat pattern, m at next level, right associativity) : gen_scope.

(** What [Math.random()] promises: a value of [[0, 1)]. *)
Definition uniform01 (rnd : Random) : Prop := forall n : nat, 0 <= rnd n < 1.

(** ** Enumerations of [types.ts] *)

(** [TreeShape].  [stool] is a shape of the later revision only
    ([src/unnamed/part_000], [src/unnamed/part_002]); in
    [src/components/Tree.tsx] no branch names it. *)
Inductive TreeShape : Type :=
  | tree | snowman | reindeer | santa | real_tree | diamond | twin_towers
  | stool.

Inductive TreeStyle : Type := classic | crayon | geometric.

Inductive GestureType : Type := Open_Palm | Victory | Closed_Fist | None_.

Inductive AppMode : Type := mode_tree | mode_focus | mode_album.

Record PhotoData : Type := mkPhotoData {
  id : string;
  url : string;
  version : nat;
  isEmpty : bool
}.

Definition TreeShape_eqb (a b : TreeShape) : bool :=
  match a, b with
  | tree, tree | snowman, snowman | reindeer, reindeer | santa, santa
  | real_tree, real_tree | diamond, diamond | twin_towers, twin_towers
  | stool, stool => true
  | _, _ => false
  end.

Definition GestureType_eqb (a b : GestureType) : bool :=
  match a, b with
  | Open_Palm, Open_Palm | Victory, Victory | Closed_Fist, Closed_Fist
  | None_, None_ => true
  | _, _ => false
  end.

(** ** Radius profile *)

(** The cone shared by the four tree-like shapes:
    [Math.max(0, 9 * (1 - (y + 9) / 18))]. *)
Definition coneRadiusAtY (y : R) : R := Rmax 0 (9 * (1 - (y + 9) / 18)).

(** The three stacked spheres of the snowman. *)
Definition snowmanRadiusAtY (y : R) : R :=
  if Rlt_dec y (-3) then
    let dy := y - (-6) in Rmax 0 (sqrt (Rmax 0 (4.5 * 4.5 - dy * dy)))
  else if Rlt_dec y 3 then
    let dy := y - 0 in Rmax 0 (sqrt (Rmax 0 (3.5 * 3.5 - dy * dy)))
  else
    let dy := y - 5 in Rmax 0 (sqrt (Rmax 0 (2.5 * 2.5 - dy * dy))).

Definition santaRadiusAtY (y : R) : R :=
  if Rlt_dec y (-2) then 5 else if Rlt_dec y 4 then 4 else 3.

(** ** Rejection sampling in a sphere (lines 643-650) *)

(** The body of [while (safety-- > 0)], with [safety] the number of
    iterations still allowed. *)
Fixpoint getRandomPointInSphere_loop (safety : nat) (cy r : R)
  : Gen THREE.Vector3 :=
  match safety with
  | O => ret (THREE.mkVector3 0 cy 0)
  | S safety' =>
      (a <- Math_random ;; b <- Math_random ;; c <- Math_random ;;
       let u := a * 2 - 1 in
       let v := b * 2 - 1 in
       let w := c * 2 - 1 in
       if Rlt_dec (u * u + v * v + w * w) 1
       then ret (THREE.mkVector3 (u * r) (v * r + cy) (w * r))
       else getRandomPointInSphere_loop safety' cy r)%gen
  end.

Definition getRandomPointInSphere (cy r : R) : Gen THREE.Vector3 :=
  getRandomPointInSphere_loop 100 cy r.

(** ** Loops *)

(** [for (let i = start; i < start + n; i++) body], the loop state threaded
    through the iterations. *)
Fixpoint for_loop {St : Type} (n start : nat) (body : nat -> St -> Gen St)
  (s : St) : Gen St :=
  match n with
  | O => ret s
  | S n' => (s' <- body start s ;; for_loop n' (S start) body s')%gen
  end.

(** [arr[Math.floor(u * arr.length)]]; [None] is JavaScript's [undefined]
    of an index out of range. *)
Definition pick {A : Type} (arr : list A) (u : R) : option A :=
  match Int_part (u * INR (List.length arr)) with
  | Zneg _ => None
  | i => nth_error arr (Z.to_nat i)
  end.

(** ** Constants of the [Tree] component (lines 660-662) *)

Definition height : R := 18.
Definition radiusBottom : R := 8.

Definition leafCount (treeStyle : TreeStyle) : nat :=
  match treeStyle with
  | geometric => 400
  | crayon => 1500
  | classic => 5000
  end.

Definition rainbow : string := "rainbow".

(** ** Shape points: the samplers of one particle (lines 703-757) *)

(** What one iteration of the generation loop leaves in [x], [y], [z] and
    [colorHex]. *)
Record Sample : Type := mkSample {
  sample_pos : THREE.Vector3;
  sample_colorHex : string
}.

Section Samplers.

(** ['#' + tempColor.setHSL(h, 0.8, 0.5).getHexString()], a conversion of
    three.js. *)
Variable hslHexString : R -> string.

Variable foliageColor : string.

(** The branch [shape === 'tree' || shape === 'twin_towers']. *)
Definition sampleTree : Gen Sample :=
  (u1 <- Math_random ;;
   let h := u1 * height in
   let progress := h / height in
   let rMax := radiusBottom * (1 - progress) in
   rMode <- Math_random ;;
   r <- (if Rlt_dec rMode 0.4
         then (u <- Math_random ;; ret (rMax * u * 0.5))
         else (u <- Math_random ;; ret (rMax * sqrt u))) ;;
   u2 <- Math_random ;;
   let theta := u2 * 2 * PI in
   let pos := THREE.mkVector3 (r * cos theta) (h - height / 2) (r * sin theta) in
   if String.eqb foliageColor rainbow
   then (u3 <- Math_random ;; ret (mkSample pos (hslHexString u3)))
   else ret (mkSample pos foliageColor))%gen.

(** The branch [shape === 'diamond']; [Math.pow(u, 0.5)] is [sqrt u]. *)
Definition sampleDiamond : Gen Sample :=
  (u1 <- Math_random ;;
   let h := u1 * height in
   let yPos := h - height / 2 in
   let rMax := Rmax 0 (radiusBottom * (1 - h / height)) in
   u2 <- Math_random ;;
   dist <- (if Rgt_dec u2 0.1
            then (u <- Math_random ;; ret (0.95 + u * 0.05))
            else (u <- Math_random ;; ret (sqrt u))) ;;
   let r := rMax * dist in
   u3 <- Math_random ;;
   let theta := u3 * 2 * PI in
   let pos := THREE.mkVector3 (r * cos theta) yPos (r * sin theta) in
   val <- Math_random ;;
   ret (mkSample pos
          (if Rgt_dec val 0.8 then "#ffffff"
           else if Rgt_dec val 0.6 then "#f8fafc"
           else if Rgt_dec val 0.4 then "#cbd5e1"
           else "#94a3b8")%string))%gen.

End Samplers.

(** One block of the geometric style (lines 924-933). *)
Inductive BlockForm : Type := box | sphere.

Record GeoItem : Type := mkGeoItem {
  geo_initialPos : THREE.Vector3;
  geo_explodedPos : THREE.Vector3;
  geo_color : string;
  geo_shapeType : BlockForm
}.

(** One particle as stored: its three cells of [posArray], its colour before
    [tempColor.set] and the [boost] that multiplies its channels. *)
Record Particle : Type := mkParticle {
  particle_pos : THREE.Vector3;
  particle_colorHex : string;
  particle_boost : R
}.

Record ShapePoints : Type := mkShapePoints {
  positions : list Particle;
  geometricItems : list GeoItem
}.

Definition boostOf (shape : TreeShape) (foliageColor : string) : R :=
  if (TreeShape_eqb shape diamond || String.eqb foliageColor rainbow
      || String.eqb foliageColor "#FFD700" || String.eqb foliageColor "#C0C0C0")%bool
  then 1.5 else 1.0.

(** The tail of one iteration (lines 911-934): store the particle and, when
    [asBlocks] holds, push a block. *)
Definition storeSample (shape : TreeShape) (foliageColor : string)
  (asBlocks : bool) (s : Sample) (acc : ShapePoints) : Gen ShapePoints :=
  let p := mkParticle (sample_pos s) (sample_colorHex s) (boostOf shape foliageColor) in
  if asBlocks then
    (u1 <- Math_random ;;
     let explodedPos :=
       THREE.multiplyScalar (THREE.normalize (sample_pos s)) (15 + u1 * 10) in
     u2 <- Math_random ;;
     ret (mkShapePoints (positions acc ++ [p])
            (geometricItems acc ++
             [mkGeoItem (sample_pos s) explodedPos (sample_colorHex s)
                (if Rgt_dec u2 0.5 then box else sphere)])))%gen
  else ret (mkShapePoints (positions acc ++ [p]) (geometricItems acc)).

(** ** Decorations (lines 975-1029) *)

Record Bauble : Type := mkBauble {
  bauble_position : THREE.Vector3;
  bauble_color : option string;
  bauble_scale : R
}.

Record Gift : Type := mkGift {
  gift_position : THREE.Vector3;
  gift_color : option string;
  gift_scale : R;
  gift_rotation : THREE.Vector3
}.

Record Flower : Type := mkFlower {
  flower_position : THREE.Vector3;
  flower_color : option string;
  flower_scale : R;
  flower_rotation : THREE.Vector3
}.

Inductive DecorForm : Type := decor_box | decor_octahedron.

Record GeometricDecor : Type := mkGeometricDecor {
  decor_position : THREE.Vector3;
  decor_scale : R;
  decor_type : DecorForm
}.

(** The object the [decorations] memo returns.  Nothing is ever pushed on
    [ribbons] and [geometricDecors]. *)
Record Decorations : Type := mkDecorations {
  baubles : list Bauble;
  gifts : list Gift;
  ribbons : list unit;
  flowers : list Flower;
  geometricDecors : list GeometricDecor
}.

Definition noDecorations : Decorations := mkDecorations [] [] [] [] [].

Definition supportsDecor (shape : TreeShape) : bool :=
  (TreeShape_eqb shape tree || TreeShape_eqb shape real_tree
   || TreeShape_eqb shape diamond || TreeShape_eqb shape twin_towers)%bool.

Definition baublePalette (isSilver : bool) : list string :=
  if isSilver then ["#ef4444"; "#C0C0C0"; "#3b82f6"; "#ffffff"]%string
  else ["#ef4444"; "#FFD700"; "#22c55e"]%string.

Definition flowerPalette : list string := ["#ec4899"; "#fbcfe8"; "#ffffff"]%string.

Definition giftPalette : list string := ["#8b5cf6"; "#ec4899"]%string.

Definition decorationCount (shape : TreeShape) : nat :=
  match shape with
  | real_tree => 24
  | diamond => 80
  | _ => 200
  end.

(** [Math.atan2] is used for the flowers' yaw only; it is left abstract. *)
Section DecorationLoop.

Variable Math_atan2 : R -> R -> R.
Variable shape : TreeShape.
Variable isSilver : bool.

(** The body of [for (let i = 0; i < count; i++)]. *)
Definition decorationStep (i : nat) (d : Decorations) : Gen Decorations :=
  let count := decorationCount shape in
  (u0 <- Math_random ;;
   let scale := 0.2 + u0 * 0.3 in
   match shape with
   | real_tree =>
       let goldenAngle := PI * (3 - sqrt 5) in
       let y := -7.5 + (INR i / (INR count - 1)) * 15 in
       let rBase := (radiusBottom * (1 - (y + 9) / 18)) + 1.0 in
       let r := rBase * 1.1 in
       let theta := INR i * goldenAngle * 3 in
       let pos := THREE.mkVector3 (r * cos theta) y (r * sin theta) in
       let rotation :=
         THREE.mkVector3 0 (Math_atan2 (THREE.x pos) (THREE.z pos)) 0 in
       u1 <- Math_random ;;
       let scale := 0.8 + u1 * 0.5 in
       u2 <- Math_random ;;
       ret (mkDecorations (baubles d) (gifts d) (ribbons d)
              (flowers d ++ [mkFlower pos (pick flowerPalette u2) scale rotation])
              (geometricDecors d))
   | diamond => ret d
   | _ =>
       u1 <- Math_random ;;
       let h := u1 * height in
       let rBase := radiusBottom * (1 - h / height) in
       let r := rBase * 0.9 in
       u2 <- Math_random ;;
       let theta := u2 * 2 * PI in
       let pos :=
         THREE.mkVector3 (r * cos theta) (h - height / 2) (r * sin theta) in
       u3 <- Math_random ;;
       if Rgt_dec u3 0.3 then
         u4 <- Math_random ;;
         ret (mkDecorations
                (baubles d ++ [mkBauble pos (pick (baublePalette isSilver) u4) scale])
                (gifts d) (ribbons d) (flowers d) (geometricDecors d))
       else
         u4 <- Math_random ;;
         u5 <- Math_random ;;
         u6 <- Math_random ;;
         ret (mkDecorations (baubles d)
                (gifts d ++ [mkGift pos (pick giftPalette u4) scale
                               (THREE.mkVector3 u5 u6 0)])
                (ribbons d) (flowers d) (geometricDecors d))
   end)%gen.

Definition decorations : Gen Decorations :=
  if negb (supportsDecor shape) then ret noDecorations
  else for_loop (decorationCount shape) 0 decorationStep noDecorations.

End DecorationLoop.

(** ** The crystal's garland and gems (lines 133-157 and 196-256) *)

Record Pearl : Type := mkPearl {
  pearl_position : THREE.Vector3;
  pearl_scale : R
}.

Definition strands : nat := 1.
Definition loops : nat := 6.
Definition pearlsPerLoop : nat := 200.
Definition totalPerStrand : nat := (loops * pearlsPerLoop)%nat.
Definition drapeFreq : R := 12.

(** The values of pearl [i] of strand [s] before the jitter. *)
Definition strandOffset (s : nat) : R := (INR s * PI * 2) / INR strands.
Definition pearl_t (i : nat) : R := INR i / INR totalPerStrand.
Definition pearl_hBase (i : nat) : R := (height / 2) - (pearl_t i * height).
Definition pearl_progress (i : nat) : R := (pearl_hBase i + (height / 2)) / height.
Definition pearl_rCone (i : nat) : R := Rmax 0.2 (9 * (1 - pearl_progress i)).
Definition pearl_angle (s i : nat) : R :=
  (pearl_t i * INR loops * PI * 2) + strandOffset s.
Definition pearl_drapePhase (s i : nat) : R :=
  (sin (pearl_angle s i * drapeFreq) + 1) / 2.
Definition pearl_rOffset (s i : nat) : R := (1 - pearl_drapePhase s i) * 0.5.
Definition pearl_hOffset (s i : nat) : R := (1 - pearl_drapePhase s i) * 0.8.
Definition pearl_r (s i : nat) : R := pearl_rCone i + pearl_rOffset s i + 0.2.
Definition pearl_h (s i : nat) : R := pearl_hBase i - pearl_hOffset s i.

(** The body of the inner loop: the jitter, the scale and the push. *)
Definition pearlStep (s i : nat) (data : list Pearl) : Gen (list Pearl) :=
  (u1 <- Math_random ;;
   let jitterX := (u1 - 0.5) * 0.05 in
   u2 <- Math_random ;;
   let jitterY := (u2 - 0.5) * 0.05 in
   u3 <- Math_random ;;
   let jitterZ := (u3 - 0.5) * 0.05 in
   u4 <- Math_random ;;
   let scale := 0.1 + u4 * 0.1 in
   ret (data ++
        [mkPearl
           (THREE.mkVector3 (pearl_r s i * cos (pearl_angle s i) + jitterX)
              (pearl_h s i + jitterY)
              (pearl_r s i * sin (pearl_angle s i) + jitterZ))
           scale]))%gen.

Definition pearlsData (shape : TreeShape) : Gen (list Pearl) :=
  if negb (TreeShape_eqb shape diamond) then ret []
  else for_loop strands 0
         (fun s data => for_loop totalPerStrand 0 (pearlStep s) data) [].

Record Gem : Type := mkGem {
  gem_position : THREE.Vector3;
  gem_scale : R;
  gem_rotation : THREE.Vector3
}.

Definition diamondCount : nat := 150.

Definition diamondStep (_ : nat) (data : list Gem) : Gen (list Gem) :=
  (u1 <- Math_random ;;
   let h := (u1 * 18) - (18 / 2) in
   let progress := (h + 9) / 18 in
   let rBase := Rmax 0 (9 * (1 - progress)) in
   u2 <- Math_random ;;
   let r := rBase * (0.9 + u2 * 0.2) in
   u3 <- Math_random ;;
   let theta := u3 * PI * 2 in
   u4 <- Math_random ;;
   u5 <- Math_random ;;
   u6 <- Math_random ;;
   u7 <- Math_random ;;
   ret (data ++
        [mkGem (THREE.mkVector3 (r * cos theta) h (r * sin theta))
           (0.5 + u4 * 0.4)
           (THREE.mkVector3 (u5 * PI) (u6 * PI) (u7 * PI))]))%gen.

Definition diamondsData (shape : TreeShape) : Gen (list Gem) :=
  if negb (TreeShape_eqb shape diamond) then ret []
  else for_loop diamondCount 0 diamondStep [].

(** ** Photo slots and the frame update (lines 1032-1100) *)

(** One element of [layout]. *)
Record SlotLayout : Type := mkSlotLayout {
  initialPos : THREE.Vector3;
  explodedPos : THREE.Vector3;
  initialRot : THREE.Euler
}.

(** The part of a mounted [THREE.Group] the frame update reads and writes. *)
Record Object3D : Type := mkObject3D {
  position : THREE.Vector3;
  scale : THREE.Vector3;
  rotation : THREE.Euler
}.

(** One element of [photoItems]; [item_ref] is [ref.current], [None] while
    the group is not mounted. *)
Record PhotoItem : Type := mkPhotoItem {
  item_layout : SlotLayout;
  item_ref : option Object3D;
  item_photo : PhotoData
}.

(** What [useFrame] mutates: the rotation of the container ([groupRef]),
    the scale of the particle cloud ([foliageRef]) and the photo groups. *)
Record Scene : Type := mkScene {
  group_rotation_y : option R;
  foliage_scale : option THREE.Vector3;
  photoItems : list PhotoItem
}.

Definition updatePhotoItem (isExploded : bool) (delta : R) (item : PhotoItem)
  : PhotoItem :=
  let lerpFactor := delta * 2 in
  match item_ref item with
  | None => item
  | Some cur =>
      let targetPos :=
        if isExploded then explodedPos (item_layout item)
        else initialPos (item_layout item) in
      let position' := THREE.lerp (position cur) targetPos lerpFactor in
      let targetScale := if isExploded then 4.5 else 1 in
      let scale' :=
        THREE.lerp (scale cur)
          (THREE.mkVector3 targetScale targetScale targetScale) lerpFactor in
      let rot := rotation cur in
      let irot := initialRot (item_layout item) in
      let rotation' :=
        if isExploded then
          THREE.mkEuler (THREE.ex rot + delta * 0.2) (THREE.ey rot + delta * 0.2)
            (THREE.ez rot)
        else
          THREE.mkEuler
            (THREE.MathUtils_lerp (THREE.ex rot) (THREE.ex irot) lerpFactor)
            (THREE.MathUtils_lerp (THREE.ey rot) (THREE.ey irot) lerpFactor)
            (THREE.MathUtils_lerp (THREE.ez rot) (THREE.ez irot) lerpFactor) in
      mkPhotoItem (item_layout item)
        (Some (mkObject3D position' scale' rotation')) (item_photo item)
  end.

(** The callback of [useFrame((state, delta) => ...)]. *)
Definition useFrame (isExploded : bool) (gestureRotation delta : R) (s : Scene)
  : Scene :=
  let lerpFactor := delta * 2 in
  mkScene
    (match group_rotation_y s with
     | Some ry => Some (ry + (delta * 0.05 + gestureRotation * 0.05))
     | None => None
     end)
    (match foliage_scale s with
     | Some sc =>
         let targetScale := if isExploded then 4 else 1 in
         Some (THREE.lerp sc
                 (THREE.mkVector3 targetScale targetScale targetScale) lerpFactor)
     | None => None
     end)
    (map (updatePhotoItem isExploded delta) (photoItems s)).

(** [n] frames of the same [delta], flag and gesture input. *)
Fixpoint frames (n : nat) (isExploded : bool) (gestureRotation delta : R)
  (s : Scene) : Scene :=
  match n with
  | O => s
  | S n' => frames n' isExploded gestureRotation delta
              (useFrame isExploded gestureRotation delta s)
  end.

(** ** The gesture handler ([src/unnamed/part_002], lines 789-835) *)

Definition TREE_COLORS : list string :=
  ["#064e3b"; "#FFD700"; "#C0C0C0"; "rainbow"]%string.

(** The state of [App] the handler reads or sets; [lastColorChange] is the
    [current] cell of a ref, in milliseconds. *)
Record AppState : Type := mkAppState {
  photos : list PhotoData;
  mode : AppMode;
  activePhoto : option PhotoData;
  isExploded : bool;
  isTwinkling : bool;
  treeColorIndex : nat;
  gestureX : R;
  lastGesture : GestureType;
  lastColorChange : Z
}.

(** The calls the handler makes, in the order it makes them.
    [SetActivePhoto None] is a call with [undefined]. *)
Inductive Action : Type :=
  | SetIsExploded (b : bool)
  | SetIsTwinkling (b : bool)
  | SetTreeColorIndex_next
  | StoreLastColorChange (now : Z)
  | SetActivePhoto (p : option PhotoData)
  | SetMode (m : AppMode)
  | SetGestureX (v : R)
  | SetLastGesture (g : GestureType).

Definition validPhotos (ps : list PhotoData) : list PhotoData :=
  filter (fun p => negb (isEmpty p)) ps.

(** [handleGesture(gesture, x)], run in state [st] when [Date.now()] is
    [now]. *)
Definition handleGesture (st : AppState) (now : Z) (gesture : GestureType)
  (x : R) : Gen (list Action) :=
  let part1 :=
    if GestureType_eqb gesture Open_Palm then [SetIsExploded true]
    else if GestureType_eqb (lastGesture st) Open_Palm then [SetIsExploded false]
    else [] in
  let part2 :=
    if GestureType_eqb gesture Closed_Fist then
      SetIsTwinkling true ::
      (if (now - lastColorChange st >? 300)%Z
       then [SetTreeColorIndex_next; StoreLastColorChange now] else [])
    else if GestureType_eqb (lastGesture st) Closed_Fist then [SetIsTwinkling false]
    else [] in
  let part4 :=
    if GestureType_eqb gesture Closed_Fist then [SetGestureX 3.0]
    else if negb (GestureType_eqb gesture None_) then
      let rotationSpeed := (x - 0.5) * 4 in [SetGestureX rotationSpeed]
    else [SetGestureX 0] in
  (part3 <-
     (if (GestureType_eqb gesture Victory
          && negb (GestureType_eqb (lastGesture st) Victory))%bool
      then
        match validPhotos (photos st) with
        | [] => ret []
        | valid =>
            u <- Math_random ;;
            let randomPhoto := pick valid u in
            ret [SetActivePhoto randomPhoto; SetMode mode_focus]
        end
      else ret []) ;;
   ret (part1 ++ part2 ++ part3 ++ part4 ++ [SetLastGesture gesture]))%gen.

Definition applyAction (st : AppState) (a : Action) : AppState :=
  match a with
  | SetIsExploded b =>
      mkAppState (photos st) (mode st) (activePhoto st) b (isTwinkling st)
        (treeColorIndex st) (gestureX st) (lastGesture st) (lastColorChange st)
  | SetIsTwinkling b =>
      mkAppState (photos st) (mode st) (activePhoto st) (isExploded st) b
        (treeColorIndex st) (gestureX st) (lastGesture st) (lastColorChange st)
  | SetTreeColorIndex_next =>
      mkAppState (photos st) (mode st) (activePhoto st) (isExploded st)
        (isTwinkling st)
        ((treeColorIndex st + 1) mod List.length TREE_COLORS)%nat
        (gestureX st) (lastGesture st) (lastColorChange st)
  | StoreLastColorChange now =>
      mkAppState (photos st) (mode st) (activePhoto st) (isExploded st)
        (isTwinkling st) (treeColorIndex st) (gestureX st) (lastGesture st) now
  | SetActivePhoto p =>
      mkAppState (photos st) (mode st) p (isExploded st) (isTwinkling st)
        (treeColorIndex st) (gestureX st) (lastGesture st) (lastColorChange st)
  | SetMode m =>
      mkAppState (photos st) m (activePhoto st) (isExploded st) (isTwinkling st)
        (treeColorIndex st) (gestureX st) (lastGesture st) (lastColorChange st)
  | SetGestureX v =>
      mkAppState (photos st) (mode st) (activePhoto st) (isExploded st)
        (isTwinkling st) (treeColorIndex st) v (lastGesture st)
        (lastColorChange st)
  | SetLastGesture g =>
      mkAppState (photos st) (mode st) (activePhoto st) (isExploded st)
        (isTwinkling st) (treeColorIndex st) (gestureX st) g (lastColorChange st)
  end.

(** The state of the render that follows a call of the handler. *)
Definition onGesture (st : AppState) (now : Z) (gesture : GestureType) (x : R)
  : Gen AppState :=
  (acts <- handleGesture st now gesture x ;;
   ret (fold_left applyAction acts st))%gen.

(** A jump request: the handler selects a photo and enters focus mode. *)
Definition isJumpRequest (a : Action) : bool :=
  match a with
  | SetActivePhoto _ => true
  | _ => false
  end.

(** ** The revision of [src/components/Tree.tsx] *)

Module TreeTsx.

(** [getShapeRadiusAtY] (lines 624-640). *)
Definition getShapeRadiusAtY (y : R) (shape : TreeShape) : R :=
  match shape with
  | tree | real_tree | diamond | twin_towers => coneRadiusAtY y
  | snowman => snowmanRadiusAtY y
  | santa => santaRadiusAtY y
  | reindeer => if Rlt_dec y (-2) then 3 else if Rlt_dec y 4 then 3.5 else 4
  | stool => 0
  end.

Definition isHighDensity (shape : TreeShape) : bool :=
  (TreeShape_eqb shape real_tree || TreeShape_eqb shape diamond
   || TreeShape_eqb shape tree || TreeShape_eqb shape snowman
   || TreeShape_eqb shape reindeer)%bool.

(** The length of the particle buffers (lines 685-697). *)
Definition effectiveLeafCount (treeStyle : TreeStyle) (shape : TreeShape) : nat :=
  let effectiveLeafCount := if isHighDensity shape then 15000%nat else leafCount treeStyle in
  let effectiveLeafCount :=
    if TreeShape_eqb shape diamond then 8000%nat else effectiveLeafCount in
  effectiveLeafCount.

Section ShapePoints.

Variable hslHexString : R -> string.

(** The samplers of the cherry tree, the snowman, Santa and the reindeer
    team, which no property below looks into. *)
Variable sampleFigure : TreeShape -> Gen Sample.

Variable foliageColor : string.
Variable treeStyle : TreeStyle.
Variable shape : TreeShape.

Definition asBlocks : bool :=
  (match treeStyle with geometric => true | _ => false end && negb (isHighDensity shape))%bool.

(** The body of [for (let i = 0; i < effectiveLeafCount; i++)]. *)
Definition pointStep (_ : nat) (acc : ShapePoints) : Gen ShapePoints :=
  (s <- match shape with
        | tree | twin_towers => sampleTree hslHexString foliageColor
        | diamond => sampleDiamond
        | real_tree | snowman | santa | reindeer => sampleFigure shape
        | stool => ret (mkSample (THREE.mkVector3 0 0 0) foliageColor)
        end ;;
   storeSample shape foliageColor asBlocks s acc)%gen.

Definition shapePoints : Gen ShapePoints :=
  for_loop (effectiveLeafCount treeStyle shape) 0 pointStep (mkShapePoints [] []).

End ShapePoints.

(** The photo layout (lines 1032-1060). *)

Definition layoutCount (photos : list PhotoData) : nat :=
  if (0 <? List.length photos)%nat then List.length photos else 24%nat.

Definition goldenAngle : R := PI * (3 - sqrt 5).

(** The height and the base radius of slot [i] of [count]. *)
Definition slot_h (shape : TreeShape) (count i : nat) : R :=
  let t := INR i / INR count in (t * 14) - 7.

Definition slot_rBase (shape : TreeShape) (count i : nat) : R :=
  getShapeRadiusAtY (slot_h shape count i) shape.

(** The assembled position of slot [i] of [count]. *)
Definition slotPosition (shape : TreeShape) (count i : nat) : THREE.Vector3 :=
  let r := slot_rBase shape count i + 0.8 in
  let theta := INR i * goldenAngle * 10 in
  THREE.mkVector3 (r * cos theta) (slot_h shape count i) (r * sin theta).

Section Layout.

(** The orientation of a [THREE.Object3D] is computed by three.js:
    [lookAt] from the position and the target, [rotateY] on the
    quaternion, and the Euler angles [rotation] read back from it. *)
Variable Quaternion : Type.
Variable Object3D_lookAt : THREE.Vector3 -> THREE.Vector3 -> Quaternion.
Variable Object3D_rotateY : Quaternion -> R -> Quaternion.
Variable Object3D_rotation : Quaternion -> THREE.Euler.

Definition slotRotation (shape : TreeShape) (count i : nat) : THREE.Euler :=
  let position := slotPosition shape count i in
  let dummy := Object3D_lookAt position (THREE.mkVector3 0 (THREE.y position) 0) in
  let dummy := Object3D_rotateY dummy PI in
  Object3D_rotation dummy.

(** The callback of [Array.from({ length: count }).map((_, i) => ...)]. *)
Definition layoutSlot (shape : TreeShape) (count i : nat) : Gen SlotLayout :=
  let position := slotPosition shape count i in
  let rotation := slotRotation shape count i in
  (u1 <- Math_random ;;
   let explodedPosition :=
     THREE.multiplyScalar (THREE.normalize position) (10 + u1 * 8) in
   u2 <- Math_random ;;
   let explodedPosition :=
     THREE.mkVector3 (THREE.x explodedPosition)
       (THREE.y explodedPosition + (u2 - 0.5) * 10)
       (THREE.z explodedPosition) in
   ret (mkSlotLayout position explodedPosition rotation))%gen.

Definition layout (photos : list PhotoData) (shape : TreeShape)
  : Gen (list SlotLayout) :=
  let count := layoutCount photos in
  for_loop count 0
    (fun i acc => (s <- layoutSlot shape count i ;; ret (acc ++ [s]))%gen) [].

End Layout.

End TreeTsx.

(** ** The revision of [src/unnamed/part_000] *)

Module Part000.

(** [getShapeRadiusAtY] (lines 979-1006). *)
Definition getShapeRadiusAtY (y : R) (shape : TreeShape) : R :=
  match shape with
  | stool =>
      let t := (y + 7) / 14 in
      let tClamped := Rmax 0 (Rmin 1 t) in
      6.5 * (1 - tClamped) + 5.0 * tClamped
  | tree | real_tree | diamond | twin_towers => coneRadiusAtY y
  | snowman => snowmanRadiusAtY y
  | santa => santaRadiusAtY y
  | reindeer => if Rlt_dec y (-2) then 5.0 else if Rlt_dec y 4 then 4.5 else 4.5
  end.

Definition isHighDensity (shape : TreeShape) : bool :=
  (TreeShape_eqb shape real_tree || TreeShape_eqb shape diamond
   || TreeShape_eqb shape tree || TreeShape_eqb shape snowman
   || TreeShape_eqb shape reindeer)%bool.

(** The length of the particle buffers (lines 1051-1066). *)
Definition effectiveLeafCount (treeStyle : TreeStyle) (shape : TreeShape) : nat :=
  let effectiveLeafCount := if isHighDensity shape then 10000%nat else leafCount treeStyle in
  let effectiveLeafCount :=
    if TreeShape_eqb shape diamond then 8000%nat else effectiveLeafCount in
  let effectiveLeafCount :=
    if TreeShape_eqb shape stool then 0%nat else effectiveLeafCount in
  effectiveLeafCount.

Section ShapePoints.

Variable hslHexString : R -> string.

(** The samplers of the cherry tree, the snowman, Santa and the reindeer
    team, which no property below looks into. *)
Variable sampleFigure : TreeShape -> Gen Sample.

Variable foliageColor : string.
Variable treeStyle : TreeStyle.
Variable shape : TreeShape.

Definition asBlocks : bool :=
  (match treeStyle with geometric => true | _ => false end && negb (isHighDensity shape)
   && negb (TreeShape_eqb shape stool))%bool.

(** The body of [for (let i = 0; i < effectiveLeafCount; i++)]. *)
Definition pointStep (_ : nat) (acc : ShapePoints) : Gen ShapePoints :=
  (s <- match shape with
        | stool => ret (mkSample (THREE.mkVector3 0 0 0) foliageColor)
        | tree | twin_towers => sampleTree hslHexString foliageColor
        | diamond => sampleDiamond
        | _ => sampleFigure shape
        end ;;
   storeSample shape foliageColor asBlocks s acc)%gen.

Definition shapePoints : Gen ShapePoints :=
  for_loop (effectiveLeafCount treeStyle shape) 0 pointStep (mkShapePoints [] []).

End ShapePoints.

(** The photo layout (lines 1535-1581). *)

Definition layoutCount (photos : list PhotoData) : nat :=
  if (0 <? List.length photos)%nat then List.length photos else 24%nat.

Definition goldenAngle : R := PI * (3 - sqrt 5).

(** The height and the base radius of slot [i] of [count]; the stool's
    slots follow its ribbon. *)
Definition slot_h (shape : TreeShape) (count i : nat) : R :=
  let t := INR i / INR count in
  match shape with
  | stool => -8 + t * 16
  | _ => (t * 14) - 7
  end.

Definition slot_rBase (shape : TreeShape) (count i : nat) : R :=
  let h := slot_h shape count i in
  match shape with
  | stool =>
      let ribbonT := (h - (-10)) / 19.5 in
      let ribbonR := 9.5 - (ribbonT * 6.0) in
      ribbonR + 0.5
  | _ => getShapeRadiusAtY h shape
  end.

(** The assembled position of slot [i] of [count]. *)
Definition slotPosition (shape : TreeShape) (count i : nat) : THREE.Vector3 :=
  let r := slot_rBase shape count i + 0.8 in
  let theta := INR i * goldenAngle * 10 in
  THREE.mkVector3 (r * cos theta) (slot_h shape count i) (r * sin theta).

Section Layout.

(** The orientation of a [THREE.Object3D] is computed by three.js:
    [lookAt] from the position and the target, [rotateY] on the
    quaternion, and the Euler angles [rotation] read back from it. *)
Variable Quaternion : Type.
Variable Object3D_lookAt : THREE.Vector3 -> THREE.Vector3 -> Quaternion.
Variable Object3D_rotateY : Quaternion -> R -> Quaternion.
Variable Object3D_rotation : Quaternion -> THREE.Euler.

Definition slotRotation (shape : TreeShape) (count i : nat) : THREE.Euler :=
  let position := slotPosition shape count i in
  let dummy := Object3D_lookAt position (THREE.mkVector3 0 (THREE.y position) 0) in
  let dummy := Object3D_rotateY dummy PI in
  Object3D_rotation dummy.

(** The callback of [Array.from({ length: count }).map((_, i) => ...)]. *)
Definition layoutSlot (shape : TreeShape) (count i : nat) : Gen SlotLayout :=
  let position := slotPosition shape count i in
  let rotation := slotRotation shape count i in
  (u1 <- Math_random ;;
   let explodedPosition :=
     THREE.multiplyScalar (THREE.normalize position) (10 + u1 * 8) in
   u2 <- Math_random ;;
   let explodedPosition :=
     THREE.mkVector3 (THREE.x explodedPosition)
       (THREE.y explodedPosition + (u2 - 0.5) * 10)
       (THREE.z explodedPosition) in
   ret (mkSlotLayout position explodedPosition rotation))%gen.

Definition layout (photos : list PhotoData) (shape : TreeShape)
  : Gen (list SlotLayout) :=
  let count := layoutCount photos in
  for_loop count 0
    (fun i acc => (s <- layoutSlot shape count i ;; ret (acc ++ [s]))%gen) [].

End Layout.

End Part000.

(** * The rest of the [Tree] component *)

(** ** String lights ([src/components/Tree.tsx], lines 939-972;
    [src/unnamed/part_000], lines 1428-1476) *)

(** The colour pushed for one light: a palette entry, its channels
    multiplied by 5, or the gold [(1.0, 0.8, 0.0)] of the stool's lights. *)
Inductive LightColor : Type :=
  | PaletteLight (c : option string)
  | GoldLight.

Record StringLights : Type := mkStringLights {
  light_points : list THREE.Vector3;
  light_colors : list LightColor
}.

Definition noLights : StringLights := mkStringLights [] [].

Definition lightPalette : list string :=
  ["#FFD700"; "#ff0000"; "#00ff00"; "#00ffff"]%string.

Definition light_loops : nat := 15.
Definition light_pointsPerLoop : nat := 60.
Definition light_total : nat := (light_loops * light_pointsPerLoop)%nat.

Definition light_t (i : nat) : R := INR i / INR light_total.
Definition light_h (i : nat) : R := (light_t i * 18) - 9.
Definition light_angle (i : nat) : R := light_t i * INR light_loops * PI * 2.

(** The body of the loop over the lights of a standard shape; [rBase] is
    the radius profile at [light_h i], and a light on a profile of at most
    0.1 is skipped by [continue]. *)
Definition lightStepAt (rBase : R) (i : nat) (acc : StringLights)
  : Gen StringLights :=
  if Rle_dec rBase 0.1 then ret acc
  else
    let r := rBase + 0.2 in
    let angle := light_angle i in
    (u <- Math_random ;;
     ret (mkStringLights
            (light_points acc ++
             [THREE.mkVector3 (cos angle * r) (light_h i) (sin angle * r)])
            (light_colors acc ++ [PaletteLight (pick lightPalette u)])))%gen.

Definition TreeTsx_lightStep (shape : TreeShape) (i : nat) (acc : StringLights)
  : Gen StringLights :=
  lightStepAt (TreeTsx.getShapeRadiusAtY (light_h i) shape) i acc.

Definition TreeTsx_stringLights (shape : TreeShape) : Gen StringLights :=
  match shape with
  | diamond => ret noLights
  | _ => for_loop light_total 0 (TreeTsx_lightStep shape) noLights
  end.

Definition Part000_lightStep (shape : TreeShape) (i : nat) (acc : StringLights)
  : Gen StringLights :=
  lightStepAt (Part000.getShapeRadiusAtY (light_h i) shape) i acc.

(** The lights of the stool: 12 loops of 10 gold lights on a weaving path. *)
Definition stoolLightStep (i : nat) (acc : StringLights) : Gen StringLights :=
  let loops := 12 in
  let total := 120 in
  let t := INR i / total in
  let h := -9.0 + t * 18 in
  let angle := t * loops * PI * 2 in
  let rBase := 6.2 - (t * 1.2) in
  let weave := sin (angle * 5) * 0.2 in
  let r := rBase + weave + 0.2 in
  ret (mkStringLights
         (light_points acc ++ [THREE.mkVector3 (r * cos angle) h (r * sin angle)])
         (light_colors acc ++ [GoldLight])).

Definition Part000_stringLights (shape : TreeShape) : Gen StringLights :=
  match shape with
  | diamond => ret noLights
  | stool => for_loop 120 0 stoolLightStep noLights
  | _ => for_loop light_total 0 (Part000_lightStep shape) noLights
  end.

(** ** Photo items (lines 1062-1071) *)

(** [photos.map((photo, i) => ({ ...(layout[i] || layout[0]), ref, photo }))]:
    the layout fields of each item, [None] when [layout] is empty, and its
    photo; the ref is a fresh one, not yet mounted. *)
Definition photoItemsOf (photos : list PhotoData) (layout : list SlotLayout)
  : list (option SlotLayout * PhotoData) :=
  map (fun ip : nat * PhotoData =>
         let (i, photo) := ip in
         (match nth_error layout i with
          | Some itemLayout => Some itemLayout
          | None => nth_error layout 0
          end, photo))
      (combine (seq 0 (List.length photos)) photos).

(** ** The stack of stools ([src/unnamed/part_000], lines 190-266) *)









(** ** The ribbon of the stool and its gems ([src/unnamed/part_000],
    lines 284-325 and 366-408) *)

Record RibbonItem : Type := mkRibbonItem {
  ribbon_pos : THREE.Vector3;
  ribbon_rot : THREE.Vector3;
  ribbon_scale : R;
  ribbon_color : string
}.

Definition ribbonCount : nat := 8000.

Definition ribbonStep (i : nat) (items : list RibbonItem) : Gen (list RibbonItem) :=
  let t := INR i / INR ribbonCount in
  let hCenter := -10.0 + t * 19.5 in
  let turns := 6 in
  let theta := t * turns * PI * 2 in
  let rCenter := 9.5 - (t * 6.0) in
  let wobbleR := sin (theta * 2.5) * 0.3 in
  let wobbleY := cos (theta * 2.5) * 0.4 in
  (u1 <- Math_random ;;
   let widthSpread := (u1 - 0.5) * 1.7 in
   u2 <- Math_random ;;
   let thickSpread := (u2 - 0.5) * 0.6 in
   let r := rCenter + wobbleR + thickSpread in
   let h := hCenter + wobbleY + widthSpread in
   let x := r * cos theta in
   let z := r * sin theta in
   u3 <- Math_random ;;
   u4 <- Math_random ;;
   u5 <- Math_random ;;
   let rot := THREE.mkVector3 (u3 * PI) (u4 * PI) (u5 * PI) in
   noise <- Math_random ;;
   let colorHex :=
     (if Rgt_dec noise 0.6 then "#15803d"
      else if Rgt_dec noise 0.3 then "#16a34a"
      else "#22c55e")%string in
   u7 <- Math_random ;;
   ret (items ++
        [mkRibbonItem (THREE.mkVector3 x h z) rot (0.15 + u7 * 0.25) colorHex]))%gen.

Definition ribbonData : Gen (list RibbonItem) :=
  for_loop ribbonCount 0 ribbonStep [].

Inductive GemKind : Type := gem_cube | gem_ico.

(** The body of the loop of [generateData(count, type)]. *)
Definition stoolGemStep (type : GemKind) (_ : nat) (items : list RibbonItem)
  : Gen (list RibbonItem) :=
  (t <- Math_random ;;
   let hCenter := -10.0 + t * 19.5 in
   let turns := 6 in
   let theta := t * turns * PI * 2 in
   let rCenter := 9.5 - (t * 6.0) in
   let wobbleR := sin (theta * 2.5) * 0.3 in
   let wobbleY := cos (theta * 2.5) * 0.4 in
   u1 <- Math_random ;;
   let widthSpread := (u1 - 0.5) * 1.4 in
   u2 <- Math_random ;;
   let thickSpread := (u2 - 0.5) * 0.8 in
   let r := rCenter + wobbleR + thickSpread in
   let h := hCenter + wobbleY + widthSpread in
   let x := r * cos theta in
   let z := r * sin theta in
   color <- match type with
            | gem_ico =>
                u <- Math_random ;;
                ret (if Rgt_dec u 0.3 then "#e9d5ff" else "#ffffff")%string
            | gem_cube => ret "#ffffff"%string
            end ;;
   u3 <- Math_random ;;
   u4 <- Math_random ;;
   u5 <- Math_random ;;
   u6 <- Math_random ;;
   ret (items ++
        [mkRibbonItem (THREE.mkVector3 x h z)
           (THREE.mkVector3 (u3 * PI) (u4 * PI) (u5 * PI))
           (0.3 + u6 * 0.2) color]))%gen.

Definition generateData (count : nat) (type : GemKind) : Gen (list RibbonItem) :=
  for_loop count 0 (stoolGemStep type) [].

(** * The rest of the application ([src/unnamed/part_002]) *)

From Stdlib Require Import DecimalString DecimalNat.

Definition AppMode_eqb (a b : AppMode) : bool :=
  match a, b with
  | mode_tree, mode_tree | mode_focus, mode_focus | mode_album, mode_album => true
  | _, _ => false
  end.

(** ** Shapes and colours (lines 710-714 and 1042-1053) *)

(** The updater of [toggleTreeShape]. *)
Definition toggleTreeShape (prev : TreeShape) : TreeShape :=
  match prev with
  | tree => snowman
  | snowman => reindeer
  | reindeer => santa
  | santa => real_tree
  | real_tree => diamond
  | diamond => twin_towers
  | twin_towers => stool
  | stool => tree
  end.

Definition handleDoubleClick (st : AppState) : list Action :=
  if AppMode_eqb (mode st) mode_tree then [SetTreeColorIndex_next] else [].

(** ** Wheel and touch (lines 838-884) *)

(** The refs of the pointer handlers: the scroll accumulator, whether its
    200 ms reset is pending, and the height at which a touch started. *)
Record InputRefs : Type := mkInputRefs {
  scrollAccumulator : R;
  scrollTimeout : bool;
  touchStartY : option R
}.

(** [handleWheel(e)], with [deltaY] the scroll of the event. *)
Definition handleWheel (st : AppState) (refs : InputRefs) (deltaY : R)
  : list Action * InputRefs :=
  if negb (AppMode_eqb (mode st) mode_tree) then ([], refs)
  else
    let acc := scrollAccumulator refs + deltaY in
    let threshold := 500 in
    if (if Rlt_dec acc (- threshold) then negb (isExploded st) else false) then
      ([SetIsExploded true], mkInputRefs 0 true (touchStartY refs))
    else if (if Rgt_dec acc threshold then isExploded st else false) then
      ([SetIsExploded false], mkInputRefs 0 true (touchStartY refs))
    else ([], mkInputRefs acc true (touchStartY refs)).

(** The callback of the 200 ms timeout. *)
Definition scrollTimeoutFired (refs : InputRefs) : InputRefs :=
  mkInputRefs 0 false (touchStartY refs).

Definition handleTouchStart (refs : InputRefs) (clientY : R) : InputRefs :=
  mkInputRefs (scrollAccumulator refs) (scrollTimeout refs) (Some clientY).

Definition handleTouchMove (st : AppState) (refs : InputRefs) (currentY : R)
  : list Action * InputRefs :=
  match touchStartY refs with
  | None => ([], refs)
  | Some start =>
      if negb (AppMode_eqb (mode st) mode_tree) then ([], refs)
      else
        let diff := start - currentY in
        let swipeThreshold := 150 in
        if (if Rgt_dec diff swipeThreshold then negb (isExploded st) else false) then
          ([SetIsExploded true],
           mkInputRefs (scrollAccumulator refs) (scrollTimeout refs) None)
        else if (if Rlt_dec diff (- swipeThreshold) then isExploded st else false) then
          ([SetIsExploded false],
           mkInputRefs (scrollAccumulator refs) (scrollTimeout refs) None)
        else ([], refs)
  end.

(** ** The album (lines 59-67, 687 and 886-1040) *)

Definition transparentGif : string :=
  "data:image/gif;base64,R0lGODlhAQABAIAAAAAAAP///yH5BAEAAAAALAAAAAABAAEAAAIBRAA7".



Definition emptySlotsCount (ps : list PhotoData) : nat :=
  List.length (filter isEmpty ps).

(** The state of the next render after [handleDeletePhoto(id)], the file
    store apart. *)
Definition handleDeletePhoto (st : AppState) (pid : string) : AppState :=
  let photos' :=
    map (fun p =>
           if String.eqb (id p) pid
           then mkPhotoData (id p) transparentGif (version p + 1) true
           else p) (photos st) in
  let deletesActive :=
    match activePhoto st with
    | Some a => String.eqb (id a) pid
    | None => false
    end in
  mkAppState photos'
    (if deletesActive then mode_tree else mode st)
    (if deletesActive then None else activePhoto st)
    (isExploded st) (isTwinkling st) (treeColorIndex st) (gestureX st)
    (lastGesture st) (lastColorChange st).

(** The state after [handleReplacePhoto(id, file)]; [newUrl] is the object
    URL created for the stored blob. *)
Definition handleReplacePhoto (st : AppState) (pid : string) (newUrl : string)
  : AppState :=
  let photos' :=
    map (fun p =>
           if String.eqb (id p) pid
           then mkPhotoData (id p) newUrl (version p + 1) false
           else p) (photos st) in
  let active' :=
    match activePhoto st with
    | Some a =>
        if String.eqb (id a) pid
        then Some (mkPhotoData (id a) newUrl (version a + 1) false)
        else Some a
    | None => None
    end in
  mkAppState photos' (mode st) active'
    (isExploded st) (isTwinkling st) (treeColorIndex st) (gestureX st)
    (lastGesture st) (lastColorChange st).

(** The photos after [handleSingleSlotUpload]: [hasFile] tells whether the
    input holds a file, [targetPhotoId] is the slot that asked for it (an
    empty string is falsy) and [url] the object URL of the stored blob. *)
Definition handleSingleSlotUpload (hasFile : bool) (targetPhotoId : option string)
  (url : string) (ps : list PhotoData) : list PhotoData :=
  match targetPhotoId with
  | Some target =>
      if (hasFile && negb (String.eqb target ""))%bool then
        map (fun p =>
               if String.eqb (id p) target
               then mkPhotoData (id p) url (version p + 1) false
               else p) ps
      else ps
  | None => ps
  end.

Section BulkUpload.

Variable File : Type.

(** The object URL of the blob stored for a slot: of the compressed image,
    or of the original file when compression fails. *)
Variable storedUrl : PhotoData -> File -> string.

(** The loop over [photosClone], from the slot at the head of [ps] on. *)
Fixpoint bulkFill (files : list File) (ps : list PhotoData) (fileIndex : nat)
  : list PhotoData :=
  match ps with
  | [] => []
  | p :: rest =>
      if (isEmpty p && (fileIndex <? List.length files)%nat)%bool then
        match nth_error files fileIndex with
        | Some file =>
            mkPhotoData (id p) (storedUrl p file) (version p + 1) false
            :: bulkFill files rest (S fileIndex)
        | None => p :: bulkFill files rest (S fileIndex)
        end
      else p :: bulkFill files rest fileIndex
  end.

Inductive BulkOutcome : Type :=
  | BulkIgnored
  | BulkNoSlot
  | BulkStored (truncated : bool) (newPhotos : list PhotoData).

(** [handleBulkUpload(e)]; [files] is [e.target.files], [None] when null.
    The two [alert]s are [BulkNoSlot] and the flag of [BulkStored]. *)
Definition handleBulkUpload (ps : list PhotoData) (files : option (list File))
  : BulkOutcome :=
  match files with
  | None => BulkIgnored
  | Some files =>
      let emptySlots := filter isEmpty ps in
      let maxAllowed := List.length emptySlots in
      if (List.length files =? 0)%nat then BulkIgnored
      else if (maxAllowed =? 0)%nat then BulkNoSlot
      else if (maxAllowed <? List.length files)%nat
      then BulkStored true (bulkFill (firstn maxAllowed files) ps 0)
      else BulkStored false (bulkFill files ps 0)
  end.

End BulkUpload.

(** What [handlePhotoClick] does: nothing, open the file input for a slot,
    or show a photo. *)
Inductive ClickOutcome : Type :=
  | ClickIgnored
  | ClickUpload (targetPhotoId : string)
  | ClickFocus (acts : list Action).

Definition handlePhotoClick (isRecording : bool) (st : AppState) (photo : PhotoData)
  : ClickOutcome :=
  if isRecording then ClickIgnored
  else if AppMode_eqb (mode st) mode_tree then
    if isEmpty photo then ClickUpload (id photo)
    else ClickFocus [SetActivePhoto (Some photo); SetMode mode_focus]
  else ClickIgnored.

Definition handleCloseFocus (st : AppState) : list Action :=
  if AppMode_eqb (mode st) mode_focus
  then [SetMode mode_tree; SetActivePhoto None] else [].

(** ** Persistence of the album (lines 563-628) *)




Section Hydration.

Variable Blob : Type.
Variable getFile : string -> option Blob.
Variable createObjectURL : Blob -> string.



End Hydration.

(** ** The image sizes of [compressImage] (lines 19-33) *)


(** ** The gesture manager (lines 279-303) and [detectHands]
    ([src/unnamed/part_003], lines 34-76) *)

(** One frame of [GestureManager]: the new [lastUpdate] and the call of
    [onGesture] it makes, if any.  [result] is what [detectHands] returns
    when it is called. *)
Definition gestureManagerFrame (isCameraReady videoPresent : bool)
  (lastUpdate now : R) (result : option (R * GestureType))
  : R * option (GestureType * R) :=
  if (negb isCameraReady || negb videoPresent)%bool then (lastUpdate, None)
  else if Rlt_dec (now - lastUpdate) 0.1 then (lastUpdate, None)
  else
    (now,
     Some (match result with
           | Some (x, gesture) => (gesture, x)
           | None => (None_, 0.5)
           end)).

(** The frames of a run, oldest first: the times at which [onGesture] is
    called, from [lastUpdate] on. *)
Fixpoint gestureCallTimes (lastUpdate : R)
  (frames : list (R * option (R * GestureType))) : list R :=
  match frames with
  | [] => []
  | (now, result) :: rest =>
      match gestureManagerFrame true true lastUpdate now result with
      | (lastUpdate', Some _) => now :: gestureCallTimes lastUpdate' rest
      | (lastUpdate', None) => gestureCallTimes lastUpdate' rest
      end
  end.

(** The category names of the recogniser mapped to [GestureType]. *)
Definition gestureOfCategory (categoryName : string) : GestureType :=
  if String.eqb categoryName "Open_Palm" then Open_Palm
  else if String.eqb categoryName "Victory" then Victory
  else if String.eqb categoryName "Closed_Fist" then Closed_Fist
  else None_.

(** What the recogniser returns: the best category of each detected hand
    and, for the first hand, the [x] of its landmarks by index. *)
Record Recognition : Type := mkRecognition {
  gestures : list string;
  landmarks : option (nat -> R)
}.

(** [detectHands(video)]; [recognized] is [None] when the recogniser
    throws. *)
Definition detectHands (recognizerReady : bool) (videoWidth videoHeight : nat)
  (recognized : option Recognition) : option (R * GestureType) :=
  if negb recognizerReady then None
  else if ((videoWidth =? 0) || (videoHeight =? 0))%nat%bool then None
  else
    match recognized with
    | None => None
    | Some result =>
        match gestures result with
        | [] => None
        | categoryName :: _ =>
            let x :=
              match landmarks result with
              | Some lm => 1 - (lm 0%nat + lm 9%nat) / 2
              | None => 0
              end in
            Some (x, gestureOfCategory categoryName)
        end
    end.

(** * Vocabulary of the properties *)

(** ** Candidates of the rejection sampler *)

(** The [j]-th candidate drawn from cursor [k], before the scaling. *)
Definition candidate (rnd : Random) (k j : nat) : R * R * R :=
  (rnd (k + 3 * j)%nat * 2 - 1,
   rnd (k + 3 * j + 1)%nat * 2 - 1,
   rnd (k + 3 * j + 2)%nat * 2 - 1).

Definition accepted (c : R * R * R) : Prop :=
  let '(u, v, w) := c in u * u + v * v + w * w < 1.

Definition placed (cy r : R) (c : R * R * R) : THREE.Vector3 :=
  let '(u, v, w) := c in THREE.mkVector3 (u * r) (v * r + cy) (w * r).

(** ** The scatter of a photo slot *)

(** The factor and the vertical offset drawn for slot [i] by a layout that
    starts reading the source at cursor [k]. *)
Definition scatterFactor (rnd : Random) (k i : nat) : R :=
  10 + rnd (2 * i + k)%nat * 8.

Definition verticalJitter (rnd : Random) (k i : nat) : R :=
  (rnd (S (2 * i + k)) - 0.5) * 10.

(** The exploded position before the vertical offset is added. *)
Definition preJitter (assembled : THREE.Vector3) (factor : R) : THREE.Vector3 :=
  THREE.multiplyScalar (THREE.normalize assembled) factor.

(** The distance of a point from the vertical axis. *)
Definition horizontalRadius (p : THREE.Vector3) : R :=
  sqrt (THREE.x p * THREE.x p + THREE.z p * THREE.z p).

(** A point lies outside the silhouette a radius profile describes when,
    at its height, it is farther from the axis than the profile. *)
Definition outsideSilhouette (radius : R -> TreeShape -> R) (shape : TreeShape)
  (p : THREE.Vector3) : Prop :=
  radius (THREE.y p) shape < horizontalRadius p.

(** What C10 says of one slot, for the factor [f] and the offset [j] drawn
    for it: its exploded position is the unit vector of its assembled
    position scaled by [f], plus [j] on the vertical axis; before that offset
    it lies at distance [f] from the origin and outside the silhouette. *)
Definition scatteredSlot (radius : R -> TreeShape -> R) (shape : TreeShape)
  (f j : R) (slot : SlotLayout) : Prop :=
  THREE.length (THREE.normalize (initialPos slot)) = 1 /\
  explodedPos slot =
    THREE.add (preJitter (initialPos slot) f) (THREE.mkVector3 0 j 0) /\
  THREE.length (preJitter (initialPos slot) f) = f /\
  outsideSilhouette radius shape (preJitter (initialPos slot) f).

(** ** The draped garland, in the words of the specification *)

Definition drape_t (i : nat) : R := INR i / 1200.
Definition drape_angle (i : nat) : R := drape_t i * 6 * (2 * PI).
Definition drape_coneRadius (h : R) : R := Rmax 0.2 (9 * (1 - (h + 9) / 18)).
Definition drape_hBase (i : nat) : R := 9 - drape_t i * 18.
Definition drape_phase (i : nat) : R := (sin (drape_angle i * 12) + 1) / 2.
Definition drape_radial (i : nat) : R :=
  drape_coneRadius (drape_hBase i) + 0.2 + (1 - drape_phase i) * 0.5.
Definition drape_height (i : nat) : R :=
  drape_hBase i - (1 - drape_phase i) * 0.8.

(** The pearl the code pushes for index [i] of strand [s] when its four
    draws start at cursor [k]. *)
Definition pearlAt (s i : nat) (rnd : Random) (k : nat) : Pearl :=
  mkPearl
    (THREE.mkVector3
       (pearl_r s i * cos (pearl_angle s i) + (rnd k - 0.5) * 0.05)
       (pearl_h s i + (rnd (S k) - 0.5) * 0.05)
       (pearl_r s i * sin (pearl_angle s i) + (rnd (S (S k)) - 0.5) * 0.05))
    (0.1 + rnd (S (S (S k))) * 0.1).

(** ** The blended radius of a tree particle *)

(** The bound [rMax] and the radius [r] of the particle whose draws start at
    cursor [c]: the height draw, the mode draw, the radius draw. *)
Definition blend_rMax (rnd : Random) (c : nat) : R :=
  radiusBottom * (1 - (rnd c * height) / height).

Definition blendedRadius (rnd : Random) (c : nat) : R :=
  if Rlt_dec (rnd (S c)) 0.4
  then blend_rMax rnd c * rnd (S (S c)) * 0.5
  else blend_rMax rnd c * sqrt (rnd (S (S c))).

(** What C5 says of one particle of the tree, for a profile [radius]. *)
Definition treeParticle (radius : R -> TreeShape -> R) (rnd : Random)
  (p : Particle) : Prop :=
  let pos := particle_pos p in
  -9 <= THREE.y pos <= 9 /\
  horizontalRadius pos <= radius (THREE.y pos) tree /\
  exists c : nat,
    THREE.y pos = rnd c * height - height / 2 /\
    horizontalRadius pos = blendedRadius rnd c /\
    (rnd (S c) < 0.4 -> horizontalRadius pos <= 0.5 * blend_rMax rnd c) /\
    horizontalRadius pos <= blend_rMax rnd c.

(** ** The distance of a photo group to its target *)

Definition itemTarget (isExploded : bool) (item : PhotoItem) : THREE.Vector3 :=
  if isExploded then explodedPos (item_layout item)
  else initialPos (item_layout item).

(** The distance from the live position of a mounted group to its target. *)
Definition distanceToTarget (isExploded : bool) (item : PhotoItem) : option R :=
  match item_ref item with
  | Some cur => Some (THREE.distanceTo (position cur) (itemTarget isExploded item))
  | None => None
  end.

(** A scene of one mounted photo group at [start], assembled at [target]. *)
Definition oneItemScene (start target : THREE.Vector3) : Scene :=
  mkScene (Some 0) (Some (THREE.mkVector3 1 1 1))
    [mkPhotoItem
       (mkSlotLayout target (THREE.mkVector3 0 10 0) (THREE.mkEuler 0 0 0))
       (Some (mkObject3D start (THREE.mkVector3 1 1 1) (THREE.mkEuler 0 0 0)))
       (mkPhotoData "photo" "blob:photo" 0 false)].

(** ** Vocabulary of the further properties of the generators *)

(** A block of the geometric style is scattered along the direction of its
    own position, to a distance of [[15, 25)]. *)
Definition scatteredBlock (b : GeoItem) : Prop :=
  exists f : R,
    15 <= f < 25 /\
    geo_explodedPos b = THREE.multiplyScalar (THREE.normalize (geo_initialPos b)) f /\
    (0 < THREE.lengthSq (geo_initialPos b) -> THREE.length (geo_explodedPos b) = f).



(** A light of the string sits 0.2 outside the radius profile, at a height
    of [[-9, 9)] where the profile exceeds 0.1. *)
Definition litAt (radius : R -> TreeShape -> R) (shape : TreeShape)
  (p : THREE.Vector3) : Prop :=
  -9 <= THREE.y p < 9 /\
  0.1 < radius (THREE.y p) shape /\
  horizontalRadius p = radius (THREE.y p) shape + 0.2.

Definition paletteLight (c : LightColor) : Prop :=
  exists s : string, c = PaletteLight (Some s) /\ In s lightPalette.

(** The string of a standard shape: as many colours as points, at most 900,
    every point placed by [litAt] and every colour taken from the palette. *)
Definition lightString (radius : R -> TreeShape -> R) (shape : TreeShape)
  (l : StringLights) : Prop :=
  List.length (light_points l) = List.length (light_colors l) /\
  (List.length (light_points l) <= 900)%nat /\
  Forall (litAt radius shape) (light_points l) /\
  Forall paletteLight (light_colors l).

(** A gem of the crystal: within 10% of the surface of the cone. *)
Definition gemPlaced (g : Gem) : Prop :=
  let p := gem_position g in
  -9 <= THREE.y p < 9 /\
  0.9 * coneRadiusAtY (THREE.y p) <= horizontalRadius p
    <= 1.1 * coneRadiusAtY (THREE.y p) /\
  0.5 <= gem_scale g < 0.9 /\
  0 <= THREE.x (gem_rotation g) < PI /\
  0 <= THREE.y (gem_rotation g) < PI /\
  0 <= THREE.z (gem_rotation g) < PI.

(** A bauble or a gift hangs inside the cone, at nine tenths of the radius
    the particles reach at its height. *)
Definition hungInCone (p : THREE.Vector3) : Prop :=
  -9 <= THREE.y p < 9 /\
  horizontalRadius p = 0.9 * (radiusBottom * (1 - (THREE.y p + 9) / 18)) /\
  horizontalRadius p <= coneRadiusAtY (THREE.y p).

Definition baublePlaced (isSilver : bool) (b : Bauble) : Prop :=
  hungInCone (bauble_position b) /\
  0.2 <= bauble_scale b < 0.5 /\
  exists c : string, bauble_color b = Some c /\ In c (baublePalette isSilver).

Definition giftPlaced (g : Gift) : Prop :=
  hungInCone (gift_position g) /\
  0.2 <= gift_scale g < 0.5 /\
  exists c : string, gift_color g = Some c /\ In c giftPalette.

(** The position of flower [i] of the cherry tree. *)
Definition flowerPosition (i : nat) : THREE.Vector3 :=
  let goldenAngle := PI * (3 - sqrt 5) in
  let y := -7.5 + (INR i / (INR 24 - 1)) * 15 in
  let rBase := (radiusBottom * (1 - (y + 9) / 18)) + 1.0 in
  let r := rBase * 1.1 in
  let theta := INR i * goldenAngle * 3 in
  THREE.mkVector3 (r * cos theta) y (r * sin theta).

Definition flowerDressed (f : Flower) : Prop :=
  0.8 <= flower_scale f < 1.3 /\
  exists c : string, flower_color f = Some c /\ In c flowerPalette.

(** The radius of the stool's ribbon at height [h], as the photo layout of
    the stool computes it. *)
Definition ribbonRadiusAt (h : R) : R := 9.5 - ((h - (-10)) / 19.5) * 6.0.

(** A particle of the ribbon, or a gem in it, stays nearer to the axis than
    a photo frame at the same height. *)
Definition insidePhotoRing (p : THREE.Vector3) : Prop :=
  0 < horizontalRadius p /\
  horizontalRadius p < (ribbonRadiusAt (THREE.y p) + 0.5) + 0.8.

Definition ribbonGreens : list string := ["#15803d"; "#16a34a"; "#22c55e"]%string.



(** A slot [p] filled with the file [f]. *)
Definition filledSlot {File : Type} (storedUrl : PhotoData -> File -> string)
  (p : PhotoData) (f : File) : PhotoData :=
  mkPhotoData (id p) (storedUrl p f) (version p + 1) false.

(** What an upload of [files] may do to a slot [p]: leave it, or, when it is
    empty, fill it with one of the files. *)
Definition uploadedSlot {File : Type} (storedUrl : PhotoData -> File -> string)
  (files : list File) (p p' : PhotoData) : Prop :=
  (isEmpty p = false -> p' = p) /\
  (p' = p \/ exists f : File, isEmpty p = true /\ In f files /\ p' = filledSlot storedUrl p f).

(** The active photo has the id [pid]. *)
Definition isActive (st : AppState) (pid : string) : Prop :=
  match activePhoto st with
  | Some a => id a = pid
  | None => False
  end.


(** Call times at least a tenth of a second apart, the first one counted
    from [last]. *)
Fixpoint spaced (last : R) (times : list R) : Prop :=
  match times with
  | [] => True
  | t :: rest => last + 0.1 <= t /\ spaced t rest
  end.

(** The category name the recogniser gives to a gesture. *)
Definition categoryNameOf (g : GestureType) : string :=
  match g with
  | Open_Palm => "Open_Palm"
  | Victory => "Victory"
  | Closed_Fist => "Closed_Fist"
  | None_ => "None"
  end.

(** The fist is held and more than 300 ms have passed since the last
    change of colour. *)
Definition colorChangeDue (st : AppState) (now : Z) (gesture : GestureType) : bool :=
  (GestureType_eqb gesture Closed_Fist && (now - lastColorChange st >? 300)%Z)%bool.

(** * Properties *)

(** ** Real-number helpers *)

Lemma Rmax_0_nonneg (a : R) : 0 <= Rmax 0 a.
Proof. apply Rmax_l. Qed.

Lemma sqrt_sq_le (a b : R) : 0 <= b -> a <= b * b -> sqrt a <= b.
Proof.
  intros Hb Hab.
  destruct (Rle_dec a 0) as [Ha | Ha].
  - rewrite sqrt_neg_0 by exact Ha. exact Hb.
  - rewrite <- (sqrt_square b Hb). apply sqrt_le_1_alt. exact Hab.
Qed.

(** ** The random monad *)

Lemma bind_run {A B : Type} (m : Gen A) (f : A -> Gen B) (rnd : Random) (k : nat) :
  bind m f rnd k = f (fst (m rnd k)) rnd (snd (m rnd k)).
Proof. unfold bind. destruct (m rnd k); reflexivity. Qed.

(** ** C1: the radius profile *)

Lemma coneRadiusAtY_nonneg (y : R) : 0 <= coneRadiusAtY y.
Proof. apply Rmax_0_nonneg. Qed.

Lemma coneRadiusAtY_above (y : R) : 9 <= y -> coneRadiusAtY y = 0.
Proof. intros Hy. unfold coneRadiusAtY. apply Rmax_left. lra. Qed.

Lemma coneRadiusAtY_inside (y : R) : y <= 9 -> coneRadiusAtY y = 9 * (1 - (y + 9) / 18).
Proof. intros Hy. unfold coneRadiusAtY. apply Rmax_right. lra. Qed.

Lemma snowmanRadiusAtY_nonneg (y : R) : 0 <= snowmanRadiusAtY y.
Proof.
  unfold snowmanRadiusAtY.
  destruct (Rlt_dec y (-3)); [| destruct (Rlt_dec y 3)]; apply Rmax_0_nonneg.
Qed.

Lemma snowman_band_zero (c rho y : R) :
  rho * rho <= (y - c) * (y - c) ->
  Rmax 0 (sqrt (Rmax 0 (rho * rho - (y - c) * (y - c)))) = 0.
Proof.
  intros H. rewrite (Rmax_left 0 (rho * rho - _)) by lra.
  rewrite sqrt_0. apply Rmax_left. lra.
Qed.

Lemma snowmanRadiusAtY_outside (y : R) :
  y <= -10.5 \/ 7.5 <= y -> snowmanRadiusAtY y = 0.
Proof.
  intros H. unfold snowmanRadiusAtY.
  destruct (Rlt_dec y (-3)) as [H1 | H1]; [| destruct (Rlt_dec y 3) as [H2 | H2]]; cbv zeta.
  - apply snowman_band_zero. nra.
  - exfalso. lra.
  - apply snowman_band_zero. nra.
Qed.

Lemma santaRadiusAtY_bounds (y : R) : 3 <= santaRadiusAtY y <= 5.
Proof.
  unfold santaRadiusAtY.
  destruct (Rlt_dec y (-2)); [| destruct (Rlt_dec y 4)]; lra.
Qed.

Lemma TreeTsx_getShapeRadiusAtY_nonneg (y : R) (shape : TreeShape) :
  0 <= TreeTsx.getShapeRadiusAtY y shape.
Proof.
  destruct shape; cbn [TreeTsx.getShapeRadiusAtY];
    try apply coneRadiusAtY_nonneg; try apply snowmanRadiusAtY_nonneg.
  - destruct (Rlt_dec y (-2)); [| destruct (Rlt_dec y 4)]; lra.
  - pose proof (santaRadiusAtY_bounds y). lra.
  - lra.
Qed.

Lemma stool_clamp_range (y : R) : 0 <= Rmax 0 (Rmin 1 ((y + 7) / 14)) <= 1.
Proof. split; [apply Rmax_l |]. apply Rmax_lub; [lra | apply Rmin_l]. Qed.

Lemma Part000_getShapeRadiusAtY_nonneg (y : R) (shape : TreeShape) :
  0 <= Part000.getShapeRadiusAtY y shape.
Proof.
  destruct shape; cbn [Part000.getShapeRadiusAtY];
    try apply coneRadiusAtY_nonneg; try apply snowmanRadiusAtY_nonneg.
  - destruct (Rlt_dec y (-2)); [| destruct (Rlt_dec y 4)]; lra.
  - pose proof (santaRadiusAtY_bounds y). lra.
  - cbv zeta. pose proof (stool_clamp_range y). lra.
Qed.

(** C1, as the specification words it, fails: at height 20, where the
    specification's own example evaluates the tree, Santa's profile is 3 and
    the reindeer's is 4 (4.5 in the later revision), and twenty units below
    the origin the cone is 14.5 wide. *)
Lemma getShapeRadiusAtY_not_zero_outside :
  TreeTsx.getShapeRadiusAtY 20 santa = 3 /\
  Part000.getShapeRadiusAtY 20 santa = 3 /\
  TreeTsx.getShapeRadiusAtY 20 reindeer = 4 /\
  Part000.getShapeRadiusAtY 20 reindeer = 4.5 /\
  TreeTsx.getShapeRadiusAtY (-20) tree = 14.5 /\
  TreeTsx.getShapeRadiusAtY 20 santa <> 0.
Proof.
  assert (Hs : santaRadiusAtY 20 = 3).
  { unfold santaRadiusAtY.
    destruct (Rlt_dec 20 (-2)); [lra |]. destruct (Rlt_dec 20 4); [lra | reflexivity]. }
  repeat split; cbn [TreeTsx.getShapeRadiusAtY Part000.getShapeRadiusAtY].
  - exact Hs.
  - exact Hs.
  - destruct (Rlt_dec 20 (-2)); [lra |]. destruct (Rlt_dec 20 4); [lra | reflexivity].
  - destruct (Rlt_dec 20 (-2)); [lra |]. destruct (Rlt_dec 20 4); [lra | reflexivity].
  - unfold coneRadiusAtY. rewrite Rmax_right by lra. lra.
  - rewrite Hs. lra.
Qed.

(** C1 (amended): in both revisions the profile is never negative; it is 0
    for the four cone shapes from [y = 9] upwards (so [radiusAt(20, Tree) = 0])
    and for the snowman at and below [-10.5] and at and above [7.5]; Santa
    and the reindeer are step functions with no outer bound, at least 3 at
    every height. *)
Theorem getShapeRadiusAtY_profile (y : R) (shape : TreeShape) :
  0 <= TreeTsx.getShapeRadiusAtY y shape /\
  0 <= Part000.getShapeRadiusAtY y shape /\
  match shape with
  | tree | real_tree | diamond | twin_towers =>
      TreeTsx.getShapeRadiusAtY y shape = Part000.getShapeRadiusAtY y shape /\
      (9 <= y -> TreeTsx.getShapeRadiusAtY y shape = 0) /\
      TreeTsx.getShapeRadiusAtY 20 shape = 0
  | snowman =>
      TreeTsx.getShapeRadiusAtY y shape = Part000.getShapeRadiusAtY y shape /\
      (y <= -10.5 \/ 7.5 <= y -> TreeTsx.getShapeRadiusAtY y shape = 0)
  | santa | reindeer =>
      3 <= TreeTsx.getShapeRadiusAtY y shape /\
      3 <= Part000.getShapeRadiusAtY y shape
  | stool =>
      TreeTsx.getShapeRadiusAtY y shape = 0 /\
      5 <= Part000.getShapeRadiusAtY y shape <= 6.5
  end.
Proof.
  split; [apply TreeTsx_getShapeRadiusAtY_nonneg |].
  split; [apply Part000_getShapeRadiusAtY_nonneg |].
  destruct shape; cbn [TreeTsx.getShapeRadiusAtY Part000.getShapeRadiusAtY].
  1, 5, 6, 7:
    (split; [reflexivity |];
     split; [apply coneRadiusAtY_above | apply coneRadiusAtY_above; lra]).
  - split; [reflexivity | apply snowmanRadiusAtY_outside].
  - destruct (Rlt_dec y (-2)); [| destruct (Rlt_dec y 4)]; split; lra.
  - pose proof (santaRadiusAtY_bounds y). split; lra.
  - cbv zeta. pose proof (stool_clamp_range y). split; [reflexivity | lra].
Qed.

(** The profile of the tree at the specification's sample height. *)
Lemma getShapeRadiusAtY_profile_witness :
  TreeTsx.getShapeRadiusAtY 20 tree = 0.
Proof.
  destruct (getShapeRadiusAtY_profile 20 tree) as (_ & _ & _ & H & _).
  apply H. lra.
Defined.

(** ** C2: rejection sampling in a sphere *)

(** What the loop returns: the first accepted candidate, after as many
    draws as it took to reach it, or the centre once the budget is spent. *)
Lemma getRandomPointInSphere_loop_spec (cy r : R) (rnd : Random) :
  forall (safety k : nat),
    let res := getRandomPointInSphere_loop safety cy r rnd k in
    (exists j : nat,
        (j < safety)%nat /\ snd res = (k + 3 * (j + 1))%nat /\
        accepted (candidate rnd k j) /\
        (forall i : nat, (i < j)%nat -> ~ accepted (candidate rnd k i)) /\
        fst res = placed cy r (candidate rnd k j))
    \/ (snd res = (k + 3 * safety)%nat /\
        (forall i : nat, (i < safety)%nat -> ~ accepted (candidate rnd k i)) /\
        fst res = THREE.mkVector3 0 cy 0).
Proof.
  induction safety as [| n IH]; intros k res.
  - right. subst res. cbn. split; [lia |]. split; [intros i Hi; lia | reflexivity].
  - subst res. cbn [getRandomPointInSphere_loop].
    rewrite !bind_run. cbn [Math_random fst snd].
    destruct (Rlt_dec _ 1) as [Hacc | Hrej].
    + left. exists 0%nat. cbn [ret fst snd].
      split; [lia |]. split; [lia |].
      unfold candidate, accepted, placed.
      replace (k + 3 * 0)%nat with k by lia.
      replace (k + 1)%nat with (S k) by lia.
      replace (k + 2)%nat with (S (S k)) by lia.
      split; [exact Hacc |]. split; [intros i Hi; lia | reflexivity].
    + assert (Hrej0 : ~ accepted (candidate rnd k 0)).
      { unfold candidate, accepted.
        replace (k + 3 * 0)%nat with k by lia.
        replace (k + 1)%nat with (S k) by lia.
        replace (k + 2)%nat with (S (S k)) by lia. exact Hrej. }
      assert (Hshift : forall i, candidate rnd (S (S (S k))) i = candidate rnd k (S i)).
      { intros i. unfold candidate.
        replace (S (S (S k)) + 3 * i)%nat with (k + 3 * S i)%nat by lia. reflexivity. }
      destruct (IH (S (S (S k)))) as [(j & Hj & Hk & Ha & Hb & Hp) | (Hk & Hb & Hp)].
      * left. exists (S j). rewrite Hshift in Ha, Hp.
        split; [lia |]. split; [rewrite Hk; lia |]. split; [exact Ha |].
        split; [| exact Hp].
        intros [| i] Hi; [exact Hrej0 |]. rewrite <- Hshift. apply Hb. lia.
      * right. split; [rewrite Hk; lia |]. split; [| exact Hp].
        intros [| i] Hi; [exact Hrej0 |]. rewrite <- Hshift. apply Hb. lia.
Qed.

Lemma placed_within (cy r : R) (c : R * R * R) :
  0 <= r -> accepted c ->
  THREE.distanceTo (placed cy r c) (THREE.mkVector3 0 cy 0) <= r.
Proof.
  destruct c as [[u v] w]. unfold accepted, placed. intros Hr Hacc.
  unfold THREE.distanceTo, THREE.distanceToSquared. cbn [THREE.x THREE.y THREE.z].
  apply sqrt_sq_le; [exact Hr |].
  replace ((u * r - 0) * (u * r - 0) + (v * r + cy - cy) * (v * r + cy - cy)
           + (w * r - 0) * (w * r - 0))
    with ((u * u + v * v + w * w) * (r * r)) by ring.
  assert (0 <= r * r) by nra. nra.
Qed.

Lemma centre_within (cy r : R) :
  0 <= r ->
  THREE.distanceTo (THREE.mkVector3 0 cy 0) (THREE.mkVector3 0 cy 0) <= r.
Proof.
  intros Hr. unfold THREE.distanceTo, THREE.distanceToSquared.
  cbn [THREE.x THREE.y THREE.z].
  apply sqrt_sq_le; [exact Hr |]. nra.
Qed.

(** C2: for [r >= 0], whatever [Math.random()] yields,
    [getRandomPointInSphere(cy, r)] returns after [n <= 100] candidates
    (three draws each) a point at distance at most [r] from [(0, cy, 0)];
    when all 100 candidates are rejected that point is [(0, cy, 0)]
    itself. *)
Theorem getRandomPointInSphere_bounded (cy r : R) (rnd : Random) (k : nat) :
  0 <= r ->
  let res := getRandomPointInSphere cy r rnd k in
  (exists n : nat, (n <= 100)%nat /\ snd res = (k + 3 * n)%nat) /\
  THREE.distanceTo (fst res) (THREE.mkVector3 0 cy 0) <= r /\
  ((forall i : nat, (i < 100)%nat -> ~ accepted (candidate rnd k i)) ->
   fst res = THREE.mkVector3 0 cy 0).
Proof.
  intros Hr res. subst res. unfold getRandomPointInSphere.
  destruct (getRandomPointInSphere_loop_spec cy r rnd 100 k)
    as [(j & Hj & Hk & Ha & _ & Hp) | (Hk & Hb & Hp)].
  - split; [exists (j + 1)%nat; split; [lia | exact Hk] |].
    split; [rewrite Hp; apply placed_within; assumption |].
    intros Hall. exfalso. exact (Hall j Hj Ha).
  - split; [exists 100%nat; split; [lia | exact Hk] |].
    split; [rewrite Hp; apply centre_within; assumption |].
    intros _. exact Hp.
Qed.

(** A sphere of radius 2 centred at height 1, every draw being 1/2. *)
Lemma getRandomPointInSphere_bounded_witness :
  let res := getRandomPointInSphere 1 2 (fun _ => 1 / 2) 0%nat in
  (exists n : nat, (n <= 100)%nat /\ snd res = (0 + 3 * n)%nat) /\
  THREE.distanceTo (fst res) (THREE.mkVector3 0 1 0) <= 2 /\
  ((forall i : nat, (i < 100)%nat -> ~ accepted (candidate (fun _ => 1 / 2) 0%nat i)) ->
   fst res = THREE.mkVector3 0 1 0).
Proof.
  apply (getRandomPointInSphere_bounded 1 2 (fun _ => 1 / 2) 0%nat). lra.
Defined.

(** ** Loops that push one element per iteration *)

Lemma for_loop_push {A : Type} (body : nat -> list A -> Gen (list A))
  (g : nat -> Random -> nat -> A) (c : nat) :
  (forall i acc rnd k, body i acc rnd k = (acc ++ [g i rnd k], (c + k)%nat)) ->
  forall (n start : nat) (acc : list A) (rnd : Random) (k : nat),
    for_loop n start body acc rnd k =
    (acc ++ map (fun j => g (start + j)%nat rnd (c * j + k)%nat) (seq 0 n),
     (c * n + k)%nat).
Proof.
  intros Hbody. induction n as [| n IH]; intros start acc rnd k.
  - cbn [for_loop seq map]. unfold ret.
    rewrite app_nil_r, Nat.mul_0_r. reflexivity.
  - cbn [for_loop]. rewrite bind_run, Hbody. cbn [fst snd].
    rewrite IH. f_equal; [| lia].
    rewrite <- app_assoc. f_equal. cbn [seq map app].
    f_equal; [f_equal; lia |].
    rewrite <- seq_shift, map_map.
    apply map_ext. intros j. f_equal; lia.
Qed.

Lemma nth_error_map_seq {A : Type} (f : nat -> A) (n i : nat) :
  (i < n)%nat -> nth_error (map f (seq 0 n)) i = Some (f i).
Proof.
  intros Hi. rewrite nth_error_map, nth_error_seq.
  destruct (Nat.ltb_spec i n); [reflexivity | lia].
Qed.

(** An invariant of the loop state, for a fixed random source. *)
Lemma for_loop_invariant {St : Type} (body : nat -> St -> Gen St) (rnd : Random)
  (P : nat -> St -> Prop) :
  (forall i s k, P i s -> P (S i) (fst (body i s rnd k))) ->
  forall (n start : nat) (s : St) (k : nat),
    P start s -> P (start + n)%nat (fst (for_loop n start body s rnd k)).
Proof.
  intros Hstep. induction n as [| n IH]; intros start s k Hs.
  - cbn. rewrite Nat.add_0_r. exact Hs.
  - cbn [for_loop]. rewrite bind_run.
    replace (start + S n)%nat with (S start + n)%nat by lia.
    apply IH. apply Hstep. exact Hs.
Qed.

(** ** The photo layout, slot by slot *)

Section LayoutProperties.

Variable Quaternion : Type.
Variable lookAt : THREE.Vector3 -> THREE.Vector3 -> Quaternion.
Variable rotateY : Quaternion -> R -> Quaternion.
Variable rotationOf : Quaternion -> THREE.Euler.

Lemma TreeTsx_layout_run (photos : list PhotoData) (shape : TreeShape)
  (rnd : Random) (k : nat) :
  let count := TreeTsx.layoutCount photos in
  TreeTsx.layout Quaternion lookAt rotateY rotationOf photos shape rnd k =
  (map (fun i =>
          fst (TreeTsx.layoutSlot Quaternion lookAt rotateY rotationOf
                 shape count i rnd (2 * i + k)%nat))
       (seq 0 count),
   (2 * count + k)%nat).
Proof.
  intros count. unfold TreeTsx.layout. fold count.
  rewrite (for_loop_push _
             (fun i rnd k =>
                fst (TreeTsx.layoutSlot Quaternion lookAt rotateY rotationOf
                       shape count i rnd k)) 2); [reflexivity |].
  intros i acc rnd' k'. reflexivity.
Qed.

Lemma Part000_layout_run (photos : list PhotoData) (shape : TreeShape)
  (rnd : Random) (k : nat) :
  let count := Part000.layoutCount photos in
  Part000.layout Quaternion lookAt rotateY rotationOf photos shape rnd k =
  (map (fun i =>
          fst (Part000.layoutSlot Quaternion lookAt rotateY rotationOf
                 shape count i rnd (2 * i + k)%nat))
       (seq 0 count),
   (2 * count + k)%nat).
Proof.
  intros count. unfold Part000.layout. fold count.
  rewrite (for_loop_push _
             (fun i rnd k =>
                fst (Part000.layoutSlot Quaternion lookAt rotateY rotationOf
                       shape count i rnd k)) 2); [reflexivity |].
  intros i acc rnd' k'. reflexivity.
Qed.

Lemma layoutCount_cases (photos : list PhotoData) :
  TreeTsx.layoutCount photos =
    match photos with [] => 24%nat | _ :: _ => List.length photos end /\
  Part000.layoutCount photos =
    match photos with [] => 24%nat | _ :: _ => List.length photos end.
Proof. destruct photos; split; reflexivity. Qed.

(** C6: with no photo the layout has exactly 24 slots, and with
    [photoCount > 0] photos exactly [photoCount], in both revisions and
    whatever the shape and the random draws. *)
Theorem layout_count (photos : list PhotoData) (shape : TreeShape)
  (rnd : Random) (k : nat) :
  let expected :=
    match photos with [] => 24%nat | _ :: _ => List.length photos end in
  List.length
    (fst (TreeTsx.layout Quaternion lookAt rotateY rotationOf photos shape rnd k))
    = expected /\
  List.length
    (fst (Part000.layout Quaternion lookAt rotateY rotationOf photos shape rnd k))
    = expected.
Proof.
  intros expected. rewrite TreeTsx_layout_run, Part000_layout_run. cbn [fst].
  rewrite !length_map, !length_seq.
  destruct (layoutCount_cases photos) as [H1 H2]. rewrite H1, H2.
  split; reflexivity.
Qed.

(** C3: the assembled positions and rotations of the layout are those of
    [slotPosition] and [slotRotation], functions of the index, the slot
    count and the shape alone; two runs, on any two random sources read
    from any two cursors, agree on them at every index. *)
Theorem layout_assembled_deterministic (photos : list PhotoData)
  (shape : TreeShape) (rnd1 rnd2 : Random) (k1 k2 : nat) :
  let run1 := TreeTsx.layout Quaternion lookAt rotateY rotationOf photos shape in
  let run2 := Part000.layout Quaternion lookAt rotateY rotationOf photos shape in
  (map initialPos (fst (run1 rnd1 k1)) =
     map (TreeTsx.slotPosition shape (TreeTsx.layoutCount photos))
       (seq 0 (TreeTsx.layoutCount photos)) /\
   map initialRot (fst (run1 rnd1 k1)) =
     map (TreeTsx.slotRotation Quaternion lookAt rotateY rotationOf shape
            (TreeTsx.layoutCount photos))
       (seq 0 (TreeTsx.layoutCount photos)) /\
   map initialPos (fst (run1 rnd1 k1)) = map initialPos (fst (run1 rnd2 k2)) /\
   map initialRot (fst (run1 rnd1 k1)) = map initialRot (fst (run1 rnd2 k2))) /\
  (map initialPos (fst (run2 rnd1 k1)) =
     map (Part000.slotPosition shape (Part000.layoutCount photos))
       (seq 0 (Part000.layoutCount photos)) /\
   map initialRot (fst (run2 rnd1 k1)) =
     map (Part000.slotRotation Quaternion lookAt rotateY rotationOf shape
            (Part000.layoutCount photos))
       (seq 0 (Part000.layoutCount photos)) /\
   map initialPos (fst (run2 rnd1 k1)) = map initialPos (fst (run2 rnd2 k2)) /\
   map initialRot (fst (run2 rnd1 k1)) = map initialRot (fst (run2 rnd2 k2))).
Proof.
  intros run1 run2. subst run1 run2. cbv beta.
  rewrite !TreeTsx_layout_run, !Part000_layout_run. cbn [fst].
  rewrite !map_map.
  repeat split; apply map_ext; intros i; reflexivity.
Qed.

End LayoutProperties.

(** ** Lengths of vectors *)

Lemma cos_sin_sq (t : R) : cos t * cos t + sin t * sin t = 1.
Proof. pose proof (sin2_cos2 t) as H. unfold Rsqr in H. lra. Qed.

Lemma polar_sq (r t : R) :
  r * cos t * (r * cos t) + r * sin t * (r * sin t) = r * r.
Proof.
  replace (r * cos t * (r * cos t) + r * sin t * (r * sin t))
    with (r * r * (cos t * cos t + sin t * sin t)) by ring.
  rewrite cos_sin_sq. ring.
Qed.

Lemma polar_lengthSq (r h t : R) :
  THREE.lengthSq (THREE.mkVector3 (r * cos t) h (r * sin t)) = r * r + h * h.
Proof.
  unfold THREE.lengthSq. cbn [THREE.x THREE.y THREE.z].
  rewrite <- (polar_sq r t). ring.
Qed.

Lemma lengthSq_nonneg (v : THREE.Vector3) : 0 <= THREE.lengthSq v.
Proof. unfold THREE.lengthSq. nra. Qed.

Lemma length_sq (v : THREE.Vector3) :
  THREE.length v * THREE.length v = THREE.lengthSq v.
Proof. unfold THREE.length. apply sqrt_sqrt. apply lengthSq_nonneg. Qed.

Lemma length_pos (v : THREE.Vector3) : 0 < THREE.lengthSq v -> 0 < THREE.length v.
Proof. intros H. unfold THREE.length. apply sqrt_lt_R0. exact H. Qed.

Lemma lengthSq_multiplyScalar (v : THREE.Vector3) (s : R) :
  THREE.lengthSq (THREE.multiplyScalar v s) = (s * s) * THREE.lengthSq v.
Proof. unfold THREE.lengthSq, THREE.multiplyScalar. cbn. ring. Qed.

Lemma length_multiplyScalar (v : THREE.Vector3) (s : R) :
  0 <= s -> THREE.length (THREE.multiplyScalar v s) = s * THREE.length v.
Proof.
  intros Hs. unfold THREE.length. rewrite lengthSq_multiplyScalar.
  rewrite sqrt_mult_alt by nra. rewrite sqrt_square by exact Hs. reflexivity.
Qed.

Lemma normalize_eq (v : THREE.Vector3) :
  0 < THREE.lengthSq v ->
  THREE.normalize v = THREE.multiplyScalar v (1 / THREE.length v).
Proof.
  intros H. pose proof (length_pos v H) as HL.
  unfold THREE.normalize, THREE.divideScalar.
  destruct (Req_dec_T (THREE.length v) 0) as [E | _]; [lra | reflexivity].
Qed.

Lemma normalize_length (v : THREE.Vector3) :
  0 < THREE.lengthSq v -> THREE.length (THREE.normalize v) = 1.
Proof.
  intros H. pose proof (length_pos v H) as HL.
  rewrite normalize_eq by exact H.
  rewrite length_multiplyScalar.
  - field. lra.
  - apply Rlt_le. apply Rdiv_lt_0_compat; lra.
Qed.

Lemma preJitter_length (v : THREE.Vector3) (f : R) :
  0 < THREE.lengthSq v -> 0 <= f -> THREE.length (preJitter v f) = f.
Proof.
  intros Hv Hf. unfold preJitter.
  rewrite length_multiplyScalar by exact Hf.
  rewrite normalize_length by exact Hv. ring.
Qed.

(** ** C10: the exploded position of a slot *)

Lemma slot_ratio (count i : nat) :
  (i < count)%nat -> 0 <= INR i / INR count < 1.
Proof.
  intros Hi.
  assert (Hc : 0 < INR count) by (apply lt_0_INR; lia).
  assert (Hi0 : 0 <= INR i) by apply pos_INR.
  assert (Hic : INR i < INR count) by (apply lt_INR; exact Hi).
  split.
  - apply Rmult_le_pos; [exact Hi0 |]. apply Rlt_le, Rinv_0_lt_compat. exact Hc.
  - apply Rmult_lt_reg_r with (INR count); [exact Hc |].
    unfold Rdiv. rewrite Rmult_assoc, Rinv_l by lra. lra.
Qed.

Lemma TreeTsx_slot_rBase_nonneg (shape : TreeShape) (count i : nat) :
  0 <= TreeTsx.slot_rBase shape count i.
Proof.
  unfold TreeTsx.slot_rBase. apply TreeTsx_getShapeRadiusAtY_nonneg.
Qed.

Lemma Part000_slot_rBase_nonneg (shape : TreeShape) (count i : nat) :
  (i < count)%nat -> 0 <= Part000.slot_rBase shape count i.
Proof.
  intros Hi. pose proof (slot_ratio count i Hi) as Ht.
  unfold Part000.slot_rBase.
  destruct shape; try apply Part000_getShapeRadiusAtY_nonneg.
  unfold Part000.slot_h. cbv zeta. lra.
Qed.

Lemma TreeTsx_slotPosition_lengthSq (shape : TreeShape) (count i : nat) :
  THREE.lengthSq (TreeTsx.slotPosition shape count i) =
  (TreeTsx.slot_rBase shape count i + 0.8) * (TreeTsx.slot_rBase shape count i + 0.8)
  + TreeTsx.slot_h shape count i * TreeTsx.slot_h shape count i.
Proof.
  unfold TreeTsx.slotPosition. cbv zeta. apply polar_lengthSq.
Qed.

Lemma Part000_slotPosition_lengthSq (shape : TreeShape) (count i : nat) :
  THREE.lengthSq (Part000.slotPosition shape count i) =
  (Part000.slot_rBase shape count i + 0.8) * (Part000.slot_rBase shape count i + 0.8)
  + Part000.slot_h shape count i * Part000.slot_h shape count i.
Proof.
  unfold Part000.slotPosition. cbv zeta. apply polar_lengthSq.
Qed.

Lemma TreeTsx_slotPosition_pos (shape : TreeShape) (count i : nat) :
  0 < THREE.lengthSq (TreeTsx.slotPosition shape count i).
Proof.
  rewrite TreeTsx_slotPosition_lengthSq.
  pose proof (TreeTsx_slot_rBase_nonneg shape count i). nra.
Qed.

Lemma Part000_slotPosition_pos (shape : TreeShape) (count i : nat) :
  (i < count)%nat -> 0 < THREE.lengthSq (Part000.slotPosition shape count i).
Proof.
  intros Hi. rewrite Part000_slotPosition_lengthSq.
  pose proof (Part000_slot_rBase_nonneg shape count i Hi). nra.
Qed.

(** *** A point of the layout pushed along its own direction *)

Lemma preJitter_polar (r h t f : R) :
  0 < r -> 0 < f ->
  let a := THREE.mkVector3 (r * cos t) h (r * sin t) in
  let s := 1 / sqrt (r * r + h * h) * f in
  0 < s /\ s * s * (r * r + h * h) = f * f /\
  THREE.y (preJitter a f) = h * s /\
  horizontalRadius (preJitter a f) = r * s.
Proof.
  intros Hr Hf a s.
  assert (Hq : 0 < r * r + h * h) by nra.
  assert (HL : 0 < sqrt (r * r + h * h)) by (apply sqrt_lt_R0; exact Hq).
  assert (HLL : sqrt (r * r + h * h) * sqrt (r * r + h * h) = r * r + h * h)
    by (apply sqrt_sqrt; lra).
  assert (Hlen : THREE.length a = sqrt (r * r + h * h)).
  { unfold THREE.length, a. rewrite polar_lengthSq. reflexivity. }
  assert (Hs : 0 < s).
  { unfold s. apply Rmult_lt_0_compat; [| exact Hf].
    apply Rdiv_lt_0_compat; lra. }
  assert (Hpre : preJitter a f = THREE.mkVector3 (r * s * cos t) (h * s) (r * s * sin t)).
  { unfold preJitter. rewrite normalize_eq.
    - rewrite Hlen. unfold THREE.multiplyScalar, a, s. cbn [THREE.x THREE.y THREE.z].
      f_equal; ring.
    - unfold a. rewrite polar_lengthSq. exact Hq. }
  split; [exact Hs |]. split.
  - unfold s. rewrite <- HLL at 3. field. lra.
  - rewrite Hpre. split; [reflexivity |].
    unfold horizontalRadius. cbn [THREE.x THREE.z].
    rewrite polar_sq. apply sqrt_square. nra.
Qed.

Section Pushed.

(** A point at distance [r] from the axis and height [h], scaled by [s] to
    lie at distance [f >= 10] from the origin. *)
Variables r h s f : R.
Hypothesis Hr : 0 < r.
Hypothesis Hs : 0 < s.
Hypothesis Hf : 10 <= f.
Hypothesis Hsf : s * s * (r * r + h * h) = f * f.

Lemma pushed_radius_gt (c : R) :
  0 <= c -> c * c * (r * r + h * h) < 100 * (r * r) -> c < r * s.
Proof.
  intros Hc Hdir.
  destruct (Rlt_le_dec c (r * s)) as [Hlt | Hge]; [exact Hlt | exfalso].
  assert (H0 : 0 < r * s) by (apply Rmult_lt_0_compat; assumption).
  assert (H1 : (r * s) * (r * s) <= c * c) by nra.
  assert (H2 : 0 <= r * r + h * h) by nra.
  assert (H3 : (r * s) * (r * s) * (r * r + h * h) <= c * c * (r * r + h * h))
    by (apply Rmult_le_compat_r; assumption).
  assert (H4 : (r * s) * (r * s) * (r * r + h * h) = (r * r) * (f * f))
    by (rewrite <- Hsf; ring).
  assert (H5 : 100 <= f * f) by nra.
  assert (H6 : 100 * (r * r) <= (r * r) * (f * f)) by nra.
  lra.
Qed.

Lemma pushed_height_ge (c : R) :
  0 <= c -> 0 <= h -> c * c * (r * r + h * h) <= 100 * (h * h) -> c <= h * s.
Proof.
  intros Hc Hh Hdir.
  destruct (Rle_lt_dec c (h * s)) as [Hle | Hgt]; [exact Hle | exfalso].
  assert (H0 : 0 <= h * s) by (apply Rmult_le_pos; lra).
  assert (H1 : (h * s) * (h * s) < c * c) by nra.
  assert (H2 : 0 < r * r + h * h) by nra.
  assert (H3 : (h * s) * (h * s) * (r * r + h * h) < c * c * (r * r + h * h))
    by (apply Rmult_lt_compat_r; assumption).
  assert (H4 : (h * s) * (h * s) * (r * r + h * h) = (h * h) * (f * f))
    by (rewrite <- Hsf; ring).
  assert (H5 : 100 <= f * f) by nra.
  assert (H6 : 100 * (h * h) <= (h * h) * (f * f)) by nra.
  lra.
Qed.

Lemma pushed_on_sphere : (r * s) * (r * s) + (h * s) * (h * s) = f * f.
Proof. rewrite <- Hsf. ring. Qed.

(** The cone: a point placed 0.8 outside it stays outside. *)
Lemma pushed_outside_cone :
  -7 <= h <= 8 -> r = coneRadiusAtY h + 0.8 -> coneRadiusAtY (h * s) < r * s.
Proof.
  intros Hh Hrh. rewrite coneRadiusAtY_inside in Hrh by lra.
  assert (Hc : 45 / 53 < s).
  { destruct (Rlt_le_dec (45 / 53) s) as [Hlt | Hge]; [exact Hlt | exfalso].
    assert (H1 : s * s <= (45 / 53) * (45 / 53)) by nra.
    assert (H2 : r * r + h * h <= 130) by (subst r; nra).
    assert (H3 : 0 <= s * s) by nra.
    assert (H4 : s * s * (r * r + h * h) <= s * s * 130)
      by (apply Rmult_le_compat_l; assumption).
    assert (H5 : 100 <= f * f) by nra.
    nra. }
  unfold coneRadiusAtY. apply Rmax_lub_lt.
  - apply Rmult_lt_0_compat; assumption.
  - subst r. nra.
Qed.

(** A profile that never exceeds [c] is cleared when the point is steep
    enough. *)
Lemma pushed_outside_bounded (radius c : R) :
  radius <= c -> 0 <= c -> c * c * (r * r + h * h) < 100 * (r * r) ->
  radius < r * s.
Proof.
  intros Hle Hc Hdir. pose proof (pushed_radius_gt c Hc Hdir). lra.
Qed.

End Pushed.

Lemma band_lt (q u : R) : 0 < u -> q < u * u -> Rmax 0 (sqrt (Rmax 0 q)) < u.
Proof.
  intros Hu Hq. apply Rmax_lub_lt; [exact Hu |].
  rewrite <- (sqrt_square u) by lra.
  apply sqrt_lt_1_alt. split; [apply Rmax_l |].
  apply Rmax_lub_lt; [nra | exact Hq].
Qed.

Lemma band_ge (q a : R) : 0 <= a -> a * a <= q -> a <= Rmax 0 (sqrt (Rmax 0 q)).
Proof.
  intros Ha Hq. apply Rle_trans with (sqrt (Rmax 0 q)); [| apply Rmax_r].
  rewrite <- (sqrt_square a) by exact Ha.
  apply sqrt_le_1_alt. apply Rle_trans with q; [exact Hq | apply Rmax_r].
Qed.

Section PushedShapes.

Variables r h s f : R.
Hypothesis Hr : 0 < r.
Hypothesis Hs : 0 < s.
Hypothesis Hf : 10 <= f.
Hypothesis Hsf : s * s * (r * r + h * h) = f * f.

Lemma pushed_outside_santa :
  -7 <= h <= 7 -> r = santaRadiusAtY h + 0.8 -> santaRadiusAtY (h * s) < r * s.
Proof.
  intros Hh Hrh. pose proof (santaRadiusAtY_bounds (h * s)) as Hb.
  unfold santaRadiusAtY in Hrh.
  destruct (Rlt_dec h (-2)) as [H1 | H1]; [| destruct (Rlt_dec h 4) as [H2 | H2]].
  - apply (pushed_outside_bounded r h s f Hr Hs Hf Hsf _ 5); [lra | lra |].
    subst r. nra.
  - apply (pushed_outside_bounded r h s f Hr Hs Hf Hsf _ 5); [lra | lra |].
    subst r. nra.
  - assert (Hy : 4 <= h * s).
    { apply (pushed_height_ge r h s f Hr Hs Hf Hsf 4); [lra | lra |]. subst r. nra. }
    unfold santaRadiusAtY.
    destruct (Rlt_dec (h * s) (-2)); [lra |]. destruct (Rlt_dec (h * s) 4); [lra |].
    apply (pushed_radius_gt r h s f Hr Hs Hf Hsf 3); [lra |]. subst r. nra.
Qed.

Lemma pushed_outside_reindeer_TreeTsx :
  -7 <= h <= 7 -> r = TreeTsx.getShapeRadiusAtY h reindeer + 0.8 ->
  TreeTsx.getShapeRadiusAtY (h * s) reindeer < r * s.
Proof.
  intros Hh Hrh. cbn [TreeTsx.getShapeRadiusAtY] in *.
  assert (Hlow : 3.8 <= r).
  { destruct (Rlt_dec h (-2)); [| destruct (Rlt_dec h 4)]; lra. }
  assert (Hgt : 4 < r * s).
  { apply (pushed_radius_gt r h s f Hr Hs Hf Hsf 4); [lra |]. nra. }
  destruct (Rlt_dec (h * s) (-2)); [| destruct (Rlt_dec (h * s) 4)]; lra.
Qed.

Lemma pushed_outside_reindeer_Part000 :
  -7 <= h <= 7 -> r = Part000.getShapeRadiusAtY h reindeer + 0.8 ->
  Part000.getShapeRadiusAtY (h * s) reindeer < r * s.
Proof.
  intros Hh Hrh. cbn [Part000.getShapeRadiusAtY] in *.
  assert (Hlow : 5.3 <= r).
  { destruct (Rlt_dec h (-2)); [| destruct (Rlt_dec h 4)]; lra. }
  assert (Hgt : 5 < r * s).
  { apply (pushed_radius_gt r h s f Hr Hs Hf Hsf 5); [lra |]. nra. }
  destruct (Rlt_dec (h * s) (-2)); [| destruct (Rlt_dec (h * s) 4)]; lra.
Qed.

Lemma pushed_outside_snowman :
  -7 <= h <= 7 -> r = snowmanRadiusAtY h + 0.8 -> snowmanRadiusAtY (h * s) < r * s.
Proof.
  intros Hh Hrh.
  assert (Hu : 0 < r * s) by (apply Rmult_lt_0_compat; assumption).
  pose proof (pushed_on_sphere r h s f Hsf) as Hsph.
  assert (Hff : 100 <= f * f) by nra.
  unfold snowmanRadiusAtY at 1.
  destruct (Rlt_dec (h * s) (-3)) as [Hy1 | Hy1];
    [| destruct (Rlt_dec (h * s) 3) as [Hy2 | Hy2]]; cbv zeta; apply band_lt; try exact Hu.
  - assert (Hneg : h < 0) by nra.
    assert (Hsteep : 0.19 * (h * h) <= 0.81 * (r * r)).
    { unfold snowmanRadiusAtY in Hrh.
      destruct (Rlt_dec h (-3)) as [Hh1 | Hh1];
        [| destruct (Rlt_dec h 3) as [Hh2 | Hh2]; [| lra]]; cbv zeta in Hrh.
      - assert (Hb : 3 <= Rmax 0 (sqrt (Rmax 0 (4.5 * 4.5 - (h - -6) * (h - -6)))))
          by (apply band_ge; nra).
        nra.
      - assert (Hb : 1 <= Rmax 0 (sqrt (Rmax 0 (3.5 * 3.5 - (h - 0) * (h - 0)))))
          by (apply band_ge; nra).
        nra. }
    assert (Hyy : (h * s) * (h * s) <= 0.81 * (f * f)).
    { assert (H1 : 0.19 * ((h * s) * (h * s)) <= 0.81 * ((r * s) * (r * s))).
      { replace (0.19 * ((h * s) * (h * s))) with (s * s * (0.19 * (h * h))) by ring.
        replace (0.81 * ((r * s) * (r * s))) with (s * s * (0.81 * (r * r))) by ring.
        apply Rmult_le_compat_l; [nra | exact Hsteep]. }
      lra. }
    assert (Hylow : - (0.9 * f) <= h * s) by nra.
    nra.
  - nra.
  - assert (Hyf : h * s <= f) by nra.
    nra.
Qed.

(** The stool of the later revision, whose slots follow the ribbon. *)
Lemma pushed_outside_stool :
  -8 <= h <= 8 ->
  r = (9.5 - ((h - (-10)) / 19.5) * 6.0 + 0.5) + 0.8 ->
  Part000.getShapeRadiusAtY (h * s) stool < r * s.
Proof.
  intros Hh Hrh. cbn [Part000.getShapeRadiusAtY]. cbv zeta.
  set (tc := Rmax 0 (Rmin 1 ((h * s + 7) / 14))).
  assert (Htc : 0 <= tc <= 1).
  { unfold tc. split; [apply Rmax_l |]. apply Rmax_lub; [lra | apply Rmin_l]. }
  destruct (Rle_lt_dec h 5) as [H5 | H5].
  - assert (Hgt : 6.5 < r * s).
    { apply (pushed_radius_gt r h s f Hr Hs Hf Hsf 6.5); [lra |]. subst r. nra. }
    nra.
  - assert (Hy : 4.2 <= h * s).
    { apply (pushed_height_ge r h s f Hr Hs Hf Hsf 4.2); [lra | lra |]. subst r. nra. }
    assert (Htc2 : 0.8 <= tc).
    { unfold tc. apply Rle_trans with (Rmin 1 ((h * s + 7) / 14)); [| apply Rmax_r].
      apply Rmin_glb; lra. }
    assert (Hgt : 5.3 < r * s).
    { apply (pushed_radius_gt r h s f Hr Hs Hf Hsf 5.3); [lra |]. subst r. nra. }
    nra.
Qed.

End PushedShapes.

Lemma TreeTsx_slot_h_range (shape : TreeShape) (count i : nat) :
  (i < count)%nat -> -7 <= TreeTsx.slot_h shape count i <= 7.
Proof.
  intros Hi. pose proof (slot_ratio count i Hi). unfold TreeTsx.slot_h. cbv zeta. lra.
Qed.

Lemma Part000_slot_h_range (shape : TreeShape) (count i : nat) :
  (i < count)%nat ->
  match shape with
  | stool => -8 <= Part000.slot_h shape count i <= 8
  | _ => -7 <= Part000.slot_h shape count i <= 7
  end.
Proof.
  intros Hi. pose proof (slot_ratio count i Hi).
  unfold Part000.slot_h. destruct shape; cbv zeta; lra.
Qed.

Lemma TreeTsx_slot_outside (shape : TreeShape) (count i : nat) (f : R) :
  (i < count)%nat -> 10 <= f ->
  outsideSilhouette TreeTsx.getShapeRadiusAtY shape
    (preJitter (TreeTsx.slotPosition shape count i) f).
Proof.
  intros Hi Hf.
  pose proof (TreeTsx_slot_rBase_nonneg shape count i) as Hrb.
  pose proof (TreeTsx_slot_h_range shape count i Hi) as Hh.
  unfold outsideSilhouette, TreeTsx.slotPosition. cbv zeta.
  set (r := TreeTsx.slot_rBase shape count i + 0.8) in *.
  set (h := TreeTsx.slot_h shape count i) in *.
  assert (Hr : 0 < r) by (unfold r; lra).
  destruct (preJitter_polar r h (INR i * TreeTsx.goldenAngle * 10) f Hr ltac:(lra))
    as (Hs & Hsf & Hy & Hrad).
  rewrite Hy, Hrad. clear Hy Hrad.
  set (s := 1 / sqrt (r * r + h * h) * f) in *.
  assert (Hreq : r = TreeTsx.getShapeRadiusAtY h shape + 0.8) by reflexivity.
  clearbody r h s.
  destruct shape; cbn [TreeTsx.getShapeRadiusAtY] in *.
  1, 5, 6, 7: (apply (pushed_outside_cone r h s f Hr Hs Hf Hsf); [lra | exact Hreq]).
  - apply (pushed_outside_snowman r h s f Hr Hs Hf Hsf); [lra | exact Hreq].
  - apply (pushed_outside_reindeer_TreeTsx r h s f Hr Hs Hf Hsf); [lra | exact Hreq].
  - apply (pushed_outside_santa r h s f Hr Hs Hf Hsf); [lra | exact Hreq].
  - apply Rmult_lt_0_compat; assumption.
Qed.

Lemma Part000_slot_outside (shape : TreeShape) (count i : nat) (f : R) :
  (i < count)%nat -> 10 <= f ->
  outsideSilhouette Part000.getShapeRadiusAtY shape
    (preJitter (Part000.slotPosition shape count i) f).
Proof.
  intros Hi Hf.
  pose proof (Part000_slot_rBase_nonneg shape count i Hi) as Hrb.
  pose proof (Part000_slot_h_range shape count i Hi) as Hh.
  unfold outsideSilhouette, Part000.slotPosition. cbv zeta.
  assert (Hreq : Part000.slot_rBase shape count i + 0.8 =
                 match shape with
                 | stool =>
                     (9.5 - ((Part000.slot_h shape count i - (-10)) / 19.5) * 6.0 + 0.5)
                     + 0.8
                 | _ => Part000.getShapeRadiusAtY (Part000.slot_h shape count i) shape
                        + 0.8
                 end)
    by (destruct shape; reflexivity).
  set (r := Part000.slot_rBase shape count i + 0.8) in *.
  set (h := Part000.slot_h shape count i) in *.
  assert (Hr : 0 < r) by (unfold r; lra).
  destruct (preJitter_polar r h (INR i * Part000.goldenAngle * 10) f Hr ltac:(lra))
    as (Hs & Hsf & Hy & Hrad).
  rewrite Hy, Hrad. clear Hy Hrad.
  set (s := 1 / sqrt (r * r + h * h) * f) in *.
  clearbody r h s.
  destruct shape; try (apply (pushed_outside_stool r h s f Hr Hs Hf Hsf); [lra | exact Hreq]);
    cbn [Part000.getShapeRadiusAtY] in *.
  1, 5, 6, 7: (apply (pushed_outside_cone r h s f Hr Hs Hf Hsf); [lra | exact Hreq]).
  - apply (pushed_outside_snowman r h s f Hr Hs Hf Hsf); [lra | exact Hreq].
  - apply (pushed_outside_reindeer_Part000 r h s f Hr Hs Hf Hsf); [lra | exact Hreq].
  - apply (pushed_outside_santa r h s f Hr Hs Hf Hsf); [lra | exact Hreq].
Qed.

Lemma scatter_ranges (rnd : Random) (k i : nat) :
  uniform01 rnd ->
  10 <= scatterFactor rnd k i < 18 /\ -5 <= verticalJitter rnd k i <= 5.
Proof.
  intros Hu. unfold scatterFactor, verticalJitter.
  pose proof (Hu (2 * i + k)%nat). pose proof (Hu (S (2 * i + k))). lra.
Qed.

Section ExplodedProperties.

Variable Quaternion : Type.
Variable lookAt : THREE.Vector3 -> THREE.Vector3 -> Quaternion.
Variable rotateY : Quaternion -> R -> Quaternion.
Variable rotationOf : Quaternion -> THREE.Euler.

(** C10: in both revisions, slot [i] of the layout is exploded to the unit
    vector of its assembled position scaled by a factor of [[10, 18)], plus a
    vertical offset of [[-5, 5]]; before that offset the exploded position
    lies at a distance from the origin equal to the factor, so at least 10,
    and outside the silhouette of the shape. *)
Theorem layout_exploded_scatter (photos : list PhotoData) (shape : TreeShape)
  (rnd : Random) (k i : nat) :
  uniform01 rnd ->
  (i < TreeTsx.layoutCount photos)%nat ->
  let f := scatterFactor rnd k i in
  let j := verticalJitter rnd k i in
  10 <= f < 18 /\ -5 <= j <= 5 /\
  (exists slot : SlotLayout,
      nth_error
        (fst (TreeTsx.layout Quaternion lookAt rotateY rotationOf photos shape rnd k))
        i = Some slot /\
      scatteredSlot TreeTsx.getShapeRadiusAtY shape f j slot) /\
  (exists slot : SlotLayout,
      nth_error
        (fst (Part000.layout Quaternion lookAt rotateY rotationOf photos shape rnd k))
        i = Some slot /\
      scatteredSlot Part000.getShapeRadiusAtY shape f j slot).
Proof.
  intros Hu Hi f j.
  destruct (scatter_ranges rnd k i Hu) as [Hf Hj]. fold f in Hf. fold j in Hj.
  split; [exact Hf |]. split; [exact Hj |].
  assert (Hi2 : (i < Part000.layoutCount photos)%nat) by exact Hi.
  split.
  - eexists. split.
    + rewrite TreeTsx_layout_run. cbn [fst]. apply nth_error_map_seq. exact Hi.
    + unfold TreeTsx.layoutSlot. rewrite !bind_run. cbn [Math_random ret fst snd].
      unfold scatteredSlot. cbn [initialPos explodedPos].
      pose proof (TreeTsx_slotPosition_pos shape (TreeTsx.layoutCount photos) i) as Hpos.
      split; [apply normalize_length; exact Hpos |].
      split; [| split].
      * unfold preJitter, THREE.add, f, j, scatterFactor, verticalJitter.
        cbn [THREE.x THREE.y THREE.z]. f_equal; ring.
      * apply preJitter_length; [exact Hpos | lra].
      * apply TreeTsx_slot_outside; [exact Hi | lra].
  - eexists. split.
    + rewrite Part000_layout_run. cbn [fst]. apply nth_error_map_seq. exact Hi2.
    + unfold Part000.layoutSlot. rewrite !bind_run. cbn [Math_random ret fst snd].
      unfold scatteredSlot. cbn [initialPos explodedPos].
      pose proof (Part000_slotPosition_pos shape (Part000.layoutCount photos) i Hi2)
        as Hpos.
      split; [apply normalize_length; exact Hpos |].
      split; [| split].
      * unfold preJitter, THREE.add, f, j, scatterFactor, verticalJitter.
        cbn [THREE.x THREE.y THREE.z]. f_equal; ring.
      * apply preJitter_length; [exact Hpos | lra].
      * apply Part000_slot_outside; [exact Hi2 | lra].
Qed.

End ExplodedProperties.

(** The layout of an empty album of the tree, every draw being 1/2; the
    orientation functions are constant. *)
Lemma layout_exploded_scatter_witness :
  let rnd : Random := fun _ => 1 / 2 in
  let f := scatterFactor rnd 0%nat 3%nat in
  let j := verticalJitter rnd 0%nat 3%nat in
  10 <= f < 18 /\ -5 <= j <= 5 /\
  (exists slot : SlotLayout,
      nth_error
        (fst (TreeTsx.layout unit (fun _ _ => tt) (fun q _ => q)
                (fun _ => THREE.mkEuler 0 0 0) [] tree rnd 0%nat))
        3 = Some slot /\
      scatteredSlot TreeTsx.getShapeRadiusAtY tree f j slot) /\
  (exists slot : SlotLayout,
      nth_error
        (fst (Part000.layout unit (fun _ _ => tt) (fun q _ => q)
                (fun _ => THREE.mkEuler 0 0 0) [] tree rnd 0%nat))
        3 = Some slot /\
      scatteredSlot Part000.getShapeRadiusAtY tree f j slot).
Proof.
  apply (layout_exploded_scatter unit (fun _ _ => tt) (fun q _ => q)
           (fun _ => THREE.mkEuler 0 0 0) [] tree (fun _ => 1 / 2) 0%nat 3%nat).
  - intros n. lra.
  - cbn. lia.
Defined.

(** ** C8: the draped garland of the crystal *)

Lemma INR_totalPerStrand : INR totalPerStrand = 1200.
Proof. rewrite INR_IZR_INZ. reflexivity. Qed.

Lemma pearl_t_spec (i : nat) : pearl_t i = drape_t i.
Proof. unfold pearl_t, drape_t. rewrite INR_totalPerStrand. reflexivity. Qed.

Lemma pearl_hBase_spec (i : nat) : pearl_hBase i = drape_hBase i.
Proof.
  unfold pearl_hBase, drape_hBase, height. rewrite pearl_t_spec. lra.
Qed.

Lemma pearl_rCone_spec (i : nat) : pearl_rCone i = drape_coneRadius (drape_hBase i).
Proof.
  unfold pearl_rCone, pearl_progress, drape_coneRadius, height.
  rewrite pearl_hBase_spec. f_equal. lra.
Qed.

Lemma pearl_angle_spec (i : nat) : pearl_angle 0 i = drape_angle i.
Proof.
  unfold pearl_angle, strandOffset, drape_angle, loops, strands.
  rewrite pearl_t_spec. cbn [INR]. lra.
Qed.

Lemma pearl_drapePhase_spec (i : nat) : pearl_drapePhase 0 i = drape_phase i.
Proof.
  unfold pearl_drapePhase, drape_phase, drapeFreq. rewrite pearl_angle_spec.
  reflexivity.
Qed.

Lemma pearl_r_spec (i : nat) : pearl_r 0 i = drape_radial i.
Proof.
  unfold pearl_r, pearl_rOffset, drape_radial.
  rewrite pearl_rCone_spec, pearl_drapePhase_spec. lra.
Qed.

Lemma pearl_h_spec (i : nat) : pearl_h 0 i = drape_height i.
Proof.
  unfold pearl_h, pearl_hOffset, drape_height.
  rewrite pearl_hBase_spec, pearl_drapePhase_spec. reflexivity.
Qed.

Lemma drape_phase_range (i : nat) : 0 <= drape_phase i <= 1.
Proof.
  unfold drape_phase. pose proof (SIN_bound (drape_angle i * 12)). lra.
Qed.

Lemma pearlsData_run (rnd : Random) (k : nat) :
  pearlsData diamond rnd k =
  (map (fun i => pearlAt 0 i rnd (4 * i + k)%nat) (seq 0 totalPerStrand),
   (4 * totalPerStrand + k)%nat).
Proof.
  unfold pearlsData. cbn [TreeShape_eqb negb strands for_loop].
  rewrite bind_run.
  rewrite (for_loop_push (pearlStep 0) (pearlAt 0) 4); [reflexivity |].
  intros i acc rnd' k'. reflexivity.
Qed.

(** C8: pearl [i] of the crystal's garland is placed, before its jitter,
    at the spiral angle [t * 6 * 2 pi], at radial distance
    [coneRadius(hBase) + 0.2 + (1 - drapePhase) * 0.5] and at height
    [hBase - (1 - drapePhase) * 0.8], where [t = i / 1200],
    [hBase = 9 - t * 18] and [drapePhase = (sin(angle * 12) + 1) / 2] lies
    in [[0, 1]]; the pushed position adds to it the three jitters drawn
    for the pearl. *)
Theorem pearls_drape (rnd : Random) (k i : nat) :
  (i < 1200)%nat ->
  0 <= drape_phase i <= 1 /\
  pearl_angle 0 i = drape_angle i /\
  pearl_drapePhase 0 i = drape_phase i /\
  pearl_r 0 i = drape_radial i /\
  pearl_h 0 i = drape_height i /\
  nth_error (fst (pearlsData diamond rnd k)) i =
    Some (mkPearl
            (THREE.mkVector3
               (drape_radial i * cos (drape_angle i)
                + (rnd (4 * i + k)%nat - 0.5) * 0.05)
               (drape_height i + (rnd (S (4 * i + k)) - 0.5) * 0.05)
               (drape_radial i * sin (drape_angle i)
                + (rnd (S (S (4 * i + k))) - 0.5) * 0.05))
            (0.1 + rnd (S (S (S (4 * i + k)))) * 0.1)).
Proof.
  intros Hi.
  split; [apply drape_phase_range |].
  split; [apply pearl_angle_spec |].
  split; [apply pearl_drapePhase_spec |].
  split; [apply pearl_r_spec |].
  split; [apply pearl_h_spec |].
  rewrite pearlsData_run. cbn [fst].
  rewrite nth_error_map_seq by exact Hi.
  unfold pearlAt. rewrite pearl_r_spec, pearl_h_spec, pearl_angle_spec. reflexivity.
Qed.

(** The eighth pearl, every draw being 1/2. *)
Lemma pearls_drape_witness :
  0 <= drape_phase 7 <= 1 /\
  pearl_angle 0 7 = drape_angle 7 /\
  pearl_drapePhase 0 7 = drape_phase 7 /\
  pearl_r 0 7 = drape_radial 7 /\
  pearl_h 0 7 = drape_height 7 /\
  nth_error (fst (pearlsData diamond (fun _ => 1 / 2) 0%nat)) 7 =
    Some (mkPearl
            (THREE.mkVector3
               (drape_radial 7 * cos (drape_angle 7) + (1 / 2 - 0.5) * 0.05)
               (drape_height 7 + (1 / 2 - 0.5) * 0.05)
               (drape_radial 7 * sin (drape_angle 7) + (1 / 2 - 0.5) * 0.05))
            (0.1 + 1 / 2 * 0.1)).
Proof.
  apply (pearls_drape (fun _ => 1 / 2) 0 7). lia.
Defined.

(** ** C7: the decorations *)

Section DecorationProperties.

Variable Math_atan2 : R -> R -> R.
Variable isSilver : bool.

Lemma decorations_diamond (rnd : Random) (k : nat) :
  fst (decorations Math_atan2 diamond isSilver rnd k) = noDecorations.
Proof.
  unfold decorations. cbn [supportsDecor TreeShape_eqb orb negb].
  apply (for_loop_invariant (decorationStep Math_atan2 diamond isSilver) rnd
           (fun _ d => d = noDecorations)); [| reflexivity].
  intros i d c Hd. unfold decorationStep. rewrite bind_run. exact Hd.
Qed.

Lemma decorations_cone (shape : TreeShape) (rnd : Random) (k : nat) :
  shape = tree \/ shape = twin_towers ->
  let d := fst (decorations Math_atan2 shape isSilver rnd k) in
  (List.length (baubles d) + List.length (gifts d) = 200)%nat /\
  ribbons d = [] /\ flowers d = [] /\ geometricDecors d = [].
Proof.
  intros Hshape d. subst d.
  assert (Hrun : decorations Math_atan2 shape isSilver =
                 for_loop 200 0 (decorationStep Math_atan2 shape isSilver) noDecorations)
    by (destruct Hshape; subst shape; reflexivity).
  rewrite Hrun.
  apply (for_loop_invariant (decorationStep Math_atan2 shape isSilver) rnd
           (fun i d =>
              (List.length (baubles d) + List.length (gifts d) = i)%nat /\
              ribbons d = [] /\ flowers d = [] /\ geometricDecors d = [])).
  - intros i d c (Hn & Hr & Hfl & Hg).
    destruct Hshape; subst shape; unfold decorationStep;
      rewrite !bind_run; cbn [Math_random fst snd];
      destruct (Rgt_dec _ 0.3); rewrite !bind_run;
      cbn [Math_random ret fst snd baubles gifts ribbons flowers geometricDecors];
      rewrite length_app; cbn [List.length]; repeat split; try assumption; lia.
  - cbn. repeat split; reflexivity.
Qed.

Lemma decorations_real_tree (rnd : Random) (k : nat) :
  let d := fst (decorations Math_atan2 real_tree isSilver rnd k) in
  List.length (flowers d) = 24%nat /\
  baubles d = [] /\ gifts d = [] /\ ribbons d = [] /\ geometricDecors d = [].
Proof.
  intros d. subst d. unfold decorations.
  cbn [supportsDecor TreeShape_eqb orb negb decorationCount].
  apply (for_loop_invariant (decorationStep Math_atan2 real_tree isSilver) rnd
           (fun i d =>
              List.length (flowers d) = i /\
              baubles d = [] /\ gifts d = [] /\ ribbons d = [] /\
              geometricDecors d = [])).
  - intros i d c (Hn & Hb & Hg & Hr & Hgd).
    unfold decorationStep. rewrite !bind_run. cbn [Math_random ret fst snd].
    cbn [baubles gifts ribbons flowers geometricDecors].
    rewrite length_app. cbn [List.length]. repeat split; try assumption. lia.
  - cbn. repeat split; reflexivity.
Qed.

Lemma diamondsData_length (rnd : Random) (k : nat) :
  List.length (fst (diamondsData diamond rnd k)) = 150%nat.
Proof.
  unfold diamondsData. cbn [TreeShape_eqb negb].
  apply (for_loop_invariant diamondStep rnd (fun i d => List.length d = i));
    [| reflexivity].
  intros i d c Hd. unfold diamondStep. rewrite !bind_run.
  cbn [Math_random ret fst snd]. rewrite length_app. cbn [List.length]. lia.
Qed.

Lemma pearlsData_length (rnd : Random) (k : nat) :
  List.length (fst (pearlsData diamond rnd k)) = 1200%nat.
Proof. rewrite pearlsData_run. cbn [fst]. rewrite length_map, length_seq. reflexivity. Qed.

(** C7 (amended): the [decorations] memo returns non-empty lists for
    exactly the tree and the twin towers (200 baubles and gifts together)
    and the cherry tree (24 flowers); for every other shape, the crystal
    included, all five lists are empty.  The garland and the gems of the
    crystal come from their own generators, [pearlsData] (1200 pearls) and
    [diamondsData] (150 gems). *)
Theorem decorations_by_shape (shape : TreeShape) (rnd : Random) (k : nat) :
  let d := fst (decorations Math_atan2 shape isSilver rnd k) in
  ribbons d = [] /\ geometricDecors d = [] /\
  match shape with
  | tree | twin_towers =>
      (List.length (baubles d) + List.length (gifts d) = 200)%nat /\ flowers d = []
  | real_tree =>
      List.length (flowers d) = 24%nat /\ baubles d = [] /\ gifts d = []
  | diamond =>
      d = noDecorations /\
      List.length (fst (pearlsData diamond rnd k)) = 1200%nat /\
      List.length (fst (diamondsData diamond rnd k)) = 150%nat
  | snowman | reindeer | santa | stool => d = noDecorations
  end.
Proof.
  intros d. subst d. destruct shape.
  - destruct (decorations_cone tree rnd k (or_introl eq_refl)) as (H1 & H2 & H3 & H4).
    repeat split; assumption.
  - repeat split; reflexivity.
  - repeat split; reflexivity.
  - repeat split; reflexivity.
  - destruct (decorations_real_tree rnd k) as (H1 & H2 & H3 & H4 & H5).
    repeat split; assumption.
  - rewrite decorations_diamond.
    split; [reflexivity |]. split; [reflexivity |]. split; [reflexivity |].
    split; [apply pearlsData_length | apply diamondsData_length].
  - destruct (decorations_cone twin_towers rnd k (or_intror eq_refl)) as (H1 & H2 & H3 & H4).
    repeat split; assumption.
  - repeat split; reflexivity.
Qed.

End DecorationProperties.

(** C7, as the specification words it, fails on the crystal: the shape is
    flagged as supporting decorations, yet the memo returns five empty
    lists for it. *)
Lemma decorations_diamond_empty :
  supportsDecor diamond = true /\
  fst (decorations (fun _ _ => 0) diamond false (fun _ => 1 / 2) 0%nat) = noDecorations.
Proof. split; [reflexivity | apply decorations_diamond]. Qed.

(** ** C5: the particle cloud of the classic tree *)

Lemma sampleTree_pos (hslHexString : R -> string) (foliageColor : string)
  (rnd : Random) (k : nat) :
  sample_pos (fst (sampleTree hslHexString foliageColor rnd k)) =
  let theta := rnd (S (S (S k))) * 2 * PI in
  THREE.mkVector3 (blendedRadius rnd k * cos theta)
    (rnd k * height - height / 2) (blendedRadius rnd k * sin theta).
Proof.
  unfold sampleTree, blendedRadius, blend_rMax.
  rewrite !bind_run. cbn [Math_random fst snd].
  destruct (Rlt_dec (rnd (S k)) 0.4); rewrite !bind_run; cbn [Math_random ret fst snd];
    destruct (String.eqb foliageColor rainbow); rewrite ?bind_run; reflexivity.
Qed.

Lemma blend_rMax_range (rnd : Random) (c : nat) :
  uniform01 rnd -> 0 < blend_rMax rnd c <= 8 /\ blend_rMax rnd c = 8 * (1 - rnd c).
Proof.
  intros Hu. pose proof (Hu c) as Hc. unfold blend_rMax, radiusBottom, height.
  assert (E : rnd c * 18 / 18 = rnd c) by (field).
  rewrite E. lra.
Qed.

Lemma blendedRadius_range (rnd : Random) (c : nat) :
  uniform01 rnd ->
  0 <= blendedRadius rnd c <= blend_rMax rnd c /\
  (rnd (S c) < 0.4 -> blendedRadius rnd c <= 0.5 * blend_rMax rnd c).
Proof.
  intros Hu. destruct (blend_rMax_range rnd c Hu) as [Hm _].
  pose proof (Hu (S (S c))) as Hv. unfold blendedRadius.
  destruct (Rlt_dec (rnd (S c)) 0.4) as [Hlt | Hge].
  - split; [nra | intros _; nra].
  - assert (Hsq : 0 <= sqrt (rnd (S (S c))) <= 1).
    { split; [apply sqrt_pos |]. rewrite <- sqrt_1. apply sqrt_le_1_alt. lra. }
    split; [nra | intros Hlt; lra].
Qed.

Lemma sampleTree_treeParticle (radius : R -> TreeShape -> R)
  (hslHexString : R -> string) (foliageColor : string) (shape : TreeShape)
  (rnd : Random) (k : nat) :
  uniform01 rnd ->
  (forall y, radius y tree = coneRadiusAtY y) ->
  let s := fst (sampleTree hslHexString foliageColor rnd k) in
  treeParticle radius rnd
    (mkParticle (sample_pos s) (sample_colorHex s) (boostOf shape foliageColor)).
Proof.
  intros Hu Hrad s. subst s. unfold treeParticle. cbn [particle_pos].
  rewrite sampleTree_pos. cbv zeta.
  destruct (blend_rMax_range rnd k Hu) as [Hm Hme].
  destruct (blendedRadius_range rnd k Hu) as [Hr Hcore].
  pose proof (Hu k) as Hk.
  assert (Hhr : horizontalRadius
                  (THREE.mkVector3
                     (blendedRadius rnd k * cos (rnd (S (S (S k))) * 2 * PI))
                     (rnd k * height - height / 2)
                     (blendedRadius rnd k * sin (rnd (S (S (S k))) * 2 * PI)))
                = blendedRadius rnd k).
  { unfold horizontalRadius. cbn [THREE.x THREE.z].
    rewrite polar_sq. apply sqrt_square. lra. }
  rewrite Hhr. cbn [THREE.y]. unfold height.
  split; [lra |]. split.
  - rewrite Hrad. unfold coneRadiusAtY.
    apply Rle_trans with (9 * (1 - (rnd k * 18 - 18 / 2 + 9) / 18)); [lra | apply Rmax_r].
  - exists k. unfold height. split; [reflexivity |]. split; [reflexivity |].
    split; [exact Hcore | lra].
Qed.

Section CloudProperties.

Variable hslHexString : R -> string.
Variable sampleFigure : TreeShape -> Gen Sample.
Variable foliageColor : string.

Lemma TreeTsx_cloud (rnd : Random) (k : nat) :
  uniform01 rnd ->
  let pts := fst (TreeTsx.shapePoints hslHexString sampleFigure foliageColor
                    classic tree rnd k) in
  List.length (positions pts) = 15000%nat /\ geometricItems pts = [] /\
  Forall (treeParticle TreeTsx.getShapeRadiusAtY rnd) (positions pts).
Proof.
  intros Hu pts. subst pts. unfold TreeTsx.shapePoints.
  change (TreeTsx.effectiveLeafCount classic tree) with (0 + 15000)%nat.
  apply (for_loop_invariant
           (TreeTsx.pointStep hslHexString sampleFigure foliageColor classic tree) rnd
           (fun i acc =>
              List.length (positions acc) = i /\ geometricItems acc = [] /\
              Forall (treeParticle TreeTsx.getShapeRadiusAtY rnd) (positions acc))).
  - intros i acc c (Hn & Hg & Hall).
    unfold TreeTsx.pointStep. rewrite bind_run.
    unfold storeSample. cbn [TreeTsx.asBlocks andb ret fst positions geometricItems].
    rewrite length_app. cbn [List.length].
    split; [lia |]. split; [exact Hg |].
    apply Forall_app. split; [exact Hall |].
    constructor; [| constructor].
    apply sampleTree_treeParticle; [exact Hu | reflexivity].
  - cbn. repeat split. constructor.
Qed.

Lemma Part000_cloud (rnd : Random) (k : nat) :
  uniform01 rnd ->
  let pts := fst (Part000.shapePoints hslHexString sampleFigure foliageColor
                    classic tree rnd k) in
  List.length (positions pts) = 10000%nat /\ geometricItems pts = [] /\
  Forall (treeParticle Part000.getShapeRadiusAtY rnd) (positions pts).
Proof.
  intros Hu pts. subst pts. unfold Part000.shapePoints.
  change (Part000.effectiveLeafCount classic tree) with (0 + 10000)%nat.
  apply (for_loop_invariant
           (Part000.pointStep hslHexString sampleFigure foliageColor classic tree) rnd
           (fun i acc =>
              List.length (positions acc) = i /\ geometricItems acc = [] /\
              Forall (treeParticle Part000.getShapeRadiusAtY rnd) (positions acc))).
  - intros i acc c (Hn & Hg & Hall).
    unfold Part000.pointStep. rewrite bind_run.
    unfold storeSample. cbn [Part000.asBlocks andb ret fst positions geometricItems].
    rewrite length_app. cbn [List.length].
    split; [lia |]. split; [exact Hg |].
    apply Forall_app. split; [exact Hall |].
    constructor; [| constructor].
    apply sampleTree_treeParticle; [exact Hu | reflexivity].
  - cbn. repeat split. constructor.
Qed.

(** C5: for the tree in the classic style the generator fills a cloud of
    15000 particles (10000 in the later revision), between 5000 and 15000;
    every particle has its height in [[-9, 9]] and its horizontal radius at
    most [radiusAt(y, Tree)]; its radius is the blended one: when the mode
    draw is below 0.4 a linear draw kept within half of the bound [rMax],
    otherwise [rMax * sqrt(uniform)], which reaches up to [rMax]. *)
Theorem tree_classic_cloud (rnd : Random) (k : nat) :
  uniform01 rnd ->
  let pts1 := fst (TreeTsx.shapePoints hslHexString sampleFigure foliageColor
                     classic tree rnd k) in
  let pts2 := fst (Part000.shapePoints hslHexString sampleFigure foliageColor
                     classic tree rnd k) in
  (List.length (positions pts1) = 15000%nat /\
   List.length (positions pts2) = 10000%nat) /\
  (positions pts1 <> [] /\ positions pts2 <> []) /\
  ((5000 <= List.length (positions pts1) <= 15000)%nat /\
   (5000 <= List.length (positions pts2) <= 15000)%nat) /\
  Forall (treeParticle TreeTsx.getShapeRadiusAtY rnd) (positions pts1) /\
  Forall (treeParticle Part000.getShapeRadiusAtY rnd) (positions pts2).
Proof.
  intros Hu pts1 pts2.
  destruct (TreeTsx_cloud rnd k Hu) as (H1 & _ & H1all).
  destruct (Part000_cloud rnd k Hu) as (H2 & _ & H2all).
  fold pts1 in H1, H1all. fold pts2 in H2, H2all.
  split; [split; assumption |].
  split.
  - split; intros E; [rewrite E in H1 | rewrite E in H2]; discriminate.
  - split; [| split; assumption].
    rewrite H1, H2. repeat split; apply Nat.leb_le; vm_compute; reflexivity.
Qed.

End CloudProperties.

(** The classic tree in the default green, every draw being 1/2. *)
Lemma tree_classic_cloud_witness :
  let rnd : Random := fun _ => 1 / 2 in
  let other : TreeShape -> Gen Sample :=
    fun _ => ret (mkSample (THREE.mkVector3 0 0 0) "#064e3b") in
  let pts1 := fst (TreeTsx.shapePoints (fun _ => "#000000"%string) other "#064e3b"
                     classic tree rnd 0%nat) in
  let pts2 := fst (Part000.shapePoints (fun _ => "#000000"%string) other "#064e3b"
                     classic tree rnd 0%nat) in
  (List.length (positions pts1) = 15000%nat /\
   List.length (positions pts2) = 10000%nat) /\
  (positions pts1 <> [] /\ positions pts2 <> []) /\
  ((5000 <= List.length (positions pts1) <= 15000)%nat /\
   (5000 <= List.length (positions pts2) <= 15000)%nat) /\
  Forall (treeParticle TreeTsx.getShapeRadiusAtY rnd) (positions pts1) /\
  Forall (treeParticle Part000.getShapeRadiusAtY rnd) (positions pts2).
Proof.
  apply (tree_classic_cloud (fun _ => "#000000"%string)
           (fun _ => ret (mkSample (THREE.mkVector3 0 0 0) "#064e3b")) "#064e3b"
           (fun _ => 1 / 2) 0%nat).
  intros n. lra.
Defined.

(** ** C4: the interpolation towards the target *)

Lemma lerp_distanceToSquared (p t : THREE.Vector3) (a : R) :
  THREE.distanceToSquared (THREE.lerp p t a) t =
  ((1 - a) * (1 - a)) * THREE.distanceToSquared p t.
Proof. unfold THREE.distanceToSquared, THREE.lerp. cbn [THREE.x THREE.y THREE.z]. ring. Qed.

Lemma distanceToSquared_nonneg (p t : THREE.Vector3) : 0 <= THREE.distanceToSquared p t.
Proof.
  unfold THREE.distanceToSquared.
  pose proof (Rle_0_sqr (THREE.x p - THREE.x t)) as Hx.
  pose proof (Rle_0_sqr (THREE.y p - THREE.y t)) as Hy.
  pose proof (Rle_0_sqr (THREE.z p - THREE.z t)) as Hz.
  unfold Rsqr in Hx, Hy, Hz. lra.
Qed.

Lemma distanceTo_nonneg (p t : THREE.Vector3) : 0 <= THREE.distanceTo p t.
Proof. apply sqrt_pos. Qed.

Lemma lerp_distanceTo (p t : THREE.Vector3) (a : R) :
  THREE.distanceTo (THREE.lerp p t a) t = Rabs (1 - a) * THREE.distanceTo p t.
Proof.
  unfold THREE.distanceTo. rewrite lerp_distanceToSquared.
  rewrite sqrt_mult_alt by apply (Rle_0_sqr (1 - a)).
  f_equal. rewrite <- sqrt_Rsqr_abs. reflexivity.
Qed.

Lemma updatePhotoItem_distance (isExploded : bool) (delta : R) (item : PhotoItem)
  (d : R) :
  distanceToTarget isExploded item = Some d ->
  distanceToTarget isExploded (updatePhotoItem isExploded delta item) =
    Some (Rabs (1 - delta * 2) * d).
Proof.
  unfold distanceToTarget, updatePhotoItem, itemTarget.
  destruct (item_ref item) as [cur |]; [| discriminate].
  intros [= <-]. cbn [item_ref item_layout position].
  rewrite lerp_distanceTo. reflexivity.
Qed.

Lemma photoItems_frames (n : nat) (isExploded : bool) (g delta : R) (s : Scene) :
  photoItems (frames n isExploded g delta s) =
  map (Nat.iter n (updatePhotoItem isExploded delta)) (photoItems s).
Proof.
  revert s. induction n as [| n IH]; intros s.
  - cbn. symmetry. apply map_id.
  - cbn [frames]. rewrite IH. unfold useFrame. cbn [photoItems].
    rewrite map_map. apply map_ext. intros item.
    symmetry. apply Nat.iter_succ_r.
Qed.

Lemma iter_distance (n : nat) (isExploded : bool) (delta : R) (item : PhotoItem)
  (d : R) :
  distanceToTarget isExploded item = Some d ->
  distanceToTarget isExploded (Nat.iter n (updatePhotoItem isExploded delta) item) =
    Some (Rabs (1 - delta * 2) ^ n * d).
Proof.
  intros Hd. induction n as [| n IH].
  - cbn. rewrite Hd. f_equal. ring.
  - cbn [Nat.iter nat_rect]. rewrite (updatePhotoItem_distance _ _ _ _ IH).
    f_equal. cbn [pow]. ring.
Qed.

(** The distance of group [i] after [n] frames of the same [delta]. *)
Lemma frames_distance (n : nat) (isExploded : bool) (g delta : R) (s : Scene)
  (i : nat) (item : PhotoItem) (d : R) :
  nth_error (photoItems s) i = Some item ->
  distanceToTarget isExploded item = Some d ->
  exists item' : PhotoItem,
    nth_error (photoItems (frames n isExploded g delta s)) i = Some item' /\
    distanceToTarget isExploded item' = Some (Rabs (1 - delta * 2) ^ n * d).
Proof.
  intros Hi Hd. exists (Nat.iter n (updatePhotoItem isExploded delta) item).
  split; [| apply iter_distance; exact Hd].
  rewrite photoItems_frames, nth_error_map, Hi. reflexivity.
Qed.

(** Two seconds at 60 frames per second: [(29/30)^120] lies between 0.0171
    and 0.0172. *)
Lemma factor_two_seconds :
  0.0171 < Rabs (1 - 1 / 60 * 2) ^ 120 < 0.0172.
Proof.
  rewrite Rabs_pos_eq by lra.
  replace (1 - 1 / 60 * 2) with (IZR 29 * / IZR 30) by lra.
  rewrite Rpow_mult_distr, pow_inv, !pow_IZR.
  set (a := (29 ^ Z.of_nat 120)%Z). set (b := (30 ^ Z.of_nat 120)%Z).
  assert (Hb : 0 < IZR b) by (apply IZR_lt; vm_compute; reflexivity).
  assert (H1 : IZR (171 * b) < IZR (10000 * a)) by (apply IZR_lt; vm_compute; reflexivity).
  assert (H2 : IZR (10000 * a) < IZR (172 * b)) by (apply IZR_lt; vm_compute; reflexivity).
  rewrite !mult_IZR in H1, H2.
  split.
  - apply Rmult_lt_reg_r with (IZR b); [exact Hb |].
    rewrite Rmult_assoc, Rinv_l by lra. lra.
  - apply Rmult_lt_reg_r with (IZR b); [exact Hb |].
    rewrite Rmult_assoc, Rinv_l by lra. lra.
Qed.

Lemma oneItemScene_distance :
  distanceToTarget false
    (mkPhotoItem
       (mkSlotLayout (THREE.mkVector3 0 0 0) (THREE.mkVector3 0 10 0)
          (THREE.mkEuler 0 0 0))
       (Some (mkObject3D (THREE.mkVector3 1 0 0) (THREE.mkVector3 1 1 1)
                (THREE.mkEuler 0 0 0)))
       (mkPhotoData "photo" "blob:photo" 0 false)) = Some 1.
Proof.
  unfold distanceToTarget, itemTarget, THREE.distanceTo, THREE.distanceToSquared.
  cbn [item_ref item_layout position initialPos THREE.x THREE.y THREE.z].
  f_equal. transitivity (sqrt 1); [f_equal; ring | apply sqrt_1].
Qed.

(** C4, as the specification words it, fails: a photo group that starts one
    unit away from its assembled position is still more than 0.017 units
    away after 120 frames of 1/60 s, not below 0.01; and with a frame time of
    one second the distance does not decrease at all. *)
Lemma frames_two_seconds_not_converged :
  (exists (item : PhotoItem) (d : R),
      nth_error
        (photoItems
           (frames 120 false 0 (1 / 60)
              (oneItemScene (THREE.mkVector3 1 0 0) (THREE.mkVector3 0 0 0))))
        0 = Some item /\
      distanceToTarget false item = Some d /\ 0.01 < d) /\
  (exists item : PhotoItem,
      nth_error
        (photoItems
           (useFrame false 0 1
              (oneItemScene (THREE.mkVector3 1 0 0) (THREE.mkVector3 0 0 0))))
        0 = Some item /\
      distanceToTarget false item = Some 1).
Proof.
  split.
  - destruct (frames_distance 120 false 0 (1 / 60)
                (oneItemScene (THREE.mkVector3 1 0 0) (THREE.mkVector3 0 0 0))
                0 _ 1 eq_refl oneItemScene_distance) as (item & Hi & Hd).
    exists item. eexists. split; [exact Hi |]. split; [exact Hd |].
    pose proof factor_two_seconds. lra.
  - destruct (frames_distance 1 false 0 1
                (oneItemScene (THREE.mkVector3 1 0 0) (THREE.mkVector3 0 0 0))
                0 _ 1 eq_refl oneItemScene_distance) as (item & Hi & Hd).
    exists item. split; [exact Hi |]. rewrite Hd. f_equal.
    replace (1 - 1 * 2) with (- (1)) by ring. rewrite Rabs_Ropp, Rabs_R1. ring.
Qed.

(** C4 (amended): for a frame time [0 < delta < 1] and a fixed target, every
    frame multiplies the distance of a mounted photo group to its target by
    the constant [|1 - 2 delta|], which is [1 - 2 delta] up to
    [delta = 1/2], so the distance strictly decreases while it is not zero
    and after [n] frames it is [|1 - 2 delta|^n] times the initial one.
    After 120 frames of 1/60 s it lies between 0.0171 and 0.0172 times the
    initial distance: below 0.01 for a start within 0.58 units of the
    target. *)
Theorem frames_contract (isExploded : bool) (g delta : R) (s : Scene)
  (i n : nat) (item : PhotoItem) (d : R) :
  nth_error (photoItems s) i = Some item ->
  distanceToTarget isExploded item = Some d ->
  0 < delta < 1 ->
  let factor := Rabs (1 - delta * 2) in
  (exists item1 : PhotoItem,
      nth_error (photoItems (useFrame isExploded g delta s)) i = Some item1 /\
      distanceToTarget isExploded item1 = Some (factor * d)) /\
  (delta <= 1 / 2 -> factor = 1 - 2 * delta) /\
  (0 < d -> factor * d < d) /\
  (exists itemn : PhotoItem,
      nth_error (photoItems (frames n isExploded g delta s)) i = Some itemn /\
      distanceToTarget isExploded itemn = Some (factor ^ n * d)) /\
  (delta = 1 / 60 -> n = 120%nat ->
   0.0171 * d <= factor ^ n * d <= 0.0172 * d /\
   (d < 0.58 -> factor ^ n * d < 0.01)).
Proof.
  intros Hi Hd Hdelta factor.
  assert (Hd0 : 0 <= d).
  { unfold distanceToTarget in Hd. destruct (item_ref item); [| discriminate].
    injection Hd as <-. apply distanceTo_nonneg. }
  assert (Hfac : factor < 1).
  { unfold factor. apply Rabs_def1; lra. }
  split.
  - destruct (frames_distance 1 isExploded g delta s i item d Hi Hd) as (it & H1 & H2).
    exists it. split; [exact H1 |]. rewrite H2. f_equal. fold factor. ring.
  - split; [intros Hhalf; unfold factor; rewrite Rabs_pos_eq by lra; ring |].
    split; [intros Hpos; nra |].
    split; [exact (frames_distance n isExploded g delta s i item d Hi Hd) |].
    intros -> ->. pose proof factor_two_seconds as Hb. fold factor in Hb.
    split; [nra | intros Hnear; nra].
Qed.

(** A group one unit away from its assembled position, 120 frames of
    1/60 s. *)
Lemma frames_contract_witness :
  let s := oneItemScene (THREE.mkVector3 1 0 0) (THREE.mkVector3 0 0 0) in
  let factor := Rabs (1 - 1 / 60 * 2) in
  (exists item1 : PhotoItem,
      nth_error (photoItems (useFrame false 0 (1 / 60) s)) 0 = Some item1 /\
      distanceToTarget false item1 = Some (factor * 1)) /\
  (1 / 60 <= 1 / 2 -> factor = 1 - 2 * (1 / 60)) /\
  (0 < 1 -> factor * 1 < 1) /\
  (exists itemn : PhotoItem,
      nth_error (photoItems (frames 120 false 0 (1 / 60) s)) 0 = Some itemn /\
      distanceToTarget false itemn = Some (factor ^ 120 * 1)) /\
  (1 / 60 = 1 / 60 -> 120%nat = 120%nat ->
   0.0171 * 1 <= factor ^ 120 * 1 <= 0.0172 * 1 /\
   (1 < 0.58 -> factor ^ 120 * 1 < 0.01)).
Proof.
  apply (frames_contract false 0 (1 / 60)
           (oneItemScene (THREE.mkVector3 1 0 0) (THREE.mkVector3 0 0 0))
           0 120 _ 1 eq_refl oneItemScene_distance).
  lra.
Defined.

(** ** C9: the Victory gesture *)

Lemma pick_in {A : Type} (arr : list A) (u : R) :
  arr <> [] -> 0 <= u < 1 -> exists a : A, pick arr u = Some a /\ In a arr.
Proof.
  intros Hne Hu. unfold pick.
  set (n := List.length arr).
  assert (Hn : (0 < n)%nat) by (unfold n; destruct arr; [congruence | cbn; lia]).
  assert (HnR : 0 < INR n) by (apply lt_0_INR; exact Hn).
  destruct (base_Int_part (u * INR n)) as [Hlo Hhi].
  set (z := Int_part (u * INR n)) in *.
  assert (Hz0 : (0 <= z)%Z).
  { apply Z.lt_succ_r. apply lt_IZR. rewrite succ_IZR. nra. }
  assert (Hzn : (z < Z.of_nat n)%Z).
  { apply lt_IZR. rewrite <- INR_IZR_INZ. nra. }
  assert (Hlt : (Z.to_nat z < n)%nat) by lia.
  destruct (nth_error arr (Z.to_nat z)) as [a |] eqn:E.
  - exists a. split; [| exact (nth_error_In _ _ E)].
    destruct z; [exact E | exact E | lia].
  - apply nth_error_None in E. fold n in E. lia.
Qed.

Lemma validPhotos_spec (ps : list PhotoData) (p : PhotoData) :
  In p (validPhotos ps) <-> In p ps /\ isEmpty p = false.
Proof.
  unfold validPhotos. rewrite filter_In.
  destruct (isEmpty p); cbn; intuition congruence.
Qed.

Lemma validPhotos_nonempty (ps : list PhotoData) :
  validPhotos ps <> [] <-> exists p : PhotoData, In p ps /\ isEmpty p = false.
Proof.
  split.
  - intros Hne. destruct (validPhotos ps) as [| p l] eqn:E; [congruence |].
    exists p. apply validPhotos_spec. rewrite E. left. reflexivity.
  - intros (p & Hp) E. apply validPhotos_spec in Hp. rewrite E in Hp. exact Hp.
Qed.

(** The jump requests among the calls of the handler. *)
Lemma handleGesture_jumps (st : AppState) (now : Z) (gesture : GestureType) (x : R)
  (rnd : Random) (k : nat) :
  let acts := fst (handleGesture st now gesture x rnd k) in
  let rising :=
    (GestureType_eqb gesture Victory
     && negb (GestureType_eqb (lastGesture st) Victory))%bool in
  filter isJumpRequest acts =
    (if rising then
       match validPhotos (photos st) with
       | [] => []
       | _ :: _ => [SetActivePhoto (pick (validPhotos (photos st)) (rnd k))]
       end
     else []) /\
  (In (SetMode mode_focus) acts <->
   rising = true /\ validPhotos (photos st) <> []) /\
  In (SetLastGesture gesture) acts.
Proof.
  unfold handleGesture. rewrite bind_run. cbn [ret fst].
  destruct gesture, (lastGesture st), (validPhotos (photos st)) as [| p l],
    (now - lastColorChange st >? 300)%Z;
    cbn [GestureType_eqb andb negb app filter isJumpRequest ret fst bind Math_random];
    (split; [reflexivity |]); (split; [| cbn; tauto]);
    cbn [In]; split;
    try (intros [H | H]; discriminate H);
    intuition (try discriminate; try congruence).
Qed.

Lemma GestureType_eqb_eq (a b : GestureType) : GestureType_eqb a b = true <-> a = b.
Proof. destruct a, b; cbn; split; intros H; try reflexivity; discriminate. Qed.

Lemma rising_edge (st : AppState) (gesture : GestureType) :
  (GestureType_eqb gesture Victory
   && negb (GestureType_eqb (lastGesture st) Victory))%bool = true <->
  gesture = Victory /\ lastGesture st <> Victory.
Proof.
  rewrite andb_true_iff, negb_true_iff, GestureType_eqb_eq.
  split; intros [H1 H2]; (split; [exact H1 |]).
  - intros E. apply GestureType_eqb_eq in E. congruence.
  - destruct (GestureType_eqb (lastGesture st) Victory) eqn:E; [| reflexivity].
    apply GestureType_eqb_eq in E. contradiction.
Qed.

Lemma handleGesture_last (st : AppState) (now : Z) (gesture : GestureType) (x : R)
  (rnd : Random) (k : nat) :
  exists pre : list Action,
    fst (handleGesture st now gesture x rnd k) = pre ++ [SetLastGesture gesture].
Proof.
  unfold handleGesture. rewrite bind_run. cbn [ret fst].
  eexists. rewrite !app_assoc. reflexivity.
Qed.

Lemma onGesture_lastGesture (st : AppState) (now : Z) (gesture : GestureType)
  (x : R) (rnd : Random) (k : nat) :
  lastGesture (fst (onGesture st now gesture x rnd k)) = gesture.
Proof.
  unfold onGesture. rewrite bind_run. cbn [ret fst].
  destruct (handleGesture_last st now gesture x rnd k) as (pre & ->).
  rewrite fold_left_app. reflexivity.
Qed.

(** C9: the handler selects a photo and enters focus mode exactly when the
    gesture is Victory, the recorded gesture is not Victory and some photo
    is not empty; the photo it selects is then a non-empty photo of the
    album, and it makes one such request at most.  The call records the
    gesture, so that a Victory gesture held over the next sample makes no
    request. *)
Theorem handleGesture_victory (st : AppState) (now : Z) (gesture : GestureType)
  (x : R) (rnd : Random) (k : nat) :
  let acts := fst (handleGesture st now gesture x rnd k) in
  let entering :=
    gesture = Victory /\ lastGesture st <> Victory /\
    exists q : PhotoData, In q (photos st) /\ isEmpty q = false in
  ((exists p, In (SetActivePhoto p) acts) <-> entering) /\
  (In (SetMode mode_focus) acts <-> entering) /\
  (uniform01 rnd ->
   forall p, In (SetActivePhoto p) acts ->
             exists q : PhotoData, p = Some q /\ In q (photos st) /\ isEmpty q = false) /\
  (List.length (filter isJumpRequest acts) <= 1)%nat /\
  lastGesture (fst (onGesture st now gesture x rnd k)) = gesture /\
  (gesture = Victory ->
   forall (now' : Z) (x' : R) (rnd' : Random) (k' : nat),
     filter isJumpRequest
       (fst (handleGesture (fst (onGesture st now gesture x rnd k)) now'
               Victory x' rnd' k')) = []).
Proof.
  intros acts entering.
  destruct (handleGesture_jumps st now gesture x rnd k) as (Hj & Hm & _).
  fold acts in Hj, Hm.
  assert (Hin : forall p, In (SetActivePhoto p) acts <->
                          In (SetActivePhoto p) (filter isJumpRequest acts)).
  { intros p. rewrite filter_In. cbn. tauto. }
  assert (Hent : entering <->
            (GestureType_eqb gesture Victory
             && negb (GestureType_eqb (lastGesture st) Victory))%bool = true /\
            validPhotos (photos st) <> []).
  { unfold entering. rewrite rising_edge, validPhotos_nonempty. tauto. }
  split; [| split; [| split; [| split; [| split]]]].
  - rewrite Hent. split.
    + intros (p & Hp). apply Hin in Hp. rewrite Hj in Hp.
      destruct (GestureType_eqb gesture Victory
                && negb (GestureType_eqb (lastGesture st) Victory))%bool;
        [| destruct Hp].
      split; [reflexivity |]. destruct (validPhotos (photos st)); [destruct Hp | discriminate].
    + intros [Hr Hv]. exists (pick (validPhotos (photos st)) (rnd k)).
      apply Hin. rewrite Hj, Hr.
      destruct (validPhotos (photos st)); [congruence | left; reflexivity].
  - rewrite Hent. exact Hm.
  - intros Hu p Hp. apply Hin in Hp. rewrite Hj in Hp.
    destruct (GestureType_eqb gesture Victory
              && negb (GestureType_eqb (lastGesture st) Victory))%bool;
      [| destruct Hp].
    destruct (validPhotos (photos st)) as [| v l] eqn:E; [destruct Hp |].
    destruct Hp as [Hp | []]. injection Hp as <-.
    destruct (pick_in (v :: l) (rnd k) ltac:(discriminate) (Hu k)) as (q & Hq & Hqin).
    exists q. split; [exact Hq |]. apply validPhotos_spec. rewrite E. exact Hqin.
  - rewrite Hj.
    destruct (GestureType_eqb gesture Victory
              && negb (GestureType_eqb (lastGesture st) Victory))%bool; [| cbn; lia].
    destruct (validPhotos (photos st)); cbn; lia.
  - apply onGesture_lastGesture.
  - intros -> now' x' rnd' k'.
    destruct (handleGesture_jumps (fst (onGesture st now Victory x rnd k))
                now' Victory x' rnd' k') as (Hj' & _).
    rewrite Hj', onGesture_lastGesture. reflexivity.
Qed.

(** An album of one photo and one empty slot, the Victory gesture after an
    open palm, the draw being 1/2. *)
Lemma handleGesture_victory_witness :
  let album := [mkPhotoData "a" "blob:a" 0 false; mkPhotoData "b" "" 0 true] in
  let st := mkAppState album mode_tree None true false 0 0 Open_Palm 0 in
  let rnd : Random := fun _ => 1 / 2 in
  let acts := fst (handleGesture st 1000 Victory 0.5 rnd 0%nat) in
  uniform01 rnd /\
  forall p, In (SetActivePhoto p) acts ->
            exists q : PhotoData, p = Some q /\ In q (photos st) /\ isEmpty q = false.
Proof.
  intros album st rnd acts.
  assert (Hu : uniform01 rnd) by (intros n; unfold rnd; lra).
  split; [exact Hu |].
  destruct (handleGesture_victory st 1000 Victory 0.5 rnd 0%nat) as (_ & _ & H & _).
  exact (H Hu).
Defined.

(** * Further properties of the generators *)

(** ** The size of the cloud and the blocks of the geometric style *)

Section CloudSizes.

Variable hslHexString : R -> string.
Variable sampleFigure : TreeShape -> Gen Sample.
Variable foliageColor : string.
Variable treeStyle : TreeStyle.
Variable shape : TreeShape.

Lemma storeSample_positions (blocks : bool) (s : Sample) (acc : ShapePoints)
  (rnd : Random) (k : nat) :
  positions (fst (storeSample shape foliageColor blocks s acc rnd k)) =
  positions acc ++
  [mkParticle (sample_pos s) (sample_colorHex s) (boostOf shape foliageColor)].
Proof.
  unfold storeSample. destruct blocks; [rewrite !bind_run |]; reflexivity.
Qed.

Lemma storeSample_blocks (blocks : bool) (s : Sample) (acc : ShapePoints)
  (rnd : Random) (k : nat) :
  geometricItems (fst (storeSample shape foliageColor blocks s acc rnd k)) =
  if blocks then
    geometricItems acc ++
    [mkGeoItem (sample_pos s)
       (THREE.multiplyScalar (THREE.normalize (sample_pos s)) (15 + rnd k * 10))
       (sample_colorHex s) (if Rgt_dec (rnd (S k)) 0.5 then box else sphere)]
  else geometricItems acc.
Proof.
  unfold storeSample. destruct blocks; [rewrite !bind_run |]; reflexivity.
Qed.

Lemma TreeTsx_pointStep_store (i : nat) (acc : ShapePoints) (rnd : Random) (k : nat) :
  exists (s : Sample) (k' : nat),
    fst (TreeTsx.pointStep hslHexString sampleFigure foliageColor treeStyle shape
           i acc rnd k) =
    fst (storeSample shape foliageColor (TreeTsx.asBlocks treeStyle shape) s acc rnd k').
Proof.
  unfold TreeTsx.pointStep. rewrite bind_run. eexists. eexists. reflexivity.
Qed.

Lemma Part000_pointStep_store (i : nat) (acc : ShapePoints) (rnd : Random) (k : nat) :
  exists (s : Sample) (k' : nat),
    fst (Part000.pointStep hslHexString sampleFigure foliageColor treeStyle shape
           i acc rnd k) =
    fst (storeSample shape foliageColor (Part000.asBlocks treeStyle shape) s acc rnd k').
Proof.
  unfold Part000.pointStep. rewrite bind_run. eexists. eexists. reflexivity.
Qed.

(** X1: whatever the shape, the style and the colour, the generator stores
    exactly [effectiveLeafCount] particles, and one block per particle when
    the style is geometric and the shape is not one of the dense ones (none
    otherwise); the tree itself is dense, so it never yields blocks. *)
Theorem shapePoints_sizes (rnd : Random) (k : nat) :
  let pts1 := fst (TreeTsx.shapePoints hslHexString sampleFigure foliageColor
                     treeStyle shape rnd k) in
  let pts2 := fst (Part000.shapePoints hslHexString sampleFigure foliageColor
                     treeStyle shape rnd k) in
  List.length (positions pts1) = TreeTsx.effectiveLeafCount treeStyle shape /\
  List.length (geometricItems pts1) =
    (if TreeTsx.asBlocks treeStyle shape
     then TreeTsx.effectiveLeafCount treeStyle shape else 0%nat) /\
  List.length (positions pts2) = Part000.effectiveLeafCount treeStyle shape /\
  List.length (geometricItems pts2) =
    (if Part000.asBlocks treeStyle shape
     then Part000.effectiveLeafCount treeStyle shape else 0%nat) /\
  TreeTsx.asBlocks treeStyle tree = false /\
  Part000.asBlocks treeStyle tree = false.
Proof.
  intros pts1 pts2.
  assert (H1 : List.length (positions pts1) = (0 + TreeTsx.effectiveLeafCount treeStyle shape)%nat /\
               List.length (geometricItems pts1) =
               if TreeTsx.asBlocks treeStyle shape
               then (0 + TreeTsx.effectiveLeafCount treeStyle shape)%nat else 0%nat).
  { subst pts1. unfold TreeTsx.shapePoints.
    apply (for_loop_invariant
             (TreeTsx.pointStep hslHexString sampleFigure foliageColor treeStyle shape)
             rnd
             (fun i acc =>
                List.length (positions acc) = i /\
                List.length (geometricItems acc) =
                if TreeTsx.asBlocks treeStyle shape then i else 0%nat)).
    - intros i acc c [Hp Hg].
      destruct (TreeTsx_pointStep_store i acc rnd c) as (s & k' & ->).
      rewrite storeSample_positions, storeSample_blocks.
      destruct (TreeTsx.asBlocks treeStyle shape);
        rewrite ?length_app; cbn [List.length]; split; lia.
    - destruct (TreeTsx.asBlocks treeStyle shape); split; reflexivity. }
  assert (H2 : List.length (positions pts2) = (0 + Part000.effectiveLeafCount treeStyle shape)%nat /\
               List.length (geometricItems pts2) =
               if Part000.asBlocks treeStyle shape
               then (0 + Part000.effectiveLeafCount treeStyle shape)%nat else 0%nat).
  { subst pts2. unfold Part000.shapePoints.
    apply (for_loop_invariant
             (Part000.pointStep hslHexString sampleFigure foliageColor treeStyle shape)
             rnd
             (fun i acc =>
                List.length (positions acc) = i /\
                List.length (geometricItems acc) =
                if Part000.asBlocks treeStyle shape then i else 0%nat)).
    - intros i acc c [Hp Hg].
      destruct (Part000_pointStep_store i acc rnd c) as (s & k' & ->).
      rewrite storeSample_positions, storeSample_blocks.
      destruct (Part000.asBlocks treeStyle shape);
        rewrite ?length_app; cbn [List.length]; split; lia.
    - destruct (Part000.asBlocks treeStyle shape); split; reflexivity. }
  destruct H1 as [H1a H1b], H2 as [H2a H2b].
  split; [exact H1a |]. split; [exact H1b |].
  split; [exact H2a |]. split; [exact H2b |].
  split; destruct treeStyle; reflexivity.
Qed.

Lemma storeSample_scattered (s : Sample) (acc : ShapePoints) (rnd : Random) (k : nat) :
  uniform01 rnd ->
  Forall scatteredBlock (geometricItems acc) ->
  map geo_initialPos (geometricItems acc) = map particle_pos (positions acc) ->
  let acc' := fst (storeSample shape foliageColor true s acc rnd k) in
  Forall scatteredBlock (geometricItems acc') /\
  map geo_initialPos (geometricItems acc') = map particle_pos (positions acc').
Proof.
  intros Hu Hall Hmap acc'. subst acc'.
  rewrite storeSample_positions, storeSample_blocks. split.
  - apply Forall_app. split; [exact Hall |]. constructor; [| constructor].
    exists (15 + rnd k * 10). cbn [geo_initialPos geo_explodedPos].
    pose proof (Hu k). split; [lra |]. split; [reflexivity |].
    intros Hpos. apply (preJitter_length (sample_pos s)); [exact Hpos | lra].
  - rewrite !map_app, Hmap. reflexivity.
Qed.

(** X2: in the geometric style, every block starts at the position of the
    particle of its index and is scattered along the direction of that
    position, by a factor of [[15, 25)] that is its distance from the origin
    whenever the particle is not at the origin itself. *)
Theorem shapePoints_blocks (rnd : Random) (k : nat) :
  uniform01 rnd ->
  let pts1 := fst (TreeTsx.shapePoints hslHexString sampleFigure foliageColor
                     treeStyle shape rnd k) in
  let pts2 := fst (Part000.shapePoints hslHexString sampleFigure foliageColor
                     treeStyle shape rnd k) in
  Forall scatteredBlock (geometricItems pts1) /\
  Forall scatteredBlock (geometricItems pts2) /\
  (TreeTsx.asBlocks treeStyle shape = true ->
   map geo_initialPos (geometricItems pts1) = map particle_pos (positions pts1)) /\
  (Part000.asBlocks treeStyle shape = true ->
   map geo_initialPos (geometricItems pts2) = map particle_pos (positions pts2)).
Proof.
  intros Hu pts1 pts2.
  assert (H1 : Forall scatteredBlock (geometricItems pts1) /\
               (TreeTsx.asBlocks treeStyle shape = true ->
                map geo_initialPos (geometricItems pts1) =
                map particle_pos (positions pts1))).
  { subst pts1. unfold TreeTsx.shapePoints.
    apply (for_loop_invariant
             (TreeTsx.pointStep hslHexString sampleFigure foliageColor treeStyle shape)
             rnd
             (fun _ acc =>
                Forall scatteredBlock (geometricItems acc) /\
                (TreeTsx.asBlocks treeStyle shape = true ->
                 map geo_initialPos (geometricItems acc) =
                 map particle_pos (positions acc)))).
    - intros i acc c [Hall Hmap].
      destruct (TreeTsx_pointStep_store i acc rnd c) as (s & k' & ->).
      destruct (TreeTsx.asBlocks treeStyle shape).
      + destruct (storeSample_scattered s acc rnd k' Hu Hall (Hmap eq_refl)) as [Ha Hb].
        split; [exact Ha | intros _; exact Hb].
      + rewrite storeSample_blocks. split; [exact Hall | discriminate].
    - split; [constructor | reflexivity]. }
  assert (H2 : Forall scatteredBlock (geometricItems pts2) /\
               (Part000.asBlocks treeStyle shape = true ->
                map geo_initialPos (geometricItems pts2) =
                map particle_pos (positions pts2))).
  { subst pts2. unfold Part000.shapePoints.
    apply (for_loop_invariant
             (Part000.pointStep hslHexString sampleFigure foliageColor treeStyle shape)
             rnd
             (fun _ acc =>
                Forall scatteredBlock (geometricItems acc) /\
                (Part000.asBlocks treeStyle shape = true ->
                 map geo_initialPos (geometricItems acc) =
                 map particle_pos (positions acc)))).
    - intros i acc c [Hall Hmap].
      destruct (Part000_pointStep_store i acc rnd c) as (s & k' & ->).
      destruct (Part000.asBlocks treeStyle shape).
      + destruct (storeSample_scattered s acc rnd k' Hu Hall (Hmap eq_refl)) as [Ha Hb].
        split; [exact Ha | intros _; exact Hb].
      + rewrite storeSample_blocks. split; [exact Hall | discriminate].
    - split; [constructor | reflexivity]. }
  destruct H1 as [H1a H1b], H2 as [H2a H2b].
  split; [exact H1a |]. split; [exact H2a |]. split; [exact H1b | exact H2b].
Qed.

End CloudSizes.

(** The twin towers in the geometric style and the default green, every
    draw being 1/2. *)
Lemma shapePoints_blocks_witness :
  let rnd : Random := fun _ => 1 / 2 in
  let other : TreeShape -> Gen Sample :=
    fun _ => ret (mkSample (THREE.mkVector3 0 0 0) "#064e3b") in
  let pts1 := fst (TreeTsx.shapePoints (fun _ => "#000000"%string) other "#064e3b"
                     geometric twin_towers rnd 0%nat) in
  let pts2 := fst (Part000.shapePoints (fun _ => "#000000"%string) other "#064e3b"
                     geometric twin_towers rnd 0%nat) in
  Forall scatteredBlock (geometricItems pts1) /\
  Forall scatteredBlock (geometricItems pts2) /\
  (TreeTsx.asBlocks geometric twin_towers = true ->
   map geo_initialPos (geometricItems pts1) = map particle_pos (positions pts1)) /\
  (Part000.asBlocks geometric twin_towers = true ->
   map geo_initialPos (geometricItems pts2) = map particle_pos (positions pts2)).
Proof.
  apply (shapePoints_blocks (fun _ => "#000000"%string)
           (fun _ => ret (mkSample (THREE.mkVector3 0 0 0) "#064e3b")) "#064e3b"
           geometric twin_towers (fun _ => 1 / 2) 0%nat).
  intros n. lra.
Defined.

(** ** The cloud of the crystal *)



Section CrystalCloud.

Variable hslHexString : R -> string.
Variable sampleFigure : TreeShape -> Gen Sample.
Variable foliageColor : string.
Variable treeStyle : TreeStyle.


End CrystalCloud.


(** ** The string lights *)

Lemma for_loop_invariant_lt {St : Type} (body : nat -> St -> Gen St) (rnd : Random)
  (P : nat -> St -> Prop) (n : nat) :
  forall (start : nat),
    (forall i s k, (start <= i < start + n)%nat -> P i s ->
                   P (S i) (fst (body i s rnd k))) ->
    forall (s : St) (k : nat),
      P start s -> P (start + n)%nat (fst (for_loop n start body s rnd k)).
Proof.
  induction n as [| n IH]; intros start Hstep s k Hs.
  - cbn. rewrite Nat.add_0_r. exact Hs.
  - cbn [for_loop]. rewrite bind_run.
    replace (start + S n)%nat with (S start + n)%nat by lia.
    apply IH.
    + intros i s' k' Hi. apply Hstep. lia.
    + apply Hstep; [lia | exact Hs].
Qed.

Lemma INR_light_total : INR light_total = 900.
Proof. rewrite INR_IZR_INZ. reflexivity. Qed.

Lemma light_h_range (i : nat) : (i < 900)%nat -> -9 <= light_h i < 9.
Proof.
  intros Hi. unfold light_h, light_t. rewrite INR_light_total.
  assert (H0 : 0 <= INR i) by apply pos_INR.
  assert (H1 : INR i < 900).
  { replace 900 with (INR 900) by (rewrite INR_IZR_INZ; reflexivity).
    apply lt_INR. exact Hi. }
  lra.
Qed.

Lemma polar_sq_l (r t : R) :
  cos t * r * (cos t * r) + sin t * r * (sin t * r) = r * r.
Proof. rewrite <- (polar_sq r t). ring. Qed.

Lemma lightStepAt_lightString (radius : R -> TreeShape -> R) (shape : TreeShape)
  (rnd : Random) (i : nat) (acc : StringLights) (k : nat) :
  uniform01 rnd -> (i < 900)%nat ->
  List.length (light_points acc) = List.length (light_colors acc) /\
  (List.length (light_points acc) <= i)%nat /\
  Forall (litAt radius shape) (light_points acc) /\
  Forall paletteLight (light_colors acc) ->
  let acc' := fst (lightStepAt (radius (light_h i) shape) i acc rnd k) in
  List.length (light_points acc') = List.length (light_colors acc') /\
  (List.length (light_points acc') <= S i)%nat /\
  Forall (litAt radius shape) (light_points acc') /\
  Forall paletteLight (light_colors acc').
Proof.
  intros Hu Hi (Hlen & Hle & Hp & Hc) acc'. subst acc'. unfold lightStepAt.
  destruct (Rle_dec (radius (light_h i) shape) 0.1) as [Hskip | Hlit].
  - cbn [ret fst]. repeat split; try assumption. lia.
  - rewrite bind_run. cbn [Math_random ret fst snd light_points light_colors].
    rewrite !length_app. cbn [List.length].
    split; [lia |]. split; [lia |]. split.
    + apply Forall_app. split; [exact Hp |]. constructor; [| constructor].
      unfold litAt, horizontalRadius. cbn [THREE.x THREE.y THREE.z].
      split; [apply light_h_range; exact Hi |]. split; [lra |].
      rewrite polar_sq_l. apply sqrt_square. lra.
    + apply Forall_app. split; [exact Hc |]. constructor; [| constructor].
      destruct (pick_in lightPalette (rnd k) ltac:(discriminate) (Hu k)) as (s & Hs & Hin).
      exists s. rewrite Hs. split; [reflexivity | exact Hin].
Qed.

Lemma lights_loop (radius : R -> TreeShape -> R) (shape : TreeShape)
  (rnd : Random) (k : nat) :
  uniform01 rnd ->
  lightString radius shape
    (fst (for_loop light_total 0
            (fun i acc => lightStepAt (radius (light_h i) shape) i acc) noLights rnd k)).
Proof.
  intros Hu. unfold lightString.
  pose proof (for_loop_invariant_lt
                (fun i acc => lightStepAt (radius (light_h i) shape) i acc) rnd
                (fun i acc =>
                   List.length (light_points acc) = List.length (light_colors acc) /\
                   (List.length (light_points acc) <= i)%nat /\
                   Forall (litAt radius shape) (light_points acc) /\
                   Forall paletteLight (light_colors acc))
                light_total 0) as H.
  cbv beta in H.
  apply H.
  - intros i s c Hi Hinv. apply lightStepAt_lightString; [exact Hu | | exact Hinv].
    change light_total with 900%nat in Hi. lia.
  - cbn. repeat split; try constructor.
Qed.

Lemma lightString_none (radius : R -> TreeShape -> R) (shape : TreeShape) :
  lightString radius shape noLights.
Proof. unfold lightString. cbn. repeat split; try constructor; lia. Qed.

(** X4: the string of lights of a standard shape has as many colours as
    points, at most 900; every light sits exactly 0.2 outside the radius
    profile at its own height, a height of [[-9, 9)] at which the profile
    exceeds 0.1, and takes its colour from the palette of four.  The crystal
    has no string lights. *)
Theorem stringLights_placed (shape : TreeShape) (rnd : Random) (k : nat) :
  uniform01 rnd ->
  lightString TreeTsx.getShapeRadiusAtY shape (fst (TreeTsx_stringLights shape rnd k)) /\
  (shape <> stool ->
   lightString Part000.getShapeRadiusAtY shape
     (fst (Part000_stringLights shape rnd k))) /\
  fst (TreeTsx_stringLights diamond rnd k) = noLights /\
  fst (Part000_stringLights diamond rnd k) = noLights.
Proof.
  intros Hu. split; [| split; [| split; reflexivity]].
  - destruct shape; cbn [TreeTsx_stringLights].
    6: apply lightString_none.
    all: apply (lights_loop TreeTsx.getShapeRadiusAtY _ rnd k Hu).
  - intros Hns. destruct shape; cbn [Part000_stringLights].
    8: congruence.
    6: apply lightString_none.
    all: apply (lights_loop Part000.getShapeRadiusAtY _ rnd k Hu).
Qed.

(** The lights of the snowman, every draw being 1/2. *)
Lemma stringLights_placed_witness :
  let rnd : Random := fun _ => 1 / 2 in
  lightString TreeTsx.getShapeRadiusAtY snowman
    (fst (TreeTsx_stringLights snowman rnd 0%nat)) /\
  (snowman <> stool ->
   lightString Part000.getShapeRadiusAtY snowman
     (fst (Part000_stringLights snowman rnd 0%nat))) /\
  fst (TreeTsx_stringLights diamond rnd 0%nat) = noLights /\
  fst (Part000_stringLights diamond rnd 0%nat) = noLights.
Proof.
  apply (stringLights_placed snowman (fun _ => 1 / 2) 0%nat). intros n. lra.
Defined.

Lemma lights_count (radius : R -> TreeShape -> R) (shape : TreeShape) (N : nat)
  (rnd : Random) (k : nat) :
  (N <= 900)%nat ->
  (forall i : nat, (i < 900)%nat ->
                   (radius (light_h i) shape <= 0.1 <-> (N <= i)%nat)) ->
  List.length
    (light_points
       (fst (for_loop light_total 0
               (fun i acc => lightStepAt (radius (light_h i) shape) i acc)
               noLights rnd k)))
  = N.
Proof.
  intros HN Hthr.
  pose proof (for_loop_invariant_lt
                (fun i acc => lightStepAt (radius (light_h i) shape) i acc) rnd
                (fun i acc => List.length (light_points acc) = Nat.min i N)
                light_total 0) as H.
  cbv beta in H.
  transitivity (Nat.min (0 + light_total) N);
    [| change light_total with 900%nat; lia].
  apply H; [| reflexivity].
  intros i acc c Hi Hacc. change light_total with 900%nat in Hi.
  unfold lightStepAt.
  destruct (Rle_dec (radius (light_h i) shape) 0.1) as [Hskip | Hlit].
  - apply Hthr in Hskip; [| lia]. cbn [ret fst]. lia.
  - assert (Hn : ~ (N <= i)%nat) by (intros Hc; apply Hlit, Hthr; [lia | exact Hc]).
    rewrite bind_run. cbn [Math_random ret fst snd light_points].
    rewrite length_app. cbn [List.length]. lia.
Qed.

Lemma INR_lt_Z (i : nat) (z : Z) : (Z.of_nat i < z)%Z -> INR i <= IZR z - 1.
Proof.
  intros H. rewrite INR_IZR_INZ.
  replace (IZR z - 1) with (IZR (z - 1)) by (rewrite minus_IZR; reflexivity).
  apply IZR_le. lia.
Qed.

Lemma INR_ge_Z (i : nat) (z : Z) : (z <= Z.of_nat i)%Z -> IZR z <= INR i.
Proof. intros H. rewrite INR_IZR_INZ. apply IZR_le. exact H. Qed.

Lemma cone_light_threshold (i : nat) :
  coneRadiusAtY (light_h i) <= 0.1 <-> (890 <= i)%nat.
Proof.
  unfold coneRadiusAtY, light_h, light_t. rewrite INR_light_total.
  destruct (Nat.le_gt_cases 890 i) as [Hge | Hlt].
  - split; [intros _; exact Hge | intros _].
    pose proof (INR_ge_Z i 890 ltac:(lia)) as H.
    apply Rmax_lub; lra.
  - split; [| intros H; lia].
    intros Hr. exfalso.
    pose proof (INR_lt_Z i 890 ltac:(lia)) as H.
    pose proof (Rmax_r 0 (9 * (1 - (INR i / 900 * 18 - 9 + 9) / 18))) as Hm.
    lra.
Qed.

Lemma snowman_light_threshold (i : nat) :
  snowmanRadiusAtY (light_h i) <= 0.1 <-> (825 <= i)%nat.
Proof.
  assert (Hh : light_h i = INR i / 50 - 9).
  { unfold light_h, light_t. rewrite INR_light_total. field. }
  rewrite Hh.
  destruct (Nat.le_gt_cases 825 i) as [Hge | Hlt].
  - split; [intros _; exact Hge | intros _].
    pose proof (INR_ge_Z i 825 ltac:(lia)) as H.
    unfold snowmanRadiusAtY.
    destruct (Rlt_dec (INR i / 50 - 9) (-3)); [lra |].
    destruct (Rlt_dec (INR i / 50 - 9) 3); [lra |]. cbv zeta.
    rewrite snowman_band_zero; [lra | nra].
  - split; [| intros H; lia].
    intros Hr. exfalso.
    pose proof (INR_lt_Z i 825 ltac:(lia)) as H.
    pose proof (pos_INR i) as H0.
    unfold snowmanRadiusAtY in Hr.
    destruct (Rlt_dec (INR i / 50 - 9) (-3)) as [H1 | H1];
      [| destruct (Rlt_dec (INR i / 50 - 9) 3) as [H2 | H2]]; cbv zeta in Hr.
    + assert (Hb : 1 <= Rmax 0 (sqrt (Rmax 0 (4.5 * 4.5 - (INR i / 50 - 9 - -6) * (INR i / 50 - 9 - -6)))))
        by (apply band_ge; nra).
      lra.
    + assert (Hb : 1 <= Rmax 0 (sqrt (Rmax 0 (3.5 * 3.5 - (INR i / 50 - 9 - 0) * (INR i / 50 - 9 - 0)))))
        by (apply band_ge; nra).
      lra.
    + assert (Hb : 0.2 <= Rmax 0 (sqrt (Rmax 0 (2.5 * 2.5 - (INR i / 50 - 9 - 5) * (INR i / 50 - 9 - 5)))))
        by (apply band_ge; nra).
      lra.
Qed.

Lemma bright_light_threshold (radius : R -> TreeShape -> R) (shape : TreeShape)
  (i : nat) :
  (forall y, 3 <= radius y shape) -> (i < 900)%nat ->
  radius (light_h i) shape <= 0.1 <-> (900 <= i)%nat.
Proof.
  intros Hr Hi. pose proof (Hr (light_h i)). split; [lra | lia].
Qed.

Lemma santa_profile_low (y : R) :
  3 <= TreeTsx.getShapeRadiusAtY y santa /\ 3 <= Part000.getShapeRadiusAtY y santa.
Proof.
  cbn [TreeTsx.getShapeRadiusAtY Part000.getShapeRadiusAtY].
  pose proof (santaRadiusAtY_bounds y). lra.
Qed.

Lemma reindeer_profile_low (y : R) :
  3 <= TreeTsx.getShapeRadiusAtY y reindeer /\
  3 <= Part000.getShapeRadiusAtY y reindeer.
Proof.
  cbn [TreeTsx.getShapeRadiusAtY Part000.getShapeRadiusAtY].
  destruct (Rlt_dec y (-2)); [| destruct (Rlt_dec y 4)]; lra.
Qed.

Lemma stoolLights_loop (rnd : Random) (k : nat) :
  let l := fst (for_loop 120 0 stoolLightStep noLights rnd k) in
  List.length (light_points l) = 120%nat /\
  Forall (fun c => c = GoldLight) (light_colors l) /\
  Forall (fun p => -9 <= THREE.y p < 9 /\ 4.8 <= horizontalRadius p <= 6.6)
    (light_points l).
Proof.
  intros l. subst l.
  pose proof (for_loop_invariant_lt stoolLightStep rnd
                (fun i acc =>
                   List.length (light_points acc) = i /\
                   Forall (fun c => c = GoldLight) (light_colors acc) /\
                   Forall (fun p => -9 <= THREE.y p < 9 /\
                                    4.8 <= horizontalRadius p <= 6.6)
                     (light_points acc)) 120 0) as H.
  cbv beta in H. apply H.
  - intros i acc c Hi (Hn & Hc & Hp). unfold stoolLightStep. cbv zeta.
    cbn [ret fst light_points light_colors].
    rewrite length_app. cbn [List.length]. split; [lia |].
    split; [apply Forall_app; split; [exact Hc | constructor; [reflexivity | constructor]] |].
    apply Forall_app. split; [exact Hp |]. constructor; [| constructor].
    pose proof (pos_INR i) as H0.
    pose proof (INR_lt_Z i 120 ltac:(lia)) as H1.
    set (t := INR i / 120) in *.
    assert (Ht : 0 <= t <= 119 / 120) by (unfold t; lra).
    pose proof (SIN_bound (t * 12 * PI * 2 * 5)) as Hs.
    unfold horizontalRadius. cbn [THREE.x THREE.y THREE.z].
    rewrite polar_sq, sqrt_square by lra.
    lra.
  - cbn. repeat split; constructor.
Qed.

(** X5: the lights that are lit.  On the four cone shapes the last ten of
    the 900 points meet a profile of at most 0.1 and are skipped: 890 lights.
    On the snowman the string stops where the head closes: 825 lights.  On
    Santa and the reindeer all 900 are lit.  The stool of the later revision
    has its own 120 gold lights, between 4.8 and 6.6 from the axis. *)
Theorem stringLights_counts (shape : TreeShape) (rnd : Random) (k : nat) :
  let n1 := List.length (light_points (fst (TreeTsx_stringLights shape rnd k))) in
  let l2 := fst (Part000_stringLights shape rnd k) in
  let n2 := List.length (light_points l2) in
  match shape with
  | tree | real_tree | twin_towers => n1 = 890%nat /\ n2 = 890%nat
  | snowman => n1 = 825%nat /\ n2 = 825%nat
  | santa | reindeer => n1 = 900%nat /\ n2 = 900%nat
  | diamond => n1 = 0%nat /\ n2 = 0%nat
  | stool =>
      n2 = 120%nat /\
      Forall (fun c => c = GoldLight) (light_colors l2) /\
      Forall (fun p => -9 <= THREE.y p < 9 /\ 4.8 <= horizontalRadius p <= 6.6)
        (light_points l2)
  end.
Proof.
  intros n1 l2 n2. subst n1 l2 n2.
  destruct shape; cbn [TreeTsx_stringLights Part000_stringLights].
  1, 5, 7:
    (split;
     [apply (lights_count TreeTsx.getShapeRadiusAtY _ 890 rnd k ltac:(lia))
     | apply (lights_count Part000.getShapeRadiusAtY _ 890 rnd k ltac:(lia))];
     intros i _; apply cone_light_threshold).
  - split;
      [apply (lights_count TreeTsx.getShapeRadiusAtY snowman 825 rnd k ltac:(lia))
      | apply (lights_count Part000.getShapeRadiusAtY snowman 825 rnd k ltac:(lia))];
      intros i _; apply snowman_light_threshold.
  - split;
      [apply (lights_count TreeTsx.getShapeRadiusAtY reindeer 900 rnd k ltac:(lia))
      | apply (lights_count Part000.getShapeRadiusAtY reindeer 900 rnd k ltac:(lia))];
      intros i Hi; apply bright_light_threshold;
      try exact Hi; intros y; apply reindeer_profile_low.
  - split;
      [apply (lights_count TreeTsx.getShapeRadiusAtY santa 900 rnd k ltac:(lia))
      | apply (lights_count Part000.getShapeRadiusAtY santa 900 rnd k ltac:(lia))];
      intros i Hi; apply bright_light_threshold;
      try exact Hi; intros y; apply santa_profile_low.
  - split; reflexivity.
  - apply stoolLights_loop.
Qed.

(** ** The gems and the garland of the crystal *)

Lemma diamondStep_gemPlaced (rnd : Random) (i : nat) (data : list Gem) (k : nat) :
  uniform01 rnd ->
  exists g : Gem, fst (diamondStep i data rnd k) = data ++ [g] /\ gemPlaced g.
Proof.
  intros Hu. unfold diamondStep. rewrite !bind_run. cbn [Math_random ret fst snd].
  eexists. split; [reflexivity |].
  unfold gemPlaced. cbn [gem_position gem_scale gem_rotation THREE.x THREE.y THREE.z].
  pose proof (Hu k) as H1. pose proof (Hu (S k)) as H2.
  pose proof (Hu (S (S (S k)))) as H4. pose proof (Hu (S (S (S (S k))))) as H5.
  pose proof (Hu (S (S (S (S (S k)))))) as H6.
  pose proof (Hu (S (S (S (S (S (S k))))))) as H7.
  pose proof PI_RGT_0 as Hpi.
  set (h := rnd k * 18 - 18 / 2).
  assert (Hcone : Rmax 0 (9 * (1 - (h + 9) / 18)) = coneRadiusAtY h) by reflexivity.
  rewrite Hcone.
  assert (Hc : coneRadiusAtY h = 9 * (1 - rnd k)).
  { rewrite coneRadiusAtY_inside by (unfold h; lra). unfold h. field. }
  unfold horizontalRadius. cbn [THREE.x THREE.z].
  rewrite polar_sq, sqrt_square by (rewrite Hc; nra).
  rewrite Hc. unfold h.
  repeat split; try lra; try nra.
Qed.

(** X6: each of the 150 gems of the crystal floats at a height of [[-9, 9)],
    within 10% of the surface of the cone at that height, with a scale of
    [[0.5, 0.9)] and three rotation angles of [[0, pi)]. *)
Theorem diamondsData_placed (rnd : Random) (k : nat) :
  uniform01 rnd ->
  let gems := fst (diamondsData diamond rnd k) in
  List.length gems = 150%nat /\ Forall gemPlaced gems.
Proof.
  intros Hu gems. subst gems. unfold diamondsData. cbn [TreeShape_eqb negb].
  change diamondCount with (0 + 150)%nat.
  apply (for_loop_invariant diamondStep rnd
           (fun i d => List.length d = i /\ Forall gemPlaced d)).
  - intros i d c [Hn Hall].
    destruct (diamondStep_gemPlaced rnd i d c Hu) as (g & -> & Hg).
    rewrite length_app. cbn [List.length]. split; [lia |].
    apply Forall_app. split; [exact Hall | constructor; [exact Hg | constructor]].
  - split; [reflexivity | constructor].
Qed.

Lemma diamondsData_placed_witness :
  let gems := fst (diamondsData diamond (fun _ => 1 / 2) 0%nat) in
  List.length gems = 150%nat /\ Forall gemPlaced gems.
Proof. apply (diamondsData_placed (fun _ => 1 / 2) 0%nat). intros n. lra. Defined.

Lemma pearl_t_range (i : nat) : (i < 1200)%nat -> 0 <= drape_t i < 1.
Proof.
  intros Hi. unfold drape_t.
  pose proof (pos_INR i). pose proof (INR_lt_Z i 1200 ltac:(lia)). lra.
Qed.

(** X7: the garland never enters the crystal.  Before its jitter, pearl [i]
    lies at least 0.2 outside the cone at its own height, a height between
    -9.8 and 9; the jitter moves it by at most 0.025 along each axis, and its
    scale lies in [[0.1, 0.2)]. *)
Theorem pearls_outside_cone (rnd : Random) (k i : nat) :
  uniform01 rnd -> (i < 1200)%nat ->
  coneRadiusAtY (pearl_h 0 i) + 0.2 <= pearl_r 0 i /\
  -9.8 <= pearl_h 0 i <= 9 /\
  exists p : Pearl,
    nth_error (fst (pearlsData diamond rnd k)) i = Some p /\
    Rabs (THREE.x (pearl_position p) - pearl_r 0 i * cos (pearl_angle 0 i)) <= 0.025 /\
    Rabs (THREE.y (pearl_position p) - pearl_h 0 i) <= 0.025 /\
    Rabs (THREE.z (pearl_position p) - pearl_r 0 i * sin (pearl_angle 0 i)) <= 0.025 /\
    0.1 <= pearl_scale p < 0.2.
Proof.
  intros Hu Hi.
  pose proof (pearl_t_range i Hi) as Ht.
  pose proof (drape_phase_range i) as Hphi.
  assert (Hh : pearl_h 0 i = 9 - drape_t i * 18 - (1 - drape_phase i) * 0.8).
  { rewrite pearl_h_spec. reflexivity. }
  assert (Hr : pearl_r 0 i =
               Rmax 0.2 (9 * (1 - (9 - drape_t i * 18 + 9) / 18)) + 0.2
               + (1 - drape_phase i) * 0.5).
  { rewrite pearl_r_spec. reflexivity. }
  split; [| split].
  - rewrite Hr, Hh. unfold coneRadiusAtY.
    pose proof (Rmax_r 0.2 (9 * (1 - (9 - drape_t i * 18 + 9) / 18))) as Hm.
    pose proof (Rmax_l 0.2 (9 * (1 - (9 - drape_t i * 18 + 9) / 18))) as Hl.
    assert (Hc : Rmax 0 (9 * (1 - (9 - drape_t i * 18 - (1 - drape_phase i) * 0.8 + 9) / 18))
                 <= Rmax 0.2 (9 * (1 - (9 - drape_t i * 18 + 9) / 18))
                    + (1 - drape_phase i) * 0.5)
      by (apply Rmax_lub; lra).
    lra.
  - rewrite Hh. lra.
  - exists (pearlAt 0 i rnd (4 * i + k)%nat). split.
    + rewrite pearlsData_run. cbn [fst].
      rewrite nth_error_map_seq by exact Hi. reflexivity.
    + unfold pearlAt. cbn [pearl_position pearl_scale THREE.x THREE.y THREE.z].
      pose proof (Hu (4 * i + k)%nat). pose proof (Hu (S (4 * i + k))).
      pose proof (Hu (S (S (4 * i + k)))). pose proof (Hu (S (S (S (4 * i + k))))).
      repeat split; try lra; apply Rabs_le; lra.
Qed.

Lemma pearls_outside_cone_witness :
  coneRadiusAtY (pearl_h 0 7) + 0.2 <= pearl_r 0 7 /\
  -9.8 <= pearl_h 0 7 <= 9 /\
  exists p : Pearl,
    nth_error (fst (pearlsData diamond (fun _ => 1 / 2) 0%nat)) 7 = Some p /\
    Rabs (THREE.x (pearl_position p) - pearl_r 0 7 * cos (pearl_angle 0 7)) <= 0.025 /\
    Rabs (THREE.y (pearl_position p) - pearl_h 0 7) <= 0.025 /\
    Rabs (THREE.z (pearl_position p) - pearl_r 0 7 * sin (pearl_angle 0 7)) <= 0.025 /\
    0.1 <= pearl_scale p < 0.2.
Proof.
  apply (pearls_outside_cone (fun _ => 1 / 2) 0%nat 7); [intros n; lra | lia].
Defined.

(** ** Where the decorations hang *)

Lemma hungInCone_polar (u t : R) :
  0 <= u < 1 ->
  hungInCone
    (THREE.mkVector3
       (radiusBottom * (1 - u * height / height) * 0.9 * cos t)
       (u * height - height / 2)
       (radiusBottom * (1 - u * height / height) * 0.9 * sin t)).
Proof.
  intros Hu. unfold hungInCone, horizontalRadius. cbn [THREE.x THREE.y THREE.z].
  assert (E : u * height / height = u) by (unfold height; field).
  rewrite E. unfold radiusBottom, height.
  rewrite polar_sq, sqrt_square by lra.
  split; [lra |]. split; [field |].
  unfold coneRadiusAtY.
  apply Rle_trans with (9 * (1 - (u * 18 - 18 / 2 + 9) / 18)); [lra | apply Rmax_r].
Qed.

Section DecorationPlacement.

Variable Math_atan2 : R -> R -> R.
Variable silver : bool.

Lemma decorationStep_cone (shape : TreeShape) (rnd : Random) (i : nat)
  (d : Decorations) (k : nat) :
  uniform01 rnd -> shape = tree \/ shape = twin_towers ->
  Forall (baublePlaced silver) (baubles d) -> Forall giftPlaced (gifts d) ->
  let d' := fst (decorationStep Math_atan2 shape silver i d rnd k) in
  Forall (baublePlaced silver) (baubles d') /\ Forall giftPlaced (gifts d').
Proof.
  intros Hu Hshape Hb Hg d'. subst d'.
  pose proof (Hu k) as H0. pose proof (Hu (S k)) as H1.
  assert (Hscale : 0.2 <= 0.2 + rnd k * 0.3 < 0.5) by lra.
  pose proof (hungInCone_polar (rnd (S k)) (rnd (S (S k)) * 2 * PI) H1) as Hpos.
  destruct Hshape; subst shape; unfold decorationStep;
    rewrite !bind_run; cbn [Math_random fst snd];
    destruct (Rgt_dec _ 0.3); rewrite !bind_run;
    cbn [Math_random ret fst snd baubles gifts].
  1, 3: (split; [| exact Hg]; apply Forall_app; split; [exact Hb |];
         constructor; [| constructor];
         destruct (pick_in (baublePalette silver) (rnd (S (S (S (S k)))))
                     ltac:(destruct silver; discriminate) (Hu _)) as (c & Hc & Hin);
         split; [exact Hpos |]; split; [exact Hscale |];
         exists c; split; [exact Hc | exact Hin]).
  all: (split; [exact Hb |]; apply Forall_app; split; [exact Hg |];
        constructor; [| constructor];
        destruct (pick_in giftPalette (rnd (S (S (S (S k)))))
                    ltac:(discriminate) (Hu _)) as (c & Hc & Hin);
        split; [exact Hpos |]; split; [exact Hscale |];
        exists c; split; [exact Hc | exact Hin]).
Qed.

(** X8: on the tree and on the twin towers every bauble and every gift
    hangs inside the cone, at a height of [[-9, 9)] and at nine tenths of the
    radius the particles reach there, with a scale of [[0.2, 0.5)]; baubles
    take their colour from the palette of the colour mode, so that in silver
    mode none is green or gold, and gifts are purple or pink. *)
Theorem decorations_hang (shape : TreeShape) (rnd : Random) (k : nat) :
  uniform01 rnd -> shape = tree \/ shape = twin_towers ->
  let d := fst (decorations Math_atan2 shape silver rnd k) in
  Forall (baublePlaced silver) (baubles d) /\
  Forall giftPlaced (gifts d) /\
  (silver = true ->
   Forall (fun b => bauble_color b <> Some "#22c55e"%string /\
                    bauble_color b <> Some "#FFD700"%string) (baubles d)).
Proof.
  intros Hu Hshape d.
  assert (H : Forall (baublePlaced silver) (baubles d) /\ Forall giftPlaced (gifts d)).
  { subst d.
    assert (Hrun : decorations Math_atan2 shape silver =
                   for_loop 200 0 (decorationStep Math_atan2 shape silver) noDecorations)
      by (destruct Hshape; subst shape; reflexivity).
    rewrite Hrun.
    apply (for_loop_invariant (decorationStep Math_atan2 shape silver) rnd
             (fun _ d => Forall (baublePlaced silver) (baubles d) /\
                         Forall giftPlaced (gifts d))).
    - intros i d c [Hb Hg]. apply decorationStep_cone; assumption.
    - split; constructor. }
  destruct H as [Hb Hg]. split; [exact Hb |]. split; [exact Hg |].
  intros ->. eapply Forall_impl; [| exact Hb].
  intros b (_ & _ & c & Hc & Hin). rewrite Hc.
  cbn in Hin. split; intros [= E]; subst c;
    repeat (destruct Hin as [Hin | Hin]; [discriminate Hin |]); exact Hin.
Qed.

Lemma flower_height (i : nat) :
  (i < 24)%nat ->
  let y := THREE.y (flowerPosition i) in
  y = -7.5 + INR i * (15 / 23) /\ -7.5 <= y <= 7.5.
Proof.
  intros Hi y. subst y. unfold flowerPosition. cbv zeta. cbn [THREE.y].
  pose proof (pos_INR i). pose proof (INR_lt_Z i 24 ltac:(lia)) as Hlt.
  assert (E : INR 24 - 1 = 23) by (rewrite INR_IZR_INZ; cbn; lra).
  rewrite E. split; [field | lra].
Qed.

Lemma decorationStep_flower (rnd : Random) (i : nat) (d : Decorations) (k : nat) :
  uniform01 rnd ->
  exists f : Flower,
    fst (decorationStep Math_atan2 real_tree silver i d rnd k) =
      mkDecorations (baubles d) (gifts d) (ribbons d) (flowers d ++ [f])
        (geometricDecors d) /\
    flower_position f = flowerPosition i /\ flowerDressed f.
Proof.
  intros Hu. unfold decorationStep. rewrite !bind_run. cbn [Math_random ret fst snd].
  eexists. split; [reflexivity |]. cbn [flower_position].
  split; [reflexivity |].
  unfold flowerDressed. cbn [flower_scale flower_color].
  pose proof (Hu (S k)). split; [lra |].
  destruct (pick_in flowerPalette (rnd (S (S k))) ltac:(discriminate) (Hu _))
    as (c & Hc & Hin).
  exists c. split; [exact Hc | exact Hin].
Qed.

(** X9: the 24 flowers of the cherry tree stand where [flowerPosition]
    puts them, whatever the random draws: evenly spaced in height from -7.5
    to 7.5 and more than 0.9 outside the cone at their height.  The draws
    only choose the scale, of [[0.8, 1.3)], and the colour, one of the three
    of the palette. *)
Theorem flowers_placed (rnd : Random) (k : nat) :
  uniform01 rnd ->
  let fl := flowers (fst (decorations Math_atan2 real_tree silver rnd k)) in
  map flower_position fl = map flowerPosition (seq 0 24) /\
  Forall flowerDressed fl /\
  (forall i : nat, (i < 24)%nat ->
     THREE.y (flowerPosition i) = -7.5 + INR i * (15 / 23) /\
     -7.5 <= THREE.y (flowerPosition i) <= 7.5 /\
     coneRadiusAtY (THREE.y (flowerPosition i)) + 0.9
       < horizontalRadius (flowerPosition i)).
Proof.
  intros Hu fl. split; [| split].
  - subst fl. unfold decorations.
    cbn [supportsDecor TreeShape_eqb orb negb decorationCount].
    change 24%nat with (0 + 24)%nat at 2.
    apply (for_loop_invariant (decorationStep Math_atan2 real_tree silver) rnd
             (fun i d => map flower_position (flowers d) = map flowerPosition (seq 0 i)));
      [| reflexivity].
    intros i d c Hd.
    destruct (decorationStep_flower rnd i d c Hu) as (f & -> & Hp & _).
    cbn [flowers]. rewrite map_app, Hd, seq_S, map_app. cbn [map]. rewrite Hp.
    reflexivity.
  - subst fl. unfold decorations.
    cbn [supportsDecor TreeShape_eqb orb negb decorationCount].
    apply (for_loop_invariant (decorationStep Math_atan2 real_tree silver) rnd
             (fun _ d => Forall flowerDressed (flowers d))); [| constructor].
    intros i d c Hd.
    destruct (decorationStep_flower rnd i d c Hu) as (f & -> & _ & Hf).
    cbn [flowers]. apply Forall_app. split; [exact Hd | constructor; [exact Hf | constructor]].
  - intros i Hi. destruct (flower_height i Hi) as [Hy Hrange].
    split; [exact Hy |]. split; [exact Hrange |].
    assert (Hform : flowerPosition i =
                    THREE.mkVector3
                      ((radiusBottom * (1 - (THREE.y (flowerPosition i) + 9) / 18) + 1.0)
                       * 1.1 * cos (INR i * (PI * (3 - sqrt 5)) * 3))
                      (THREE.y (flowerPosition i))
                      ((radiusBottom * (1 - (THREE.y (flowerPosition i) + 9) / 18) + 1.0)
                       * 1.1 * sin (INR i * (PI * (3 - sqrt 5)) * 3)))
      by reflexivity.
    set (y := THREE.y (flowerPosition i)) in *. clearbody y.
    unfold horizontalRadius. rewrite Hform. cbn [THREE.x THREE.z].
    rewrite polar_sq, sqrt_square by (unfold radiusBottom; lra).
    rewrite coneRadiusAtY_inside by lra. unfold radiusBottom. lra.
Qed.

End DecorationPlacement.

Lemma decorations_hang_witness :
  let d := fst (decorations (fun _ _ => 0) tree true (fun _ => 1 / 2) 0%nat) in
  Forall (baublePlaced true) (baubles d) /\
  Forall giftPlaced (gifts d) /\
  (true = true ->
   Forall (fun b => bauble_color b <> Some "#22c55e"%string /\
                    bauble_color b <> Some "#FFD700"%string) (baubles d)).
Proof.
  apply (decorations_hang (fun _ _ => 0) true tree (fun _ => 1 / 2) 0%nat).
  - intros n. lra.
  - left. reflexivity.
Defined.

Lemma flowers_placed_witness :
  let fl := flowers (fst (decorations (fun _ _ => 0) real_tree false
                            (fun _ => 1 / 2) 0%nat)) in
  map flower_position fl = map flowerPosition (seq 0 24) /\
  Forall flowerDressed fl /\
  (forall i : nat, (i < 24)%nat ->
     THREE.y (flowerPosition i) = -7.5 + INR i * (15 / 23) /\
     -7.5 <= THREE.y (flowerPosition i) <= 7.5 /\
     coneRadiusAtY (THREE.y (flowerPosition i)) + 0.9
       < horizontalRadius (flowerPosition i)).
Proof.
  apply (flowers_placed (fun _ _ => 0) false (fun _ => 1 / 2) 0%nat).
  intros n. lra.
Defined.

(** ** Photo items *)

Lemma photoItemsOf_from (layout : list SlotLayout) :
  forall (photos : list PhotoData) (s : nat),
    (s + List.length photos <= List.length layout)%nat ->
    map (fun ip : nat * PhotoData =>
           let (i, photo) := ip in
           (match nth_error layout i with
            | Some itemLayout => Some itemLayout
            | None => nth_error layout 0
            end, photo))
        (combine (seq s (List.length photos)) photos)
    = combine (map Some (skipn s layout)) photos.
Proof.
  intros ps. induction ps as [| p ps IH]; intros s Hs.
  - cbn. destruct (map Some (skipn s layout)); reflexivity.
  - cbn [List.length] in Hs. cbn [List.length seq combine map].
    destruct (nth_error layout s) as [l |] eqn:E.
    + rewrite (IH (S s)) by lia.
      assert (Hsk : skipn s layout = l :: skipn (S s) layout).
      { clear - E. revert s E. induction layout as [| a layout IHl]; intros [| s] E;
          try discriminate.
        - injection E as ->. reflexivity.
        - cbn in E. cbn [skipn]. rewrite (IHl s E). reflexivity. }
      rewrite Hsk. reflexivity.
    + apply nth_error_None in E. lia.
Qed.

Section PhotoItems.

Variable Quaternion : Type.
Variable lookAt : THREE.Vector3 -> THREE.Vector3 -> Quaternion.
Variable rotateY : Quaternion -> R -> Quaternion.
Variable rotationOf : Quaternion -> THREE.Euler.

(** X10: every photo is bound to the slot of its own index.  Whatever the
    album, the shape and the draws, the items built from the layout of that
    album pair photo [i] with slot [i] of the layout: the fallback on slot 0
    is never taken, no photo is left without a slot and there are as many
    items as photos. *)
Theorem photoItems_bound (photos : list PhotoData) (shape : TreeShape)
  (rnd : Random) (k : nat) :
  let layout1 :=
    fst (TreeTsx.layout Quaternion lookAt rotateY rotationOf photos shape rnd k) in
  let layout2 :=
    fst (Part000.layout Quaternion lookAt rotateY rotationOf photos shape rnd k) in
  photoItemsOf photos layout1 = combine (map Some layout1) photos /\
  photoItemsOf photos layout2 = combine (map Some layout2) photos /\
  List.length (photoItemsOf photos layout1) = List.length photos /\
  List.length (photoItemsOf photos layout2) = List.length photos.
Proof.
  intros layout1 layout2.
  assert (H1 : (List.length photos <= List.length layout1)%nat).
  { subst layout1. rewrite TreeTsx_layout_run. cbn [fst].
    rewrite length_map, length_seq. unfold TreeTsx.layoutCount.
    destruct photos; cbn; lia. }
  assert (H2 : (List.length photos <= List.length layout2)%nat).
  { subst layout2. rewrite Part000_layout_run. cbn [fst].
    rewrite length_map, length_seq. unfold Part000.layoutCount.
    destruct photos; cbn; lia. }
  assert (E1 : photoItemsOf photos layout1 = combine (map Some layout1) photos)
    by (apply (photoItemsOf_from layout1 photos 0); lia).
  assert (E2 : photoItemsOf photos layout2 = combine (map Some layout2) photos)
    by (apply (photoItemsOf_from layout2 photos 0); lia).
  split; [exact E1 |]. split; [exact E2 |].
  rewrite E1, E2, !length_combine, !length_map. split; lia.
Qed.

End PhotoItems.

(** ** More on the frame update *)

Lemma lerp_displacement (p t : THREE.Vector3) (a : R) :
  THREE.distanceTo (THREE.lerp p t a) p = Rabs a * THREE.distanceTo p t.
Proof.
  unfold THREE.distanceTo.
  replace (THREE.distanceToSquared (THREE.lerp p t a) p)
    with ((a * a) * THREE.distanceToSquared p t)
    by (unfold THREE.distanceToSquared, THREE.lerp; cbn [THREE.x THREE.y THREE.z]; ring).
  rewrite sqrt_mult_alt by apply (Rle_0_sqr a).
  f_equal. rewrite <- sqrt_Rsqr_abs. reflexivity.
Qed.

(** X11: no jump.  In one frame a mounted photo group moves by
    [|2 delta|] times its distance to the target the flag selects, whichever
    target that is: flipping the flag in the middle of a transition turns the
    group around without a jump.  With [delta = 1/2] the group lands on its
    target. *)
Theorem frame_step_bounded (flag : bool) (delta : R) (item : PhotoItem)
  (cur : Object3D) :
  item_ref item = Some cur ->
  exists cur' : Object3D,
    item_ref (updatePhotoItem flag delta item) = Some cur' /\
    THREE.distanceTo (position cur') (position cur) =
      Rabs (delta * 2) * THREE.distanceTo (position cur) (itemTarget flag item) /\
    (delta = 1 / 2 -> position cur' = itemTarget flag item).
Proof.
  intros Href. unfold updatePhotoItem. rewrite Href.
  eexists. split; [reflexivity |]. cbn [position]. fold (itemTarget flag item).
  split; [apply lerp_displacement |].
  intros ->. unfold THREE.lerp.
  destruct (itemTarget flag item) as [tx ty tz], (position cur) as [px py pz].
  cbn [THREE.x THREE.y THREE.z]. f_equal; field.
Qed.

Lemma frame_step_bounded_witness :
  exists cur' : Object3D,
    item_ref
      (updatePhotoItem true (1 / 60)
         (mkPhotoItem
            (mkSlotLayout (THREE.mkVector3 0 0 0) (THREE.mkVector3 0 10 0)
               (THREE.mkEuler 0 0 0))
            (Some (mkObject3D (THREE.mkVector3 1 0 0) (THREE.mkVector3 1 1 1)
                     (THREE.mkEuler 0 0 0)))
            (mkPhotoData "photo" "blob:photo" 0 false))) = Some cur' /\
    THREE.distanceTo (position cur') (THREE.mkVector3 1 0 0) =
      Rabs (1 / 60 * 2) *
      THREE.distanceTo (THREE.mkVector3 1 0 0) (THREE.mkVector3 0 10 0) /\
    (1 / 60 = 1 / 2 -> position cur' = THREE.mkVector3 0 10 0).
Proof.
  apply (frame_step_bounded true (1 / 60)
           (mkPhotoItem
              (mkSlotLayout (THREE.mkVector3 0 0 0) (THREE.mkVector3 0 10 0)
                 (THREE.mkEuler 0 0 0))
              (Some (mkObject3D (THREE.mkVector3 1 0 0) (THREE.mkVector3 1 1 1)
                       (THREE.mkEuler 0 0 0)))
              (mkPhotoData "photo" "blob:photo" 0 false))
           (mkObject3D (THREE.mkVector3 1 0 0) (THREE.mkVector3 1 1 1)
              (THREE.mkEuler 0 0 0))).
  reflexivity.
Defined.

Lemma updatePhotoItem_keeps (flag : bool) (delta : R) (item : PhotoItem) :
  item_layout (updatePhotoItem flag delta item) = item_layout item /\
  item_photo (updatePhotoItem flag delta item) = item_photo item /\
  (item_ref item = None -> updatePhotoItem flag delta item = item) /\
  (item_ref (updatePhotoItem flag delta item) = None <-> item_ref item = None).
Proof.
  unfold updatePhotoItem. destruct (item_ref item) eqn:E; cbn.
  - repeat split; try discriminate.
  - rewrite E. repeat split; reflexivity.
Qed.

Lemma iter_keeps (n : nat) (flag : bool) (delta : R) (item : PhotoItem) :
  item_layout (Nat.iter n (updatePhotoItem flag delta) item) = item_layout item /\
  item_photo (Nat.iter n (updatePhotoItem flag delta) item) = item_photo item /\
  (item_ref item = None -> Nat.iter n (updatePhotoItem flag delta) item = item) /\
  (item_ref (Nat.iter n (updatePhotoItem flag delta) item) = None <->
   item_ref item = None).
Proof.
  induction n as [| n (IH1 & IH2 & IH3 & IH4)]; [cbn; tauto |].
  rewrite !Nat.iter_succ.
  destruct (updatePhotoItem_keeps flag delta
              (Nat.iter n (updatePhotoItem flag delta) item)) as (H1 & H2 & H3 & H4).
  split; [rewrite H1; exact IH1 |]. split; [rewrite H2; exact IH2 |]. split.
  - intros E. rewrite (IH3 E). apply updatePhotoItem_keeps. exact E.
  - rewrite H4. exact IH4.
Qed.

Lemma group_rotation_frames (n : nat) (flag : bool) (g delta : R) (s : Scene) :
  group_rotation_y (frames n flag g delta s) =
  match group_rotation_y s with
  | Some ry => Some (ry + INR n * (delta * 0.05 + g * 0.05))
  | None => None
  end.
Proof.
  revert s. induction n as [| n IH]; intros s.
  - cbn. destruct (group_rotation_y s); [f_equal; ring | reflexivity].
  - cbn [frames]. rewrite IH. unfold useFrame. cbn [group_rotation_y].
    destruct (group_rotation_y s); [| reflexivity].
    f_equal. rewrite S_INR. ring.
Qed.

(** X12: what the frames keep.  Any number of frames leaves the number of
    photo groups, their layouts and their photos as they were, and a group
    that is not mounted is skipped, not touched.  The container turns by
    [delta * 0.05 + gestureRotation * 0.05] per frame, so by [n] times that
    after [n] frames. *)
Theorem frames_keep (n : nat) (flag : bool) (g delta : R) (s : Scene) :
  let s' := frames n flag g delta s in
  List.length (photoItems s') = List.length (photoItems s) /\
  map item_layout (photoItems s') = map item_layout (photoItems s) /\
  map item_photo (photoItems s') = map item_photo (photoItems s) /\
  (forall (i : nat) (item : PhotoItem),
     nth_error (photoItems s) i = Some item -> item_ref item = None ->
     nth_error (photoItems s') i = Some item) /\
  group_rotation_y s' =
    match group_rotation_y s with
    | Some ry => Some (ry + INR n * (delta * 0.05 + g * 0.05))
    | None => None
    end.
Proof.
  intros s'. subst s'. rewrite photoItems_frames.
  split; [apply length_map |].
  split; [rewrite map_map; apply map_ext; intros it; apply iter_keeps |].
  split; [rewrite map_map; apply map_ext; intros it; apply iter_keeps |].
  split; [| apply group_rotation_frames].
  intros i item Hi Href. rewrite nth_error_map, Hi. cbn.
  f_equal. apply iter_keeps. exact Href.
Qed.

Lemma iter_rotation (n : nat) (flag : bool) (delta : R) (item : PhotoItem)
  (cur : Object3D) :
  item_ref item = Some cur ->
  exists cur' : Object3D,
    item_ref (Nat.iter n (updatePhotoItem flag delta) item) = Some cur' /\
    let rot := rotation cur in
    let rot' := rotation cur' in
    let irot := initialRot (item_layout item) in
    if flag then
      THREE.ex rot' = THREE.ex rot + INR n * (delta * 0.2) /\
      THREE.ey rot' = THREE.ey rot + INR n * (delta * 0.2) /\
      THREE.ez rot' = THREE.ez rot
    else
      THREE.ex rot' - THREE.ex irot = (1 - delta * 2) ^ n * (THREE.ex rot - THREE.ex irot) /\
      THREE.ey rot' - THREE.ey irot = (1 - delta * 2) ^ n * (THREE.ey rot - THREE.ey irot) /\
      THREE.ez rot' - THREE.ez irot = (1 - delta * 2) ^ n * (THREE.ez rot - THREE.ez irot).
Proof.
  intros Href. induction n as [| n (cur' & Hc & IH)].
  - exists cur. split; [exact Href |]. cbv zeta.
    destruct flag; cbn [pow INR]; repeat split; ring.
  - rewrite Nat.iter_succ.
    destruct (iter_keeps n flag delta item) as (Hl & _).
    set (it := Nat.iter n (updatePhotoItem flag delta) item) in *.
    unfold updatePhotoItem. rewrite Hc, Hl.
    eexists. split; [reflexivity |]. cbv zeta in *. cbn [rotation].
    destruct flag; cbn [THREE.ex THREE.ey THREE.ez].
    + destruct IH as (H1 & H2 & H3). rewrite H1, H2, H3, S_INR.
      repeat split; ring.
    + destruct IH as (H1 & H2 & H3). unfold THREE.MathUtils_lerp. cbn [pow].
      split; [| split]; rewrite (Rmult_assoc (1 - delta * 2) ((1 - delta * 2) ^ n));
        [rewrite <- H1 | rewrite <- H2 | rewrite <- H3]; ring.
Qed.

(** X13: the rotation of a mounted photo group.  While the scene is
    exploded the group keeps spinning: every frame adds [0.2 delta] to its
    [x] and [y] angles and leaves [z] alone.  While it is assembled every
    frame multiplies the difference of each angle to the assembled rotation
    by [1 - 2 delta]. *)
Theorem frames_rotation (n : nat) (flag : bool) (g delta : R) (s : Scene)
  (i : nat) (item : PhotoItem) (cur : Object3D) :
  nth_error (photoItems s) i = Some item ->
  item_ref item = Some cur ->
  exists (item' : PhotoItem) (cur' : Object3D),
    nth_error (photoItems (frames n flag g delta s)) i = Some item' /\
    item_ref item' = Some cur' /\
    let rot := rotation cur in
    let rot' := rotation cur' in
    let irot := initialRot (item_layout item) in
    if flag then
      THREE.ex rot' = THREE.ex rot + INR n * (delta * 0.2) /\
      THREE.ey rot' = THREE.ey rot + INR n * (delta * 0.2) /\
      THREE.ez rot' = THREE.ez rot
    else
      THREE.ex rot' - THREE.ex irot = (1 - delta * 2) ^ n * (THREE.ex rot - THREE.ex irot) /\
      THREE.ey rot' - THREE.ey irot = (1 - delta * 2) ^ n * (THREE.ey rot - THREE.ey irot) /\
      THREE.ez rot' - THREE.ez irot = (1 - delta * 2) ^ n * (THREE.ez rot - THREE.ez irot).
Proof.
  intros Hi Href.
  destruct (iter_rotation n flag delta item cur Href) as (cur' & Hc & Hrot).
  exists (Nat.iter n (updatePhotoItem flag delta) item), cur'.
  split; [rewrite photoItems_frames, nth_error_map, Hi; reflexivity |].
  split; [exact Hc | exact Hrot].
Qed.

Lemma frames_rotation_witness :
  exists (item' : PhotoItem) (cur' : Object3D),
    nth_error
      (photoItems
         (frames 120 true 0 (1 / 60)
            (oneItemScene (THREE.mkVector3 1 0 0) (THREE.mkVector3 0 0 0))))
      0 = Some item' /\
    item_ref item' = Some cur' /\
    THREE.ex (rotation cur') = 0 + INR 120 * (1 / 60 * 0.2) /\
    THREE.ey (rotation cur') = 0 + INR 120 * (1 / 60 * 0.2) /\
    THREE.ez (rotation cur') = 0.
Proof.
  apply (frames_rotation 120 true 0 (1 / 60)
           (oneItemScene (THREE.mkVector3 1 0 0) (THREE.mkVector3 0 0 0)) 0
           (mkPhotoItem
              (mkSlotLayout (THREE.mkVector3 0 0 0) (THREE.mkVector3 0 10 0)
                 (THREE.mkEuler 0 0 0))
              (Some (mkObject3D (THREE.mkVector3 1 0 0) (THREE.mkVector3 1 1 1)
                       (THREE.mkEuler 0 0 0)))
              (mkPhotoData "photo" "blob:photo" 0 false))
           (mkObject3D (THREE.mkVector3 1 0 0) (THREE.mkVector3 1 1 1)
              (THREE.mkEuler 0 0 0))); reflexivity.
Defined.

(** ** The stack of stools *)





(** ** The ribbon of the stool and the gems in it *)

(** A point wound on the ribbon at parameter [t], moved by [dr] along the
    radius and by [dh] along the height. *)
Lemma wound_inside (t dr dh theta : R) :
  0 <= t < 1 -> -0.7 <= dr <= 0.7 -> -1.25 <= dh <= 1.25 ->
  insidePhotoRing
    (THREE.mkVector3 ((9.5 - t * 6.0 + dr) * cos theta) (-10.0 + t * 19.5 + dh)
       ((9.5 - t * 6.0 + dr) * sin theta)).
Proof.
  intros Ht Hdr Hdh.
  unfold insidePhotoRing, horizontalRadius, ribbonRadiusAt.
  cbn [THREE.x THREE.y THREE.z].
  rewrite polar_sq, sqrt_square by lra. lra.
Qed.

Lemma ribbonStep_inside (rnd : Random) (i : nat) (items : list RibbonItem) (k : nat) :
  uniform01 rnd -> (i < ribbonCount)%nat ->
  exists it : RibbonItem,
    fst (ribbonStep i items rnd k) = items ++ [it] /\
    insidePhotoRing (ribbon_pos it) /\
    In (ribbon_color it) ribbonGreens /\
    0.15 <= ribbon_scale it < 0.4.
Proof.
  intros Hu Hi. unfold ribbonStep. rewrite !bind_run.
  cbn [Math_random ret fst snd]. eexists. split; [reflexivity |].
  cbn [ribbon_pos ribbon_color ribbon_scale].
  pose proof (Hu k) as H1. pose proof (Hu (S k)) as H2.
  pose proof (Hu (S (S (S (S (S (S k))))))) as H7.
  assert (Ht : 0 <= INR i / INR ribbonCount < 1).
  { assert (HN : INR ribbonCount = 8000) by (rewrite INR_IZR_INZ; reflexivity).
    pose proof (pos_INR i) as H0.
    pose proof (lt_INR i ribbonCount Hi) as Hlt.
    rewrite HN in *. lra. }
  set (t := INR i / INR ribbonCount) in *.
  pose proof (SIN_bound (t * 6 * PI * 2 * 2.5)) as Hs.
  pose proof (COS_bound (t * 6 * PI * 2 * 2.5)) as Hc.
  split; [| split].
  - replace (9.5 - t * 6.0 + sin (t * 6 * PI * 2 * 2.5) * 0.3 + (rnd (S k) - 0.5) * 0.6)
      with (9.5 - t * 6.0 + (sin (t * 6 * PI * 2 * 2.5) * 0.3 + (rnd (S k) - 0.5) * 0.6))
      by ring.
    replace (-10.0 + t * 19.5 + cos (t * 6 * PI * 2 * 2.5) * 0.4 + (rnd k - 0.5) * 1.7)
      with (-10.0 + t * 19.5 + (cos (t * 6 * PI * 2 * 2.5) * 0.4 + (rnd k - 0.5) * 1.7))
      by ring.
    apply wound_inside; [exact Ht | lra | lra].
  - unfold ribbonGreens.
    destruct (Rgt_dec _ 0.6); [left; reflexivity |].
    destruct (Rgt_dec _ 0.3); [right; left; reflexivity | right; right; left; reflexivity].
  - lra.
Qed.

(** X15: the ribbon of the stool has 8000 particles, each in one of three
    greens, with a scale of [[0.15, 0.4)], and each nearer to the axis than a
    photo frame at the same height: the photo layout of the stool places its
    frames at the ribbon radius plus 1.3, beyond the reach of the ribbon's
    wobble and spread. *)
Theorem ribbon_inside_photos (rnd : Random) (k : nat) :
  uniform01 rnd ->
  let items := fst (ribbonData rnd k) in
  List.length items = 8000%nat /\
  Forall (fun it => insidePhotoRing (ribbon_pos it) /\
                    In (ribbon_color it) ribbonGreens /\
                    0.15 <= ribbon_scale it < 0.4) items /\
  forall count i : nat,
    Part000.slot_rBase stool count i + 0.8 =
    (ribbonRadiusAt (Part000.slot_h stool count i) + 0.5) + 0.8.
Proof.
  intros Hu items. split; [| split; [| intros count i; reflexivity]].
  - subst items. unfold ribbonData.
    apply (for_loop_invariant_lt ribbonStep rnd (fun i d => List.length d = i)
             ribbonCount 0);
      [| reflexivity].
    intros i d c Hi Hd.
    destruct (ribbonStep_inside rnd i d c Hu ltac:(lia)) as (it & -> & _).
    rewrite length_app. cbn [List.length]. lia.
  - subst items. unfold ribbonData.
    pose proof (for_loop_invariant_lt ribbonStep rnd
                  (fun _ d =>
                     Forall (fun it => insidePhotoRing (ribbon_pos it) /\
                                       In (ribbon_color it) ribbonGreens /\
                                       0.15 <= ribbon_scale it < 0.4) d)
                  ribbonCount 0) as H.
    cbv beta in H. apply H; [| constructor].
    intros i d c Hi Hd.
    destruct (ribbonStep_inside rnd i d c Hu ltac:(lia)) as (it & -> & Hit).
    apply Forall_app. split; [exact Hd | constructor; [exact Hit | constructor]].
Qed.

Lemma ribbon_inside_photos_witness :
  let items := fst (ribbonData (fun _ => 1 / 2) 0%nat) in
  List.length items = 8000%nat /\
  Forall (fun it => insidePhotoRing (ribbon_pos it) /\
                    In (ribbon_color it) ribbonGreens /\
                    0.15 <= ribbon_scale it < 0.4) items /\
  forall count i : nat,
    Part000.slot_rBase stool count i + 0.8 =
    (ribbonRadiusAt (Part000.slot_h stool count i) + 0.5) + 0.8.
Proof. apply (ribbon_inside_photos (fun _ => 1 / 2) 0%nat). intros n. lra. Defined.

Lemma stoolGemStep_inside (type : GemKind) (rnd : Random) (i : nat)
  (items : list RibbonItem) (k : nat) :
  uniform01 rnd ->
  exists it : RibbonItem,
    fst (stoolGemStep type i items rnd k) = items ++ [it] /\
    insidePhotoRing (ribbon_pos it) /\
    0.3 <= ribbon_scale it < 0.5 /\
    match type with
    | gem_cube => ribbon_color it = "#ffffff"%string
    | gem_ico =>
        ribbon_color it = "#e9d5ff"%string \/ ribbon_color it = "#ffffff"%string
    end.
Proof.
  intros Hu. unfold stoolGemStep.
  pose proof (Hu k) as H0. pose proof (Hu (S k)) as H1. pose proof (Hu (S (S k))) as H2.
  set (t := rnd k) in *.
  pose proof (SIN_bound (t * 6 * PI * 2 * 2.5)) as Hs.
  pose proof (COS_bound (t * 6 * PI * 2 * 2.5)) as Hc.
  assert (Hin : insidePhotoRing
                  (THREE.mkVector3
                     ((9.5 - t * 6.0 + sin (t * 6 * PI * 2 * 2.5) * 0.3
                       + (rnd (S (S k)) - 0.5) * 0.8) * cos (t * 6 * PI * 2))
                     (-10.0 + t * 19.5 + cos (t * 6 * PI * 2 * 2.5) * 0.4
                      + (rnd (S k) - 0.5) * 1.4)
                     ((9.5 - t * 6.0 + sin (t * 6 * PI * 2 * 2.5) * 0.3
                       + (rnd (S (S k)) - 0.5) * 0.8) * sin (t * 6 * PI * 2)))).
  { replace (9.5 - t * 6.0 + sin (t * 6 * PI * 2 * 2.5) * 0.3 + (rnd (S (S k)) - 0.5) * 0.8)
      with (9.5 - t * 6.0 + (sin (t * 6 * PI * 2 * 2.5) * 0.3 + (rnd (S (S k)) - 0.5) * 0.8))
      by ring.
    replace (-10.0 + t * 19.5 + cos (t * 6 * PI * 2 * 2.5) * 0.4 + (rnd (S k) - 0.5) * 1.4)
      with (-10.0 + t * 19.5 + (cos (t * 6 * PI * 2 * 2.5) * 0.4 + (rnd (S k) - 0.5) * 1.4))
      by ring.
    apply wound_inside; [exact H0 | lra | lra]. }
  destruct type; rewrite !bind_run; cbn [Math_random ret fst snd].
  - eexists. split; [reflexivity |]. cbn [ribbon_pos ribbon_color ribbon_scale].
    split; [exact Hin |].
    pose proof (Hu (S (S (S (S (S (S k))))))). split; [lra | reflexivity].
  - eexists. split; [reflexivity |]. cbn [ribbon_pos ribbon_color ribbon_scale].
    split; [exact Hin |].
    pose proof (Hu (S (S (S (S (S (S (S k)))))))). split; [lra |].
    destruct (Rgt_dec _ 0.3); [left | right]; reflexivity.
Qed.

(** X16: whatever their number and their kind, the gems of the stool sit
    in the ribbon: each nearer to the axis than a photo frame at the same
    height, with a scale of [[0.3, 0.5)]; a cube is always white, an
    icosahedron pale purple or white. *)
Theorem stoolGems_inside (count : nat) (type : GemKind) (rnd : Random) (k : nat) :
  uniform01 rnd ->
  let items := fst (generateData count type rnd k) in
  List.length items = count /\
  Forall (fun it =>
            insidePhotoRing (ribbon_pos it) /\
            0.3 <= ribbon_scale it < 0.5 /\
            match type with
            | gem_cube => ribbon_color it = "#ffffff"%string
            | gem_ico =>
                ribbon_color it = "#e9d5ff"%string \/
                ribbon_color it = "#ffffff"%string
            end) items.
Proof.
  intros Hu items. subst items. unfold generateData.
  pose proof (for_loop_invariant (stoolGemStep type) rnd
                (fun i d =>
                   List.length d = i /\
                   Forall (fun it =>
                             insidePhotoRing (ribbon_pos it) /\
                             0.3 <= ribbon_scale it < 0.5 /\
                             match type with
                             | gem_cube => ribbon_color it = "#ffffff"%string
                             | gem_ico =>
                                 ribbon_color it = "#e9d5ff"%string \/
                                 ribbon_color it = "#ffffff"%string
                             end) d)) as H.
  cbv beta in H.
  assert (Hstep : forall i s c,
             List.length s = i /\
             Forall (fun it =>
                       insidePhotoRing (ribbon_pos it) /\
                       0.3 <= ribbon_scale it < 0.5 /\
                       match type with
                       | gem_cube => ribbon_color it = "#ffffff"%string
                       | gem_ico =>
                           ribbon_color it = "#e9d5ff"%string \/
                           ribbon_color it = "#ffffff"%string
                       end) s ->
             List.length (fst (stoolGemStep type i s rnd c)) = S i /\
             Forall (fun it =>
                       insidePhotoRing (ribbon_pos it) /\
                       0.3 <= ribbon_scale it < 0.5 /\
                       match type with
                       | gem_cube => ribbon_color it = "#ffffff"%string
                       | gem_ico =>
                           ribbon_color it = "#e9d5ff"%string \/
                           ribbon_color it = "#ffffff"%string
                       end) (fst (stoolGemStep type i s rnd c))).
  { intros i s c [Hn Hall].
    destruct (stoolGemStep_inside type rnd i s c Hu) as (it & -> & Hit).
    rewrite length_app. cbn [List.length]. split; [lia |].
    apply Forall_app. split; [exact Hall | constructor; [exact Hit | constructor]]. }
  exact (H Hstep count 0%nat [] k (conj eq_refl (Forall_nil _))).
Qed.

Lemma stoolGems_inside_witness :
  let items := fst (generateData 500 gem_ico (fun _ => 1 / 2) 0%nat) in
  List.length items = 500%nat /\
  Forall (fun it =>
            insidePhotoRing (ribbon_pos it) /\
            0.3 <= ribbon_scale it < 0.5 /\
            (ribbon_color it = "#e9d5ff"%string \/
             ribbon_color it = "#ffffff"%string)) items.
Proof. apply (stoolGems_inside 500 gem_ico (fun _ => 1 / 2) 0%nat). intros n. lra. Defined.

(** * The application: shapes, pointer input and the album *)

Lemma toggleTreeShape_eight (s : TreeShape) : Nat.iter 8 toggleTreeShape s = s.
Proof. destruct s; reflexivity. Qed.

Lemma toggleTreeShape_iter_add (n m : nat) (s : TreeShape) :
  Nat.iter (n + m) toggleTreeShape s =
  Nat.iter n toggleTreeShape (Nat.iter m toggleTreeShape s).
Proof. apply Nat.iter_add. Qed.

Lemma toggleTreeShape_iter_mul (q : nat) (s : TreeShape) :
  Nat.iter (q * 8) toggleTreeShape s = s.
Proof.
  induction q as [| q IH]; [reflexivity |].
  replace (S q * 8)%nat with (8 + q * 8)%nat by lia.
  rewrite toggleTreeShape_iter_add, IH. apply toggleTreeShape_eight.
Qed.

(** X17: the shape button walks one cycle through the eight shapes: [n]
    presses bring a shape back to itself exactly when [n] is a multiple of
    eight, and every shape is reached from every other in fewer than eight
    presses. *)
Theorem toggleTreeShape_cycle (s : TreeShape) :
  (forall n : nat, Nat.iter n toggleTreeShape s = s <-> (n mod 8 = 0)%nat) /\
  (forall t : TreeShape,
     exists n : nat, (n < 8)%nat /\ Nat.iter n toggleTreeShape s = t).
Proof.
  split.
  - intros n.
    pose proof (Nat.div_mod_eq n 8) as Hn.
    assert (Hr : (n mod 8 < 8)%nat) by (apply Nat.mod_upper_bound; lia).
    remember (n mod 8)%nat as r eqn:Er. remember (n / 8)%nat as q eqn:Eq.
    clear Er Eq.
    assert (Hn' : n = (r + q * 8)%nat) by lia. clear Hn. subst n.
    rewrite toggleTreeShape_iter_add, toggleTreeShape_iter_mul.
    split.
    + intros H.
      do 8 (destruct r as [| r]; [first [reflexivity | destruct s; discriminate H] |]).
      lia.
    + intros ->. reflexivity.
  - intros t.
    destruct s, t;
      first [ exists 0%nat; split; [lia | reflexivity]
            | exists 1%nat; split; [lia | reflexivity]
            | exists 2%nat; split; [lia | reflexivity]
            | exists 3%nat; split; [lia | reflexivity]
            | exists 4%nat; split; [lia | reflexivity]
            | exists 5%nat; split; [lia | reflexivity]
            | exists 6%nat; split; [lia | reflexivity]
            | exists 7%nat; split; [lia | reflexivity] ].
Qed.

Lemma AppMode_eqb_eq (a b : AppMode) : AppMode_eqb a b = true <-> a = b.
Proof. destruct a, b; cbn; split; intros H; congruence. Qed.

(** X18: a wheel event toggles the explosion exactly in tree mode, when the
    accumulated scroll has passed 500 against the current state (below -500
    while assembled, above 500 while exploded).  It then asks for the
    opposite state, never for the current one, and empties the accumulator;
    otherwise it asks for nothing and, in tree mode, keeps the sum.  After
    the 200 ms reset a single event of at most 500 does nothing. *)
Theorem handleWheel_toggles (st : AppState) (refs : InputRefs) (deltaY : R) :
  let acc := scrollAccumulator refs + deltaY in
  let fires :=
    mode st = mode_tree /\
    ((acc < -500 /\ isExploded st = false) \/ (500 < acc /\ isExploded st = true)) in
  let out := handleWheel st refs deltaY in
  (fires ->
   fst out = [SetIsExploded (negb (isExploded st))] /\
   scrollAccumulator (snd out) = 0) /\
  (~ fires ->
   fst out = [] /\
   scrollAccumulator (snd out) =
     (if AppMode_eqb (mode st) mode_tree then acc else scrollAccumulator refs)) /\
  touchStartY (snd out) = touchStartY refs /\
  (-500 <= deltaY <= 500 ->
   fst (handleWheel st (scrollTimeoutFired refs) deltaY) = []).
Proof.
  intros acc fires out.
  assert (Hmain :
    (fires -> fst out = [SetIsExploded (negb (isExploded st))] /\
              scrollAccumulator (snd out) = 0) /\
    (~ fires -> fst out = [] /\
                scrollAccumulator (snd out) =
                  (if AppMode_eqb (mode st) mode_tree then acc
                   else scrollAccumulator refs)) /\
    touchStartY (snd out) = touchStartY refs).
  { subst out fires. unfold handleWheel. cbv zeta. fold acc.
    destruct (AppMode_eqb (mode st) mode_tree) eqn:Em; cbn [negb].
    - apply AppMode_eqb_eq in Em.
      match goal with
      | |- context [Rlt_dec ?a ?b] => destruct (Rlt_dec a b) as [Hlo | Hlo]
      end;
        match goal with
        | |- context [Rgt_dec ?a ?b] => destruct (Rgt_dec a b) as [Hhi | Hhi]
        end;
        destruct (isExploded st) eqn:Ex; cbn [negb fst snd scrollAccumulator touchStartY];
        (split; [| split]); try reflexivity;
        try (intros _; split; reflexivity);
        try (intros Hf; exfalso; apply Hf; split; [exact Em |]; first [left; split; [lra | reflexivity] | right; split; [lra | reflexivity]]);
        try (intros (_ & [[H1 H2] | [H1 H2]]); exfalso; first [discriminate H2 | lra]).
    - assert (Hm : mode st <> mode_tree).
      { intros H. apply AppMode_eqb_eq in H. congruence. }
      cbn [fst snd]. split; [| split]; try reflexivity.
      + intros (H & _). contradiction.
      + intros _. split; reflexivity. }
  destruct Hmain as (H1 & H2 & H3).
  split; [exact H1 | split; [exact H2 | split; [exact H3 |]]].
  intros Hd. unfold handleWheel, scrollTimeoutFired. cbv zeta.
  cbn [scrollAccumulator].
  destruct (AppMode_eqb (mode st) mode_tree); cbn [negb fst]; [| reflexivity].
  match goal with
  | |- context [Rlt_dec ?a ?b] => destruct (Rlt_dec a b) as [Hlo | Hlo]
  end; [lra |].
  match goal with
  | |- context [Rgt_dec ?a ?b] => destruct (Rgt_dec a b) as [Hhi | Hhi]
  end; [lra |].
  reflexivity.
Qed.

Lemma handleWheel_toggles_witness :
  let st := mkAppState [] mode_tree None false false 0 0 None_ 0 in
  let refs := mkInputRefs (-400) true None in
  fst (handleWheel st refs (-150)) = [SetIsExploded true] /\
  scrollAccumulator (snd (handleWheel st refs (-150))) = 0.
Proof.
  intros st refs.
  apply (handleWheel_toggles st refs (-150)).
  split; [reflexivity |]. left. split; [cbn; lra | reflexivity].
Defined.

(** X19: a touch move toggles the explosion exactly when a touch is being
    followed, in tree mode, and the finger has travelled more than 150 up
    while assembled or more than 150 down while exploded.  The toggle ends
    the touch: whatever the state, further moves do nothing until a touch
    starts again. *)
Theorem handleTouchMove_once (st : AppState) (refs : InputRefs) (currentY : R) :
  let fires :=
    exists start : R,
      touchStartY refs = Some start /\ mode st = mode_tree /\
      ((150 < start - currentY /\ isExploded st = false) \/
       (start - currentY < -150 /\ isExploded st = true)) in
  let out := handleTouchMove st refs currentY in
  (fires ->
   fst out = [SetIsExploded (negb (isExploded st))] /\
   touchStartY (snd out) = None /\
   forall (st' : AppState) (y' : R),
     handleTouchMove st' (snd out) y' = ([], snd out)) /\
  (~ fires -> out = ([], refs)) /\
  scrollAccumulator (snd out) = scrollAccumulator refs.
Proof.
  intros fires out. subst out fires. unfold handleTouchMove.
  destruct (touchStartY refs) as [start |] eqn:Et.
  2:{ split; [| split]; [| reflexivity | reflexivity].
      intros (s & H & _). discriminate H. }
  destruct (AppMode_eqb (mode st) mode_tree) eqn:Em; cbn [negb].
  2:{ assert (Hm : mode st <> mode_tree).
      { intros H. apply AppMode_eqb_eq in H. congruence. }
      split; [| split]; [| reflexivity | reflexivity].
      intros (s & _ & H & _). contradiction. }
  apply AppMode_eqb_eq in Em. cbv zeta.
  match goal with
  | |- context [Rgt_dec ?a ?b] => destruct (Rgt_dec a b) as [Hup | Hup]
  end;
    match goal with
    | |- context [Rlt_dec ?a ?b] => destruct (Rlt_dec a b) as [Hdn | Hdn]
    end;
    destruct (isExploded st) eqn:Ex;
    cbn [negb fst snd scrollAccumulator touchStartY];
    (split; [| split]); try reflexivity;
    try (intros _; split; [reflexivity | split; [reflexivity | intros st' y'; reflexivity]]);
    try (intros Hf; exfalso; apply Hf; exists start; split; [reflexivity |];
         split; [exact Em |];
         first [left; split; [lra | reflexivity] | right; split; [lra | reflexivity]]);
    try (intros (s & Hs & _ & [[H1 H2] | [H1 H2]]); exfalso;
         injection Hs as <-; first [discriminate H2 | lra]).
Qed.

Lemma handleTouchMove_once_witness :
  let st := mkAppState [] mode_tree None false false 0 0 None_ 0 in
  let refs := handleTouchStart (mkInputRefs 0 false None) 600 in
  fst (handleTouchMove st refs 400) = [SetIsExploded true] /\
  touchStartY (snd (handleTouchMove st refs 400)) = None /\
  forall (st' : AppState) (y' : R),
    handleTouchMove st' (snd (handleTouchMove st refs 400)) y' =
    ([], snd (handleTouchMove st refs 400)).
Proof.
  intros st refs.
  apply (handleTouchMove_once st refs 400).
  exists 600. split; [reflexivity |]. split; [reflexivity |].
  left. split; [lra | reflexivity].
Defined.



Section BulkUploadFacts.

Variable File : Type.
Variable storedUrl : PhotoData -> File -> string.

Lemma bulkFill_spec (files : list File) (ps : list PhotoData) :
  forall fileIndex : nat,
    let ps' := bulkFill File storedUrl files ps fileIndex in
    List.length ps' = List.length ps /\
    map id ps' = map id ps /\
    emptySlotsCount ps' =
      (emptySlotsCount ps - (List.length files - fileIndex))%nat /\
    Forall2 (uploadedSlot storedUrl files) ps ps' /\
    (forall (j : nat) (p : PhotoData) (f : File),
       nth_error (filter isEmpty ps) j = Some p ->
       nth_error files (fileIndex + j) = Some f ->
       In (filledSlot storedUrl p f) ps').
Proof.
  unfold emptySlotsCount.
  induction ps as [| p rest IH]; intros k; cbn [bulkFill].
  - cbn. repeat split; try reflexivity; try constructor.
    intros j p f H. destruct j; discriminate H.
  - destruct (isEmpty p) eqn:Ep; cbn [andb].
    + destruct (k <? List.length files)%nat eqn:Ek.
      * apply Nat.ltb_lt in Ek.
        destruct (nth_error files k) as [file |] eqn:Ef.
        2:{ apply nth_error_None in Ef. lia. }
        destruct (IH (S k)) as (H1 & H2 & H3 & H4 & H5).
        cbn [List.length map filter isEmpty id]. rewrite Ep.
        cbn [List.length].
        split; [rewrite H1; reflexivity |].
        split; [rewrite H2; reflexivity |].
        split; [rewrite H3; lia |].
        split.
        { constructor; [| exact H4]. split; [congruence |].
          right. exists file. split; [exact Ep |].
          split; [eapply nth_error_In; exact Ef | reflexivity]. }
        intros j q f Hq Hf. destruct j as [| j]; cbn [nth_error] in Hq.
        { injection Hq as <-. rewrite Nat.add_0_r in Hf. rewrite Ef in Hf.
          injection Hf as <-. left. reflexivity. }
        right. apply (H5 j q f Hq). rewrite <- Hf. f_equal. lia.
      * apply Nat.ltb_ge in Ek.
        destruct (IH k) as (H1 & H2 & H3 & H4 & H5).
        cbn [List.length map filter]. rewrite Ep. cbn [List.length].
        split; [rewrite H1; reflexivity |].
        split; [rewrite H2; reflexivity |].
        split; [rewrite H3; lia |].
        split.
        { constructor; [| exact H4]. split; [reflexivity | left; reflexivity]. }
        intros j q f Hq Hf.
        assert (Hlt : (k + j < List.length files)%nat).
        { apply nth_error_Some. rewrite Hf. discriminate. }
        lia.
    + destruct (IH k) as (H1 & H2 & H3 & H4 & H5).
      cbn [List.length map filter]. rewrite Ep.
      split; [rewrite H1; reflexivity |].
      split; [rewrite H2; reflexivity |].
      split; [exact H3 |].
      split.
      { constructor; [| exact H4]. split; [reflexivity | left; reflexivity]. }
      intros j q f Hq Hf. right. exact (H5 j q f Hq Hf).
Qed.

Lemma uploadedSlot_weaken (files files' : list File) (ps ps' : list PhotoData) :
  (forall f, In f files' -> In f files) ->
  Forall2 (uploadedSlot storedUrl files') ps ps' ->
  Forall2 (uploadedSlot storedUrl files) ps ps'.
Proof.
  intros Hsub H. induction H as [| p p' l l' [Ha Hb] _ IH]; constructor; [| exact IH].
  split; [exact Ha |].
  destruct Hb as [Hb | (f & H1 & H2 & H3)]; [left; exact Hb |].
  right. exists f. split; [exact H1 | split; [apply Hsub; exact H2 | exact H3]].
Qed.

(** X21: a bulk upload with no file does nothing and one into a full album
    stores nothing.  Otherwise the new album has the same slots in the same
    order (lengths and ids kept), every photo already there is untouched,
    the j-th empty slot receives the j-th file with its version raised by
    one, files beyond the number of empty slots are dropped (and reported),
    and the number of empty slots falls by the number of files stored. *)
Theorem handleBulkUpload_fills (ps : list PhotoData) (files : list File) :
  let out := handleBulkUpload File storedUrl ps (Some files) in
  (files = [] -> out = BulkIgnored) /\
  (files <> [] -> emptySlotsCount ps = 0%nat -> out = BulkNoSlot) /\
  (files <> [] -> (0 < emptySlotsCount ps)%nat ->
   exists ps' : list PhotoData,
     out = BulkStored (emptySlotsCount ps <? List.length files)%nat ps' /\
     List.length ps' = List.length ps /\
     map id ps' = map id ps /\
     emptySlotsCount ps' = (emptySlotsCount ps - List.length files)%nat /\
     Forall2 (uploadedSlot storedUrl files) ps ps' /\
     forall (j : nat) (p : PhotoData) (f : File),
       nth_error (filter isEmpty ps) j = Some p ->
       nth_error files j = Some f ->
       In (filledSlot storedUrl p f) ps').
Proof.
  intros out. subst out. unfold handleBulkUpload.
  fold (emptySlotsCount ps).
  split; [intros ->; reflexivity |].
  split.
  - intros Hne H0. destruct files as [| f fs]; [congruence |].
    cbn [List.length Nat.eqb]. rewrite H0. reflexivity.
  - intros Hne Hpos. destruct files as [| f0 fs]; [congruence |].
    set (files := f0 :: fs) in *.
    assert (E1 : (List.length files =? 0)%nat = false) by reflexivity.
    rewrite E1.
    assert (E2 : (emptySlotsCount ps =? 0)%nat = false) by (apply Nat.eqb_neq; lia).
    rewrite E2.
    destruct (emptySlotsCount ps <? List.length files)%nat eqn:Et.
    + apply Nat.ltb_lt in Et.
      set (files' := firstn (emptySlotsCount ps) files).
      assert (Hlen : List.length files' = emptySlotsCount ps).
      { unfold files'. rewrite length_firstn. lia. }
      assert (Hsub : forall f, In f files' -> In f files).
      { intros f Hf. apply In_nth_error in Hf. destruct Hf as [i Hi].
        unfold files' in Hi. rewrite nth_error_firstn in Hi.
        destruct (i <? emptySlotsCount ps)%nat; [| discriminate Hi].
        eapply nth_error_In. exact Hi. }
      destruct (bulkFill_spec files' ps 0%nat) as (H1 & H2 & H3 & H4 & H5).
      eexists. split; [reflexivity |].
      split; [exact H1 |]. split; [exact H2 |].
      split; [rewrite H3, Hlen; lia |].
      split; [exact (uploadedSlot_weaken files files' _ _ Hsub H4) |].
      intros j p f Hp Hf. apply (H5 j p f Hp). cbn [Nat.add].
      unfold files'. rewrite nth_error_firstn.
      assert (Hj : (j < emptySlotsCount ps)%nat).
      { unfold emptySlotsCount. apply nth_error_Some. rewrite Hp. discriminate. }
      apply Nat.ltb_lt in Hj. rewrite Hj. exact Hf.
    + apply Nat.ltb_ge in Et.
      destruct (bulkFill_spec files ps 0%nat) as (H1 & H2 & H3 & H4 & H5).
      eexists. split; [reflexivity |].
      split; [exact H1 |]. split; [exact H2 |].
      split; [rewrite H3; lia |].
      split; [exact H4 |].
      intros j p f Hp Hf. exact (H5 j p f Hp Hf).
Qed.

End BulkUploadFacts.

Lemma handleBulkUpload_fills_witness :
  let ps := [mkPhotoData "slot-0" "blob:a" 1 false;
             mkPhotoData "slot-1" transparentGif 0 true;
             mkPhotoData "slot-2" transparentGif 2 true] in
  let files := ["x.jpg"; "y.jpg"; "z.jpg"]%string in
  let storedUrl := fun (p : PhotoData) (f : string) => ("blob:" ++ f)%string in
  exists ps' : list PhotoData,
    handleBulkUpload string storedUrl ps (Some files) =
      BulkStored (emptySlotsCount ps <? List.length files)%nat ps' /\
    List.length ps' = List.length ps /\
    map id ps' = map id ps /\
    emptySlotsCount ps' = (emptySlotsCount ps - List.length files)%nat /\
    Forall2 (uploadedSlot storedUrl files) ps ps' /\
    forall (j : nat) (p : PhotoData) (f : string),
      nth_error (filter isEmpty ps) j = Some p ->
      nth_error files j = Some f ->
      In (filledSlot storedUrl p f) ps'.
Proof.
  intros ps files storedUrl.
  apply (handleBulkUpload_fills string storedUrl ps files).
  - discriminate.
  - cbn. lia.
Defined.

(** ** Editing one slot *)

Lemma map_slot_ids (f : PhotoData -> PhotoData) (ps : list PhotoData) :
  (forall p, id (f p) = id p) -> map id (map f ps) = map id ps.
Proof.
  intros Hf. rewrite map_map. apply map_ext. exact Hf.
Qed.

Lemma map_slot_absent (pid : string) (g : PhotoData -> PhotoData)
  (ps : list PhotoData) :
  (forall q, In q ps -> id q <> pid) ->
  map (fun p => if String.eqb (id p) pid then g p else p) ps = ps.
Proof.
  intros H. induction ps as [| q rest IH]; [reflexivity |].
  cbn [map]. rewrite IH by (intros r Hr; apply H; right; exact Hr).
  destruct (String.eqb (id q) pid) eqn:E; [| reflexivity].
  apply String.eqb_eq in E. exfalso. exact (H q (or_introl eq_refl) E).
Qed.

Lemma delete_count (pid : string) (ps : list PhotoData) (p : PhotoData) :
  NoDup (map id ps) -> In p ps -> id p = pid -> isEmpty p = false ->
  emptySlotsCount
    (map (fun p => if String.eqb (id p) pid
                   then mkPhotoData (id p) transparentGif (version p + 1) true
                   else p) ps) =
  S (emptySlotsCount ps).
Proof.
  unfold emptySlotsCount.
  induction ps as [| q rest IH]; intros Hnd Hin Hid Hfull; [destruct Hin |].
  cbn [map] in Hnd. apply NoDup_cons_iff in Hnd. destruct Hnd as [Hq Hnd].
  cbn [map]. destruct Hin as [-> | Hin].
  - rewrite map_slot_absent.
    2:{ intros r Hr E. apply Hq. rewrite Hid, <- E. apply in_map. exact Hr. }
    apply String.eqb_eq in Hid. rewrite Hid.
    cbn [filter isEmpty]. rewrite Hfull. reflexivity.
  - assert (Hne : id q <> pid).
    { intros E. apply Hq. rewrite E, <- Hid. apply in_map. exact Hin. }
    apply String.eqb_neq in Hne. rewrite Hne.
    cbn [filter]. specialize (IH Hnd Hin Hid Hfull).
    destruct (isEmpty q); cbn [List.length]; rewrite IH; reflexivity.
Qed.

(** X22: deleting a photo keeps the slots (same ids in the same order),
    touches no slot with another id, and leaves the deleted slot empty with
    the transparent placeholder, so that no later Victory gesture can show
    it.  If the deleted photo is the one in focus the view returns to the
    tree with no active photo; otherwise mode and active photo stay.  In an
    album with distinct ids, deleting a present photo frees exactly one
    slot. *)
Theorem handleDeletePhoto_resets (st : AppState) (pid : string) :
  let st' := handleDeletePhoto st pid in
  map id (photos st') = map id (photos st) /\
  (forall (i : nat) (p : PhotoData),
     nth_error (photos st) i = Some p -> id p <> pid ->
     nth_error (photos st') i = Some p) /\
  (forall p : PhotoData,
     In p (photos st') -> id p = pid ->
     isEmpty p = true /\ url p = transparentGif) /\
  (forall (now : Z) (gesture : GestureType) (x : R) (rnd : Random) (k : nat)
          (p : PhotoData),
     uniform01 rnd ->
     In (SetActivePhoto (Some p)) (fst (handleGesture st' now gesture x rnd k)) ->
     id p <> pid /\ In p (photos st)) /\
  (isActive st pid -> mode st' = mode_tree /\ activePhoto st' = None) /\
  (~ isActive st pid -> mode st' = mode st /\ activePhoto st' = activePhoto st) /\
  (NoDup (map id (photos st)) ->
   forall p : PhotoData,
     In p (photos st) -> id p = pid -> isEmpty p = false ->
     emptySlotsCount (photos st') = S (emptySlotsCount (photos st))).
Proof.
  intros st'. subst st'. unfold handleDeletePhoto. cbn [photos mode activePhoto].
  set (del := fun p : PhotoData =>
                if String.eqb (id p) pid
                then mkPhotoData (id p) transparentGif (version p + 1) true
                else p).
  assert (Hdel : forall p, In p (map del (photos st)) ->
                           (id p = pid -> isEmpty p = true /\ url p = transparentGif) /\
                           (isEmpty p = false -> id p <> pid /\ In p (photos st))).
  { intros p Hp. apply in_map_iff in Hp. destruct Hp as (q & <- & Hq).
    unfold del. destruct (String.eqb (id q) pid) eqn:E.
    - cbn [id isEmpty url]. split; [intros _; split; reflexivity |].
      intros H. discriminate H.
    - apply String.eqb_neq in E. split; [intros H; contradiction |].
      intros _. split; [exact E | exact Hq]. }
  split.
  { apply map_slot_ids. intros p. unfold del.
    destruct (String.eqb (id p) pid); reflexivity. }
  split.
  { intros i p Hp Hne. rewrite (map_nth_error del i (photos st) Hp).
    unfold del. apply String.eqb_neq in Hne. rewrite Hne. reflexivity. }
  split.
  { intros p Hp Hid. exact (proj1 (Hdel p Hp) Hid). }
  split.
  { intros now gesture x rnd k p Hu Hin.
    set (s' := mkAppState _ _ _ _ _ _ _ _ _) in Hin.
    destruct (handleGesture_jumps s' now gesture x rnd k) as (Hj & _).
    assert (Hf : In (SetActivePhoto (Some p))
                    (filter isJumpRequest (fst (handleGesture s' now gesture x rnd k)))).
    { apply filter_In. split; [exact Hin | reflexivity]. }
    cbv zeta in Hj. rewrite Hj in Hf.
    destruct (GestureType_eqb gesture Victory
              && negb (GestureType_eqb (lastGesture s') Victory))%bool;
      [| destruct Hf].
    destruct (validPhotos (photos s')) as [| v vs] eqn:Ev; [destruct Hf |].
    destruct Hf as [Hf | []].
    destruct (pick_in (v :: vs) (rnd k) ltac:(discriminate) (Hu k)) as (a & Ha & Hina).
    rewrite Ha in Hf. injection Hf as <-.
    rewrite <- Ev in Hina. apply validPhotos_spec in Hina.
    destruct Hina as [Hina Hfull]. exact (proj2 (Hdel a Hina) Hfull). }
  unfold isActive.
  split.
  { destruct (activePhoto st) as [a |]; [| intros []].
    intros <-. rewrite String.eqb_refl. split; reflexivity. }
  split.
  { destruct (activePhoto st) as [a |]; [| intros _; split; reflexivity].
    intros Hne. apply String.eqb_neq in Hne. rewrite Hne. split; reflexivity. }
  intros Hnd p Hin Hid Hfull. exact (delete_count pid (photos st) p Hnd Hin Hid Hfull).
Qed.

Lemma handleDeletePhoto_resets_witness :
  let album := [mkPhotoData "slot-0" "blob:a" 1 false;
                mkPhotoData "slot-1" transparentGif 0 true] in
  let st := mkAppState album mode_focus (Some (mkPhotoData "slot-0" "blob:a" 1 false))
              false false 0 0 None_ 0 in
  let st' := handleDeletePhoto st "slot-0" in
  (mode st' = mode_tree /\ activePhoto st' = None) /\
  emptySlotsCount (photos st') = S (emptySlotsCount (photos st)).
Proof.
  intros album st st'.
  destruct (handleDeletePhoto_resets st "slot-0") as (_ & _ & _ & _ & Ha & _ & Hc).
  split.
  - apply Ha. reflexivity.
  - apply (Hc ltac:(cbn; repeat constructor; cbn; intuition discriminate)
              (mkPhotoData "slot-0" "blob:a" 1 false)).
    + left. reflexivity.
    + reflexivity.
    + reflexivity.
Defined.

(** X23: replacing a photo keeps the slots and the mode, fills every slot
    of that id with the new image and raises its version by one, and keeps
    the photo in focus in step with the album: if the active photo was a
    photo of the album it still is one, with the same id.  It never empties
    a slot.  Deleting and then replacing leaves the slot filled with its
    version raised by two.  The upload into one slot makes the same change,
    and none without a file or a target. *)
Theorem handleReplacePhoto_fills (st : AppState) (pid newUrl : string) :
  let st' := handleReplacePhoto st pid newUrl in
  map id (photos st') = map id (photos st) /\
  mode st' = mode st /\
  (forall (i : nat) (p : PhotoData),
     nth_error (photos st) i = Some p ->
     nth_error (photos st') i =
       Some (if String.eqb (id p) pid
             then mkPhotoData (id p) newUrl (version p + 1) false else p)) /\
  (forall a : PhotoData,
     activePhoto st = Some a -> In a (photos st) ->
     exists a' : PhotoData,
       activePhoto st' = Some a' /\ In a' (photos st') /\ id a' = id a) /\
  (emptySlotsCount (photos st') <= emptySlotsCount (photos st))%nat /\
  photos (handleReplacePhoto (handleDeletePhoto st pid) pid newUrl) =
    map (fun p => if String.eqb (id p) pid
                  then mkPhotoData (id p) newUrl (version p + 2) false else p)
        (photos st) /\
  (pid <> ""%string ->
   handleSingleSlotUpload true (Some pid) newUrl (photos st) = photos st') /\
  handleSingleSlotUpload false (Some pid) newUrl (photos st) = photos st /\
  handleSingleSlotUpload true None newUrl (photos st) = photos st /\
  handleSingleSlotUpload true (Some ""%string) newUrl (photos st) = photos st.
Proof.
  intros st'. subst st'. unfold handleReplacePhoto. cbn [photos mode activePhoto].
  set (rep := fun p : PhotoData =>
                if String.eqb (id p) pid
                then mkPhotoData (id p) newUrl (version p + 1) false
                else p).
  assert (Hid : forall p, id (rep p) = id p).
  { intros p. unfold rep. destruct (String.eqb (id p) pid); reflexivity. }
  split; [apply map_slot_ids; exact Hid |].
  split; [reflexivity |].
  split.
  { intros i p Hp. exact (map_nth_error rep i (photos st) Hp). }
  split.
  { intros a -> Hin. exists (rep a). split.
    - unfold rep. destruct (String.eqb (id a) pid); reflexivity.
    - split; [apply in_map; exact Hin | apply Hid]. }
  split.
  { unfold emptySlotsCount. induction (photos st) as [| q rest IH]; [cbn; lia |].
    cbn [map filter]. unfold rep at 1.
    destruct (String.eqb (id q) pid); cbn [isEmpty];
      destruct (isEmpty q); cbn [List.length]; lia. }
  split.
  { unfold handleDeletePhoto. cbn [photos]. rewrite map_map. apply map_ext.
    intros p. unfold rep.
    destruct (String.eqb (id p) pid) eqn:E; cbn [id version].
    - rewrite E. f_equal. lia.
    - rewrite E. reflexivity. }
  unfold handleSingleSlotUpload.
  split.
  { intros Hne. apply String.eqb_neq in Hne. rewrite Hne. reflexivity. }
  split; [destruct (String.eqb pid ""); reflexivity |].
  split; reflexivity.
Qed.

Lemma handleReplacePhoto_fills_witness :
  let album := [mkPhotoData "slot-0" "blob:a" 1 false;
                mkPhotoData "slot-1" transparentGif 0 true] in
  let st := mkAppState album mode_focus (Some (mkPhotoData "slot-0" "blob:a" 1 false))
              false false 0 0 None_ 0 in
  let st' := handleReplacePhoto st "slot-0" "blob:b" in
  (exists a' : PhotoData,
     activePhoto st' = Some a' /\ In a' (photos st') /\ id a' = "slot-0"%string) /\
  handleSingleSlotUpload true (Some "slot-0"%string) "blob:b" (photos st) = photos st'.
Proof.
  intros album st st'.
  destruct (handleReplacePhoto_fills st "slot-0" "blob:b")
    as (_ & _ & _ & Ha & _ & _ & Hs & _).
  split.
  - apply (Ha (mkPhotoData "slot-0" "blob:a" 1 false)); [reflexivity |].
    left. reflexivity.
  - apply Hs. discriminate.
Defined.

(** X24: a click on a photo is ignored while recording and outside tree
    mode.  In tree mode a click on an empty slot asks for an upload into
    that slot and changes nothing else; a click on a filled one puts it in
    focus, and closing the focus then brings back the tree with no active
    photo, the album and every other field as they were.  Closing does
    nothing outside focus mode. *)
Theorem handlePhotoClick_focus (isRecording : bool) (st : AppState) (photo : PhotoData) :
  (isRecording = true \/ mode st <> mode_tree ->
   handlePhotoClick isRecording st photo = ClickIgnored) /\
  (isRecording = false -> mode st = mode_tree -> isEmpty photo = true ->
   handlePhotoClick isRecording st photo = ClickUpload (id photo)) /\
  (isRecording = false -> mode st = mode_tree -> isEmpty photo = false ->
   exists acts : list Action,
     handlePhotoClick isRecording st photo = ClickFocus acts /\
     let focused := fold_left applyAction acts st in
     mode focused = mode_focus /\ activePhoto focused = Some photo /\
     fold_left applyAction (handleCloseFocus focused) focused =
       mkAppState (photos st) mode_tree None (isExploded st) (isTwinkling st)
         (treeColorIndex st) (gestureX st) (lastGesture st) (lastColorChange st)) /\
  (mode st <> mode_focus -> handleCloseFocus st = []).
Proof.
  unfold handlePhotoClick, handleCloseFocus.
  split.
  { intros [-> | Hm]; [reflexivity |].
    destruct isRecording; [reflexivity |].
    destruct (AppMode_eqb (mode st) mode_tree) eqn:E; [| reflexivity].
    apply AppMode_eqb_eq in E. contradiction. }
  split.
  { intros -> Hm ->. rewrite Hm. reflexivity. }
  split.
  { intros -> Hm ->. rewrite Hm. cbn [AppMode_eqb].
    eexists. split; [reflexivity |].
    cbn. split; [reflexivity |]. split; reflexivity. }
  intros Hm. destruct (AppMode_eqb (mode st) mode_focus) eqn:E; [| reflexivity].
  apply AppMode_eqb_eq in E. contradiction.
Qed.

Lemma handlePhotoClick_focus_witness :
  let photo := mkPhotoData "slot-0" "blob:a" 1 false in
  let st := mkAppState [photo] mode_tree None false false 0 0 None_ 0 in
  exists acts : list Action,
    handlePhotoClick false st photo = ClickFocus acts /\
    let focused := fold_left applyAction acts st in
    mode focused = mode_focus /\ activePhoto focused = Some photo /\
    fold_left applyAction (handleCloseFocus focused) focused =
      mkAppState (photos st) mode_tree None (isExploded st) (isTwinkling st)
        (treeColorIndex st) (gestureX st) (lastGesture st) (lastColorChange st).
Proof.
  intros photo st.
  apply (handlePhotoClick_focus false st photo); reflexivity.
Defined.

(** ** Gestures *)

Lemma onGesture_fields (st : AppState) (now : Z) (gesture : GestureType) (x : R)
  (rnd : Random) (k : nat) :
  let st' := fst (onGesture st now gesture x rnd k) in
  gestureX st' =
    (if GestureType_eqb gesture Closed_Fist then 3.0
     else if negb (GestureType_eqb gesture None_) then (x - 0.5) * 4 else 0) /\
  isExploded st' =
    (if GestureType_eqb gesture Open_Palm then true
     else if GestureType_eqb (lastGesture st) Open_Palm then false
     else isExploded st) /\
  isTwinkling st' =
    (if GestureType_eqb gesture Closed_Fist then true
     else if GestureType_eqb (lastGesture st) Closed_Fist then false
     else isTwinkling st) /\
  treeColorIndex st' =
    (if colorChangeDue st now gesture
     then ((treeColorIndex st + 1) mod List.length TREE_COLORS)%nat
     else treeColorIndex st) /\
  lastColorChange st' =
    (if colorChangeDue st now gesture then now else lastColorChange st) /\
  photos st' = photos st.
Proof.
  unfold onGesture, handleGesture, colorChangeDue. rewrite !bind_run.
  destruct gesture, (lastGesture st), (validPhotos (photos st)) as [| p l],
    (now - lastColorChange st >? 300)%Z;
    cbn [GestureType_eqb andb negb app ret fst snd bind Math_random fold_left
         applyAction gestureX isExploded isTwinkling treeColorIndex lastColorChange
         photos];
    repeat split; reflexivity.
Qed.

(** X25: the rotation bias a gesture sets depends on the gesture and the
    hand position only: 3 for a closed fist, 0 when no hand is seen, and
    four times the offset of the hand from the centre for an open palm or a
    Victory sign, which for a position between 0 and 1 lies between -2 and
    2 (below the fist's 3) and is 0 exactly at the centre. *)
Theorem handleGesture_rotation (st : AppState) (now : Z) (gesture : GestureType)
  (x : R) (rnd : Random) (k : nat) :
  0 <= x <= 1 ->
  let st' := fst (onGesture st now gesture x rnd k) in
  (gesture = Closed_Fist -> gestureX st' = 3) /\
  (gesture = None_ -> gestureX st' = 0) /\
  (gesture = Open_Palm \/ gesture = Victory ->
   gestureX st' = (x - 0.5) * 4 /\ -2 <= gestureX st' <= 2 /\
   (gestureX st' = 0 <-> x = 0.5)) /\
  -2 <= gestureX st' <= 3.
Proof.
  intros Hx st'.
  destruct (onGesture_fields st now gesture x rnd k) as (Hg & _).
  fold st' in Hg.
  destruct gesture; cbn [GestureType_eqb negb] in Hg; rewrite Hg;
    (split; [intros H; first [discriminate H | lra] |]);
    (split; [intros H; first [discriminate H | lra] |]);
    (split; [| lra]);
    try (intros [H | H]; discriminate H);
    (intros _; split; [reflexivity | split; [lra | split; intros; lra]]).
Qed.

Lemma handleGesture_rotation_witness :
  let st := mkAppState [] mode_tree None false false 0 0 None_ 0 in
  let st' := fst (onGesture st 0 Open_Palm 0.75 (fun _ => 0) 0%nat) in
  gestureX st' = (0.75 - 0.5) * 4 /\ -2 <= gestureX st' <= 2 /\
  (gestureX st' = 0 <-> 0.75 = 0.5).
Proof.
  intros st st'.
  apply (handleGesture_rotation st 0 Open_Palm 0.75 (fun _ => 0) 0%nat); [lra |].
  left. reflexivity.
Defined.

(** X26: gestures drive the two flags by their edges.  An open palm
    explodes the tree and the first sample without it assembles it again;
    a closed fist makes it twinkle and the first sample without it stops
    that.  A sample that neither shows nor follows the gesture leaves the
    flag alone, so an explosion asked by the wheel survives other gestures.
    No gesture changes the album. *)
Theorem handleGesture_flags (st : AppState) (now : Z) (gesture : GestureType)
  (x : R) (rnd : Random) (k : nat) :
  let st' := fst (onGesture st now gesture x rnd k) in
  (gesture = Open_Palm -> isExploded st' = true) /\
  (gesture <> Open_Palm -> lastGesture st = Open_Palm -> isExploded st' = false) /\
  (gesture <> Open_Palm -> lastGesture st <> Open_Palm ->
   isExploded st' = isExploded st) /\
  (gesture = Closed_Fist -> isTwinkling st' = true) /\
  (gesture <> Closed_Fist -> lastGesture st = Closed_Fist -> isTwinkling st' = false) /\
  (gesture <> Closed_Fist -> lastGesture st <> Closed_Fist ->
   isTwinkling st' = isTwinkling st) /\
  photos st' = photos st /\
  (forall (now2 : Z) (gesture2 : GestureType) (x2 : R) (k2 : nat),
     gesture = Open_Palm -> gesture2 <> Open_Palm ->
     isExploded (fst (onGesture st' now2 gesture2 x2 rnd k2)) = false).
Proof.
  intros st'.
  destruct (onGesture_fields st now gesture x rnd k) as (_ & He & Ht & _ & _ & Hp).
  fold st' in He, Ht, Hp.
  assert (Hl : lastGesture st' = gesture) by apply onGesture_lastGesture.
  split; [intros ->; exact He |].
  split.
  { intros Hg Hlast. rewrite He, Hlast.
    destruct gesture; first [congruence | reflexivity]. }
  split.
  { intros Hg Hlast. rewrite He.
    destruct gesture, (lastGesture st); first [congruence | reflexivity]. }
  split; [intros ->; exact Ht |].
  split.
  { intros Hg Hlast. rewrite Ht, Hlast.
    destruct gesture; first [congruence | reflexivity]. }
  split.
  { intros Hg Hlast. rewrite Ht.
    destruct gesture, (lastGesture st); first [congruence | reflexivity]. }
  split; [exact Hp |].
  intros now2 gesture2 x2 k2 -> Hg2.
  destruct (onGesture_fields st' now2 gesture2 x2 rnd k2) as (_ & He2 & _).
  rewrite He2, Hl. destruct gesture2; first [congruence | reflexivity].
Qed.

Lemma handleGesture_flags_witness :
  let st := mkAppState [] mode_tree None false false 0 0 None_ 0 in
  let rnd : Random := fun _ => 0 in
  let st' := fst (onGesture st 0 Open_Palm 0.5 rnd 0%nat) in
  isExploded st' = true /\
  isExploded (fst (onGesture st' 100 None_ 0.5 rnd 0%nat)) = false.
Proof.
  intros st rnd st'.
  destruct (handleGesture_flags st 0 Open_Palm 0.5 rnd 0%nat)
    as (H1 & _ & _ & _ & _ & _ & _ & H2).
  split.
  - apply H1. reflexivity.
  - apply (H2 100%Z None_ 0.5 0%nat); [reflexivity | discriminate].
Defined.

Lemma TREE_COLORS_length : List.length TREE_COLORS = 4%nat.
Proof. reflexivity. Qed.

(** X27: a gesture changes the colour only while the fist is closed and
    more than 300 ms after the last change; it then moves to the next of
    the four colours and records the time, so that a second fist sample
    within 300 ms of a change keeps the colour.  A double click in tree
    mode moves to the next colour too, and does nothing in the other modes.
    The index stays below four, and four steps bring a colour back. *)
Theorem treeColor_cycle (st : AppState) (now : Z) (gesture : GestureType)
  (x : R) (rnd : Random) (k : nat) :
  let next := fun i : nat => ((i + 1) mod 4)%nat in
  let st' := fst (onGesture st now gesture x rnd k) in
  (colorChangeDue st now gesture = true ->
   treeColorIndex st' = next (treeColorIndex st) /\ lastColorChange st' = now) /\
  (colorChangeDue st now gesture = false ->
   treeColorIndex st' = treeColorIndex st /\
   lastColorChange st' = lastColorChange st) /\
  (forall (now2 : Z) (x2 : R) (k2 : nat),
     colorChangeDue st now gesture = true -> (now2 - now <= 300)%Z ->
     treeColorIndex (fst (onGesture st' now2 Closed_Fist x2 rnd k2)) =
     treeColorIndex st') /\
  (mode st = mode_tree ->
   treeColorIndex (fold_left applyAction (handleDoubleClick st) st) =
   next (treeColorIndex st)) /\
  (mode st <> mode_tree -> handleDoubleClick st = []) /\
  (next (treeColorIndex st) < 4)%nat /\
  ((treeColorIndex st < 4)%nat ->
   next (next (next (next (treeColorIndex st)))) = treeColorIndex st).
Proof.
  intros next st'.
  destruct (onGesture_fields st now gesture x rnd k) as (_ & _ & _ & Hc & Ht & _).
  fold st' in Hc, Ht. rewrite TREE_COLORS_length in Hc.
  split.
  { intros E. rewrite E in Hc, Ht. split; [exact Hc | exact Ht]. }
  split.
  { intros E. rewrite E in Hc, Ht. split; [exact Hc | exact Ht]. }
  split.
  { intros now2 x2 k2 E Hn.
    destruct (onGesture_fields st' now2 Closed_Fist x2 rnd k2)
      as (_ & _ & _ & Hc2 & _).
    rewrite Hc2. unfold colorChangeDue. rewrite E in Ht. rewrite Ht.
    cbn [GestureType_eqb andb].
    assert (En : (now2 - now >? 300)%Z = false).
    { rewrite Z.gtb_ltb. apply Z.ltb_ge. exact Hn. }
    rewrite En. reflexivity. }
  split.
  { intros Hm. unfold handleDoubleClick. rewrite Hm. reflexivity. }
  split.
  { intros Hm. unfold handleDoubleClick.
    destruct (AppMode_eqb (mode st) mode_tree) eqn:E; [| reflexivity].
    apply AppMode_eqb_eq in E. contradiction. }
  split.
  { unfold next. apply Nat.mod_upper_bound. lia. }
  intros Hi. unfold next.
  destruct (treeColorIndex st) as [| [| [| [| n]]]]; try reflexivity. lia.
Qed.

Lemma treeColor_cycle_witness :
  let st := mkAppState [] mode_tree None false false 3 0 None_ 1000 in
  let rnd : Random := fun _ => 0 in
  let st' := fst (onGesture st 1400 Closed_Fist 0.5 rnd 0%nat) in
  (treeColorIndex st' = 0%nat /\ lastColorChange st' = 1400%Z) /\
  treeColorIndex (fst (onGesture st' 1500 Closed_Fist 0.5 rnd 0%nat)) =
  treeColorIndex st'.
Proof.
  intros st rnd st'.
  destruct (treeColor_cycle st 1400 Closed_Fist 0.5 rnd 0%nat) as (H1 & _ & H2 & _).
  split.
  - apply H1. reflexivity.
  - apply (H2 1500%Z 0.5 0%nat); [reflexivity | lia].
Defined.

(** X28: the gesture manager calls the handler at most every tenth of a
    second: in any run of frames each call comes at least 0.1 after the
    one before (and after the starting [lastUpdate]).  It makes no call
    and keeps [lastUpdate] while the camera is not ready or there is no
    video.  When the detector finds no hand the call it makes reports no
    gesture at the centre, which stops the gesture rotation. *)
Theorem gestureManager_throttle (lastUpdate : R)
  (frames : list (R * option (R * GestureType))) :
  spaced lastUpdate (gestureCallTimes lastUpdate frames) /\
  (forall (isCameraReady videoPresent : bool) (now : R)
          (result : option (R * GestureType)),
     isCameraReady = false \/ videoPresent = false ->
     gestureManagerFrame isCameraReady videoPresent lastUpdate now result =
     (lastUpdate, None)) /\
  (forall (now : R) (result : option (R * GestureType)),
     now - lastUpdate < 0.1 ->
     gestureManagerFrame true true lastUpdate now result = (lastUpdate, None)) /\
  (forall now : R,
     0.1 <= now - lastUpdate ->
     gestureManagerFrame true true lastUpdate now None = (now, Some (None_, 0.5)) /\
     forall (st : AppState) (t : Z) (rnd : Random) (k : nat),
       gestureX (fst (onGesture st t None_ 0.5 rnd k)) = 0).
Proof.
  split.
  { revert lastUpdate.
    induction frames as [| [now result] rest IH]; intros last; [exact I |].
    cbn [gestureCallTimes]. unfold gestureManagerFrame. cbn [negb orb].
    destruct (Rlt_dec (now - last) 0.1) as [H | H].
    - apply IH.
    - cbn [spaced]. split; [lra | apply IH]. }
  split.
  { intros r v now result [-> | ->]; unfold gestureManagerFrame;
      [reflexivity | destruct r; reflexivity]. }
  split.
  { intros now result H. unfold gestureManagerFrame. cbn [negb orb].
    destruct (Rlt_dec (now - lastUpdate) 0.1); [reflexivity | contradiction]. }
  intros now H. split.
  { unfold gestureManagerFrame. cbn [negb orb].
    destruct (Rlt_dec (now - lastUpdate) 0.1); [lra | reflexivity]. }
  intros st t rnd k.
  destruct (onGesture_fields st t None_ 0.5 rnd k) as (Hg & _).
  exact Hg.
Qed.

Lemma gestureManager_throttle_witness :
  gestureManagerFrame true true 1 1.25 None = (1.25, Some (None_, 0.5)) /\
  forall (st : AppState) (t : Z) (rnd : Random) (k : nat),
    gestureX (fst (onGesture st t None_ 0.5 rnd k)) = 0.
Proof.
  apply (gestureManager_throttle 1 []). lra.
Defined.

Lemma gestureOfCategory_name (g : GestureType) :
  gestureOfCategory (categoryNameOf g) = g.
Proof. destruct g; reflexivity. Qed.

(** X29: the detector reports nothing exactly when the recogniser is
    missing, the video has no size, recognition fails or no hand is seen.
    Otherwise it reports the gesture of the first hand, each of the four
    category names giving its gesture and any other name none, at the
    mirrored mean of landmarks 0 and 9, which stays between 0 and 1 when
    they do (and is 0 without landmarks). *)
Theorem detectHands_result (recognizerReady : bool) (videoWidth videoHeight : nat)
  (recognized : option Recognition) :
  let out := detectHands recognizerReady videoWidth videoHeight recognized in
  (out = None <->
   recognizerReady = false \/ videoWidth = 0%nat \/ videoHeight = 0%nat \/
   recognized = None \/
   exists r : Recognition, recognized = Some r /\ gestures r = []) /\
  (forall (x : R) (g : GestureType),
     out = Some (x, g) ->
     exists (r : Recognition) (categoryName : string) (others : list string),
       recognized = Some r /\ gestures r = categoryName :: others /\
       g = gestureOfCategory categoryName /\
       match landmarks r with
       | Some lm =>
           x = 1 - (lm 0%nat + lm 9%nat) / 2 /\
           (0 <= lm 0%nat <= 1 -> 0 <= lm 9%nat <= 1 -> 0 <= x <= 1)
       | None => x = 0
       end) /\
  (forall g : GestureType, gestureOfCategory (categoryNameOf g) = g) /\
  (forall categoryName : string,
     categoryName <> "Open_Palm"%string -> categoryName <> "Victory"%string ->
     categoryName <> "Closed_Fist"%string ->
     gestureOfCategory categoryName = None_).
Proof.
  intros out. subst out. unfold detectHands.
  split.
  { destruct recognizerReady; cbn [negb]; [| split; [intros _; left; reflexivity | reflexivity]].
    destruct videoWidth as [| w]; cbn [Nat.eqb orb];
      [split; [intros _; right; left; reflexivity | reflexivity] |].
    destruct videoHeight as [| h]; cbn [Nat.eqb];
      [split; [intros _; right; right; left; reflexivity | reflexivity] |].
    destruct recognized as [r |];
      [| split; [intros _; right; right; right; left; reflexivity | reflexivity]].
    destruct (gestures r) as [| c rest] eqn:Eg.
    - split; [| reflexivity]. intros _. right; right; right; right.
      exists r. split; [reflexivity | exact Eg].
    - split; [intros H; discriminate H |].
      intros [H | [H | [H | [H | (r' & H1 & H2)]]]]; try discriminate H.
      injection H1 as <-. congruence. }
  split.
  { intros x g.
    destruct recognizerReady; cbn [negb]; [| intros H; discriminate H].
    destruct ((videoWidth =? 0)%nat || (videoHeight =? 0)%nat)%bool;
      [intros H; discriminate H |].
    destruct recognized as [r |]; [| intros H; discriminate H].
    destruct (gestures r) as [| c rest] eqn:Eg; [intros H; discriminate H |].
    intros H. injection H as Hx Hg.
    exists r, c, rest. split; [reflexivity |]. split; [exact Eg |].
    split; [symmetry; exact Hg |].
    destruct (landmarks r) as [lm |]; [| symmetry; exact Hx].
    split; [symmetry; exact Hx |]. intros H0 H9. rewrite <- Hx. lra. }
  split; [exact gestureOfCategory_name |].
  intros c H1 H2 H3. unfold gestureOfCategory.
  apply String.eqb_neq in H1, H2, H3. rewrite H1, H2, H3. reflexivity.
Qed.

Lemma detectHands_result_witness :
  let r := mkRecognition ["Victory"%string] (Some (fun _ => 0.25)) in
  exists (r' : Recognition) (categoryName : string) (others : list string),
    Some r = Some r' /\ gestures r' = categoryName :: others /\
    Victory = gestureOfCategory categoryName /\
    match landmarks r' with
    | Some lm =>
        0.75 = 1 - (lm 0%nat + lm 9%nat) / 2 /\
        (0 <= lm 0%nat <= 1 -> 0 <= lm 9%nat <= 1 -> 0 <= 0.75 <= 1)
    | None => 0.75 = 0
    end.
Proof.
  intros r.
  apply (detectHands_result true 320 240 (Some r)).
  cbn. f_equal. f_equal. lra.
Defined.

(** ** The album across sessions *)



Section HydrationFacts.

Variable Blob : Type.
Variable getFile : string -> option Blob.
Variable createObjectURL : Blob -> string.


End HydrationFacts.

